(** * Talos Principle Archipelago client: identifier resolution,
      collection-state reconciliation, visibility debounce and death link

    A shallow embedding of [src/ItemMapping.cpp], [src/InventorySync.cpp],
    [src/DeathLinkHandler.cpp], the tick step [ModCore::ProcessDeathLinks]
    and the visibility loop of [scripts/main.lua], with the properties of
    the specification stated and proved against these definitions. *)

From stdpp Require Import gmap strings list fin_maps pretty sorting.
From Stdlib Require Import ZArith Lia Ascii.

Local Open Scope string_scope.
Local Open Scope Z_scope.

(** * Part I: the embedding *)

(** ** C++ [int] *)

Definition INT_MAX : Z := 2147483647.
Definition INT_MIN : Z := -2147483648.

(** [static_cast<int>(x)] of an unsigned size: reduction modulo 2^32 into
    the signed range. *)
Definition static_cast_int (z : Z) : Z :=
  (z + 2147483648) `mod` 4294967296 - 2147483648.

(** ** Characters and the two parsers of [ItemMapping.cpp] *)

(** [std::isalpha] in the "C" locale. *)
Definition isalpha (c : ascii) : bool :=
  let n := Z.of_N (Ascii.N_of_ascii c) in
  ((65 <=? n) && (n <=? 90)) || ((97 <=? n) && (n <=? 122)).

Definition isdigit (c : ascii) : bool :=
  let n := Z.of_N (Ascii.N_of_ascii c) in (48 <=? n) && (n <=? 57).

(** [std::isspace] in the "C" locale: space, \t \n \v \f \r. *)
Definition isspace (c : ascii) : bool :=
  let n := Z.of_N (Ascii.N_of_ascii c) in
  (n =? 32) || ((9 <=? n) && (n <=? 13)).

Definition digit_value (c : ascii) : Z := Z.of_N (Ascii.N_of_ascii c) - 48.

(** The [while (i < size && isalpha(tetId[i])) ++i;] scan, as the split of
    the string at the first non-letter. *)
Fixpoint span_alpha (s : string) : string * string :=
  match s with
  | String.EmptyString => (String.EmptyString, String.EmptyString)
  | String.String c rest =>
      if isalpha c
      then let '(p, r) := span_alpha rest in (String.String c p, r)
      else (String.EmptyString, s)
  end.

Fixpoint skip_spaces (s : string) : string :=
  match s with
  | String.String c rest => if isspace c then skip_spaces rest else s
  | String.EmptyString => s
  end.

Fixpoint read_digits (s : string) (acc : Z) (seen : bool) : Z * bool :=
  match s with
  | String.String c rest =>
      if isdigit c then read_digits rest (10 * acc + digit_value c) true
      else (acc, seen)
  | String.EmptyString => (acc, seen)
  end.

(** [std::stoi]: leading white space, an optional sign, decimal digits;
    [None] stands for the exception it throws ([invalid_argument] without
    a digit, [out_of_range] outside [int]). *)
Definition stoi (s : string) : option Z :=
  let s1 := skip_spaces s in
  let '(neg, s2) :=
    match s1 with
    | String.String c rest =>
        if Ascii.eqb c "-"%char then (true, rest)
        else if Ascii.eqb c "+"%char then (false, rest)
        else (false, s1)
    | String.EmptyString => (false, s1)
    end in
  let '(v, seen) := read_digits s2 0 false in
  let r := if neg : bool then - v else v in
  if seen : bool
  then if (INT_MIN <=? r) && (r <=? INT_MAX) then Some r else None
  else None.

Definition ExtractPrefix (tetId : string) : string := (span_alpha tetId).1.

(** [None]: [std::stoi] threw. *)
Definition ExtractNumber (tetId : string) : option Z :=
  match (span_alpha tetId).2 with
  | String.EmptyString => Some 0
  | rest => stoi rest
  end.

(** [std::to_string(int)]. *)
Definition to_string (z : Z) : string := pretty z.

(** ** The static tables *)

Definition ALL_TETROMINOES : list string :=
  [ "DJ3"; "MT1"; "DZ1"; "DJ2"; "DJ1"; "ML1"; "DI1";
    "ML2"; "DL1"; "DZ2";
    "MT2"; "DZ3"; "NL1"; "MT3";
    "MZ1"; "MZ2"; "MT4"; "MT5";
    "NZ1"; "DI2"; "DT1"; "DT2"; "DL2";
    "DZ4"; "NL2"; "NL3"; "NZ2";
    "NL4"; "DL3"; "NT1"; "NO1"; "DT3";
    "ML3"; "MZ3"; "MS1"; "MT6"; "MT7";
    "NL5"; "MS2"; "MT8"; "MZ4";
    "MT9"; "MJ1"; "NT2"; "NL6";
    "NT3"; "NT4"; "DT4"; "DJ4"; "NL7"; "NL8";
    "NI1"; "NL9"; "NS1"; "DJ5"; "NZ3";
    "NI2"; "MT10"; "ML4";
    "NJ1"; "NI3"; "MO1"; "MI1";
    "NZ4"; "NJ2"; "NI4"; "NT5";
    "NZ5"; "NO2"; "NT6"; "NS2";
    "NJ3"; "NO3"; "NZ6"; "NT7";
    "NT8"; "NI5"; "NS3"; "NT9";
    "NI6"; "NO4"; "NO5"; "NT10";
    "NS4"; "NJ4"; "NO6";
    "NT11"; "NO7"; "NT12"; "NL10" ].

Definition ALL_PURPLE_SIGILS : list string :=
  [ "HL1"; "HL2"; "HL3"; "HL4"; "HL5"; "HL6";
    "HL7"; "HL8"; "HL9"; "HL10"; "HL11"; "HL12";
    "HL13"; "HL14"; "HL15"; "HL16"; "HL17"; "HL18";
    "HL19"; "HL20"; "HL21"; "HL22"; "HL23"; "HL24" ].

Definition ALL_STARS : list string :=
  [ "SL5"; "SL2"; "SZ3"; "SL1"; "SL4"; "SL7";
    "SL6"; "SZ8"; "SL9"; "SL10"; "SL11"; "SL12";
    "SL13"; "SZ24"; "SZ14"; "SZ15"; "SL16"; "SL17";
    "SL18"; "SL19"; "SL20"; "SL21"; "SL22"; "SL23";
    "SL27"; "SL29"; "SL30"; "SZ26"; "SL25"; "SL28" ].

Definition BASE_ITEM_ID : Z := 0x540000.
Definition BASE_LOCATION_ID : Z := 0x540000.

(** The initialiser of [m_apItemIdToPrefix] in the constructor. *)
Definition apItemIdToPrefix_init : list (Z * string) :=
  [ (0x540000, "DJ"); (0x540001, "DZ"); (0x540002, "DI"); (0x540003, "DL");
    (0x540004, "DT"); (0x540005, "MT"); (0x540006, "ML"); (0x540007, "MZ");
    (0x540008, "MS"); (0x540009, "MJ"); (0x54000A, "MO"); (0x54000B, "MI");
    (0x54000C, "NL"); (0x54000D, "NZ"); (0x54000E, "NT"); (0x54000F, "NI");
    (0x540010, "NJ"); (0x540011, "NO"); (0x540012, "NS"); (0x540013, "HL");
    (0x540014, "**") ].

(** ** The registry object and its construction *)

Record ItemMapping := mkItemMapping {
  m_apItemIdToPrefix : gmap Z string;
  m_tetrominoSequences : gmap string (list string);
  m_locationNameToId : gmap string Z;
  m_locationIdToName : gmap Z string;
  m_receivedCounts : gmap string Z;
  m_modIdToGameKey : gmap string string;
  m_gameKeyToModId : gmap string string
}.

Definition set_receivedCounts (im : ItemMapping) (c : gmap string Z) : ItemMapping :=
  mkItemMapping (m_apItemIdToPrefix im) (m_tetrominoSequences im)
    (m_locationNameToId im) (m_locationIdToName im) c
    (m_modIdToGameKey im) (m_gameKeyToModId im).

(** [m_tetrominoSequences[prefix].push_back(tetId)] for every id with a
    non-empty prefix; [operator[]] creates the empty vector on first use. *)
Definition addSequences (ids : list string) (m : gmap string (list string))
  : gmap string (list string) :=
  foldl (λ acc tetId,
           let prefix := ExtractPrefix tetId in
           if decide (prefix = String.EmptyString) then acc
           else <[prefix := (default [] (acc !! prefix) ++ [tetId])%list]> acc)
        m ids.

Fixpoint insert_by_number (x : Z * string) (l : list (Z * string)) : list (Z * string) :=
  match l with
  | [] => [x]
  | y :: l' => if x.1 <? y.1 then x :: l else y :: insert_by_number x l'
  end.

Definition sort_by_number (l : list (Z * string)) : list (Z * string) :=
  foldr insert_by_number [] l.

(** [std::sort(seq.begin(), seq.end(), ExtractNumber(a) < ExtractNumber(b))].
    The keys are computed first, so a throwing [std::stoi] makes the whole
    sort fail; the order of equal keys is the one an insertion sort gives
    ([std::sort] leaves it open; [sequence_numbers_distinct] below shows that
    no sequence of the registry has two equal keys). *)
Definition sort_sequence (seq : list string) : option (list string) :=
  keys ← mapM ExtractNumber seq;
  Some ((sort_by_number (zip keys seq)).*2).

Definition sort_all (m : gmap string (list string)) : option (gmap string (list string)) :=
  l ← mapM (λ kv : string * list string, s ← sort_sequence kv.2; Some (kv.1, s))
           (map_to_list m);
  Some (list_to_map l).

(** [starSeq]: "**1" .. "**N" for [N = ALL_STARS.size()]. *)
Definition starSeq : list string :=
  (λ i : nat, "**" +:+ to_string (Z.of_nat i)) <$> seq 1 (length ALL_STARS).

Definition BuildSequences : option (gmap string (list string)) :=
  sorted ← sort_all (addSequences ALL_PURPLE_SIGILS (addSequences ALL_TETROMINOES ∅));
  Some (<["**" := starSeq]> sorted).

(** One of the three location loops: ids get consecutive location numbers
    from [BASE_LOCATION_ID + idx] on. *)
Definition addLocations (ids : list string)
    (acc : gmap string Z * gmap Z string * Z) : gmap string Z * gmap Z string * Z :=
  foldl (λ '(n2i, i2n, idx) tetId,
           let locId := BASE_LOCATION_ID + idx in
           (<[tetId := locId]> n2i, <[locId := tetId]> i2n, idx + 1))
        acc ids.

Definition BuildGameKeyMappings : option (gmap string string * gmap string string) :=
  foldl (λ acc starId,
           '(m2g, g2m) ← acc;
           num ← ExtractNumber starId;
           let gameKey := "**" +:+ to_string num in
           Some (<[starId := gameKey]> m2g, <[gameKey := starId]> g2m))
        (Some (∅, ∅)) ALL_STARS.

(** The constructor: [None] when a [std::stoi] inside it throws. *)
Definition ItemMapping_new : option ItemMapping :=
  seqs ← BuildSequences;
  let '(n2i, i2n, _) :=
    addLocations ALL_STARS
      (addLocations ALL_PURPLE_SIGILS
         (addLocations ALL_TETROMINOES (∅, ∅, 0))) in
  '(m2g, g2m) ← BuildGameKeyMappings;
  Some (mkItemMapping (list_to_map apItemIdToPrefix_init) seqs n2i i2n ∅ m2g g2m).

(** ** Item resolution *)

(** [ResolveNextItem]: the outer [option] is [None] where C++ leaves the
    behaviour undefined (signed overflow of [++count], an index outside the
    vector); the inner one is the returned [std::optional<std::string>]. *)
Definition ResolveNextItem (im : ItemMapping) (apItemId : Z)
  : option (option string * ItemMapping) :=
  match m_apItemIdToPrefix im !! apItemId with
  | None => Some (None, im)
  | Some prefix =>
      match m_tetrominoSequences im !! prefix with
      | None | Some [] => Some (None, im)
      | Some seq =>
          let old := default 0 (m_receivedCounts im !! prefix) in
          if decide (old = INT_MAX) then None
          else
            let count := old + 1 in
            let im' := set_receivedCounts im (<[prefix := count]> (m_receivedCounts im)) in
            if static_cast_int (Z.of_nat (length seq)) <? count then Some (None, im')
            else if count - 1 <? 0 then None
            else match seq !! Z.to_nat (count - 1) with
                 | Some tetId => Some (Some tetId, im')
                 | None => None
                 end
      end
  end.

Definition ResetItemCounters (im : ItemMapping) : ItemMapping :=
  set_receivedCounts im ∅.

(** [n] consecutive grants of the same numeric id, results in call order. *)
Fixpoint ResolveMany (im : ItemMapping) (apItemId : Z) (n : nat)
  : option (list (option string) * ItemMapping) :=
  match n with
  | O => Some ([], im)
  | S n' =>
      '(r, im1) ← ResolveNextItem im apItemId;
      '(rs, im2) ← ResolveMany im1 apItemId n';
      Some (r :: rs, im2)
  end.

(** ** Location and key queries *)

Definition GetLocationId (im : ItemMapping) (tetrominoId : string) : Z :=
  default (-1) (m_locationNameToId im !! tetrominoId).

Definition char_is (s : string) (i : nat) (c : ascii) : bool :=
  match String.get i s with
  | Some d => Ascii.eqb d c
  | None => false
  end.

Definition IsPurpleSigil (id : string) : bool :=
  (3 <=? String.length id)%nat && char_is id 0 "H" && char_is id 1 "L".

Definition IsStar (id : string) : bool :=
  if (String.length id <? 3)%nat then false
  else if char_is id 0 "*" && char_is id 1 "*" then true
  else if char_is id 0 "S" && (char_is id 1 "L" || char_is id 1 "Z") then true
  else false.

Definition ToGameKey (im : ItemMapping) (modId : string) : string :=
  default modId (m_modIdToGameKey im !! modId).

Definition FromGameKey (im : ItemMapping) (gameKey : string) : string :=
  default gameKey (m_gameKeyToModId im !! gameKey).

(** ** The constructed registry *)

(** The object that [ModCore::InitSubsystems] builds. *)
Definition m_itemMapping : ItemMapping :=
  default (mkItemMapping ∅ ∅ ∅ ∅ ∅ ∅ ∅) ItemMapping_new.

Definition constructed (o : option ItemMapping) : bool :=
  match o with Some _ => true | None => false end.

Arguments m_itemMapping : simpl never.

(** A prefix is served: it has a non-empty sequence that fits an [int]. *)
Definition served (im : ItemMapping) (prefix : string) : bool :=
  match m_tetrominoSequences im !! prefix with
  | Some ((_ :: _) as seq) => Z.of_nat (length seq) <? INT_MAX
  | _ => false
  end.

Definition distinct_numbers (seq : list string) : bool :=
  match mapM ExtractNumber seq with
  | Some keys => bool_decide (NoDup keys)
  | None => false
  end.

(** The tables of [im'] are those of [im]: only the counters may differ. *)
Definition same_tables (im im' : ItemMapping) : Prop :=
  im' = set_receivedCounts im (m_receivedCounts im').

Definition received (im : ItemMapping) (prefix : string) : Z :=
  default 0 (m_receivedCounts im !! prefix).

(** ** Session state ([ModState]) *)

(** The fields of [ModState] that the modelled functions read or write.
    [CurrentProgress] records whether the pointer is non-null; the
    [std::atomic<bool>] flags are plain booleans, every function below
    running on the game thread. *)
Record ModState := mkModState {
  CurrentProgress : bool;
  APSynced : bool;
  GrantedItems : gset string;
  CheckedLocations : gset string;
  RandomisePurpleSigils : bool;
  RandomiseStars : bool;
  ReusableTetrominos : bool;
  DeathLinkEnabled : bool;
  IsDeathLinkDeath : bool;
  PendingDeathLinkSend : bool;
  PendingDeathLinkReceive : bool;
  PendingDeferredDeathLink : bool;
  DeathLinkSource : string;
  DeathLinkCause : string
}.

Definition set_GrantedItems (st : ModState) (g : gset string) : ModState :=
  mkModState (CurrentProgress st) (APSynced st) g (CheckedLocations st)
    (RandomisePurpleSigils st) (RandomiseStars st) (ReusableTetrominos st)
    (DeathLinkEnabled st) (IsDeathLinkDeath st) (PendingDeathLinkSend st)
    (PendingDeathLinkReceive st) (PendingDeferredDeathLink st)
    (DeathLinkSource st) (DeathLinkCause st).

Definition set_CheckedLocations (st : ModState) (c : gset string) : ModState :=
  mkModState (CurrentProgress st) (APSynced st) (GrantedItems st) c
    (RandomisePurpleSigils st) (RandomiseStars st) (ReusableTetrominos st)
    (DeathLinkEnabled st) (IsDeathLinkDeath st) (PendingDeathLinkSend st)
    (PendingDeathLinkReceive st) (PendingDeferredDeathLink st)
    (DeathLinkSource st) (DeathLinkCause st).

Definition set_IsDeathLinkDeath (st : ModState) (b : bool) : ModState :=
  mkModState (CurrentProgress st) (APSynced st) (GrantedItems st) (CheckedLocations st)
    (RandomisePurpleSigils st) (RandomiseStars st) (ReusableTetrominos st)
    (DeathLinkEnabled st) b (PendingDeathLinkSend st)
    (PendingDeathLinkReceive st) (PendingDeferredDeathLink st)
    (DeathLinkSource st) (DeathLinkCause st).

Definition set_PendingDeathLinkSend (st : ModState) (b : bool) : ModState :=
  mkModState (CurrentProgress st) (APSynced st) (GrantedItems st) (CheckedLocations st)
    (RandomisePurpleSigils st) (RandomiseStars st) (ReusableTetrominos st)
    (DeathLinkEnabled st) (IsDeathLinkDeath st) b
    (PendingDeathLinkReceive st) (PendingDeferredDeathLink st)
    (DeathLinkSource st) (DeathLinkCause st).

Definition set_PendingDeathLinkReceive (st : ModState) (b : bool) : ModState :=
  mkModState (CurrentProgress st) (APSynced st) (GrantedItems st) (CheckedLocations st)
    (RandomisePurpleSigils st) (RandomiseStars st) (ReusableTetrominos st)
    (DeathLinkEnabled st) (IsDeathLinkDeath st) (PendingDeathLinkSend st)
    b (PendingDeferredDeathLink st)
    (DeathLinkSource st) (DeathLinkCause st).

Definition set_PendingDeferredDeathLink (st : ModState) (b : bool) : ModState :=
  mkModState (CurrentProgress st) (APSynced st) (GrantedItems st) (CheckedLocations st)
    (RandomisePurpleSigils st) (RandomiseStars st) (ReusableTetrominos st)
    (DeathLinkEnabled st) (IsDeathLinkDeath st) (PendingDeathLinkSend st)
    (PendingDeathLinkReceive st) b
    (DeathLinkSource st) (DeathLinkCause st).

(** ** InventorySync *)

(** [state.GrantedItems.insert(tetrominoId)]; [RefreshUI] has an empty body. *)
Definition GrantItem (st : ModState) (tetrominoId : string) : ModState :=
  set_GrantedItems st ({[tetrominoId]} ∪ GrantedItems st).

(** Erases the id from [GrantedItems] and from [CheckedLocations]. *)
Definition RevokeItem (st : ModState) (tetrominoId : string) : ModState :=
  set_CheckedLocations
    (set_GrantedItems st (GrantedItems st ∖ {[tetrominoId]}))
    (CheckedLocations st ∖ {[tetrominoId]}).

(** *** Wide and narrow strings *)

(** [CollectedTetrominos] is a [TMap<FString, bool>]: its keys are wide
    strings. An [FString] is given by its [wchar_t] code units before the
    terminator, none of which is zero. Two keys are the same key of the map
    when they have the same code units; the comparison the map itself makes
    is the engine's and not among the sources at hand. *)
Definition FString := list positive.

(** [static_cast<char>] of a code unit: its low eight bits. *)
Definition narrow (w : positive) : ascii := ascii_of_N (N.pos w `mod` 256).

(** A [char] converted to [wchar_t], as the constructor of [std::wstring]
    does with each character: [char] is signed and [wchar_t] has 16 bits
    (the mod is built with MSVC), so the characters from 0x80 on become
    0xFF80 .. 0xFFFF. *)
Definition widen (c : ascii) : N :=
  let n := N_of_ascii c in if (n <? 128)%N then n else (n + 0xFF00)%N.

(** [ToFString]: [FString(wide.c_str())] ends at the first NUL. *)
Fixpoint ToFString (s : string) : FString :=
  match s with
  | String.EmptyString => []
  | String.String c rest =>
      match widen c with
      | N0 => []
      | N.pos w => w :: ToFString rest
      end
  end.

(** [FromFString]: every code unit up to the terminator, narrowed. *)
Fixpoint FromFString (fs : FString) : string :=
  match fs with
  | [] => String.EmptyString
  | w :: rest => String.String (narrow w) (FromFString rest)
  end.

(** A narrow string up to its first NUL character. *)
Fixpoint c_str (s : string) : string :=
  match s with
  | String.EmptyString => String.EmptyString
  | String.String c rest =>
      if Ascii.eqb c Ascii.zero then String.EmptyString else String.String c (c_str rest)
  end.

(** A key that is the wide form of its own narrow form. *)
Definition plain_key (key : FString) : Prop := ToFString (FromFString key) = key.

(** [CollectedTetrominos]: key to "used" flag. *)
Abbreviation TetrominoMap := (gmap FString bool).

(** The write operations the pass performs on the map. *)
Inductive StoreWrite :=
| TMapRemove (key : FString)
| TMapAdd (key : FString) (used : bool)
| SetUsed (key : FString) (used : bool).

(** Phase 1, the body of the first loop, on the narrowed key: is it pushed
    on [toRemoveGameKeys]? *)
Definition marked_for_removal (st : ModState) (im : ItemMapping) (gameKey : string) : bool :=
  if decide (gameKey = String.EmptyString) then false
  else
    let modId := FromGameKey im gameKey in
    if GetLocationId im modId <? 0 then false
    else if negb (RandomisePurpleSigils st) && IsPurpleSigil modId then false
    else if negb (RandomiseStars st) && IsStar modId then false
    else
      let lookupKey := if IsStar modId then gameKey else modId in
      bool_decide (lookupKey ∉ GrantedItems st).

Definition toRemoveGameKeys (st : ModState) (im : ItemMapping) (tmap : TetrominoMap)
  : list string :=
  filter (λ gk, marked_for_removal st im gk = true)
         (FromFString <$> (map_to_list tmap).*1).

(** The second loop of phase 1: [tmap->Remove(ToFString(gk))]. *)
Definition phase1 (st : ModState) (im : ItemMapping) (tmap : TetrominoMap)
  : TetrominoMap * list StoreWrite :=
  let keys := toRemoveGameKeys st im tmap in
  (foldl (λ m gk, delete (ToFString gk) m) tmap keys,
   (λ gk, TMapRemove (ToFString gk)) <$> keys).

(** Phase 2, one iteration: [Find], then [Add(key, false)] if absent. *)
Definition ensure_present (im : ItemMapping)
    (acc : TetrominoMap * list StoreWrite) (id : string) : TetrominoMap * list StoreWrite :=
  let gameKey := ToGameKey im id in
  let key := ToFString gameKey in
  match acc.1 !! key with
  | Some _ => acc
  | None => (<[key := false]> acc.1, (acc.2 ++ [TMapAdd key false])%list)
  end.

Definition phase2 (st : ModState) (im : ItemMapping) (tmap : TetrominoMap)
  : TetrominoMap * list StoreWrite :=
  foldl (ensure_present im) (tmap, []) (elements (GrantedItems st)).

(** Phase 3: [if (pair.Value == true) pair.Value = false;] on every pair. *)
Definition phase3 (st : ModState) (tmap : TetrominoMap) : TetrominoMap * list StoreWrite :=
  if ReusableTetrominos st
  then ((λ used : bool, if used then false else used) <$> tmap,
        (λ kv : FString * bool, SetUsed kv.1 false)
          <$> filter (λ kv : FString * bool, kv.2 = true) (map_to_list tmap))
  else (tmap, []).

(** [EnforceCollectionState]. [tmap] is what [GetCollectedTetrominosMap]
    yields for the progress object ([None]: null pointer); the result is
    the map afterwards and the writes performed, in order. The map
    operations themselves do not throw here, so the [catch] branches are
    not taken; the order in which the map and the set are walked is the
    one of [map_to_list] and [elements]. *)
Definition EnforceCollectionState (st : ModState) (im : ItemMapping)
    (tmap : option TetrominoMap) : option TetrominoMap * list StoreWrite :=
  if negb (CurrentProgress st) then (tmap, [])
  else if negb (APSynced st) then (tmap, [])
  else match tmap with
       | None => (None, [])
       | Some m0 =>
           let '(m1, w1) := phase1 st im m0 in
           let '(m2, w2) := phase2 st im m1 in
           let '(m3, w3) := phase3 st m2 in
           (Some m3, (w1 ++ w2 ++ w3)%list)
       end.

(** A session to evaluate on: synced, everything else off or empty. *)
Definition synced_state : ModState :=
  mkModState true true ∅ ∅ false false false false false false false false String.EmptyString String.EmptyString.

Definition set_RandomiseStars (st : ModState) (b : bool) : ModState :=
  mkModState (CurrentProgress st) (APSynced st) (GrantedItems st) (CheckedLocations st)
    (RandomisePurpleSigils st) b (ReusableTetrominos st)
    (DeathLinkEnabled st) (IsDeathLinkDeath st) (PendingDeathLinkSend st)
    (PendingDeathLinkReceive st) (PendingDeferredDeathLink st)
    (DeathLinkSource st) (DeathLinkCause st).

Definition set_ReusableTetrominos (st : ModState) (b : bool) : ModState :=
  mkModState (CurrentProgress st) (APSynced st) (GrantedItems st) (CheckedLocations st)
    (RandomisePurpleSigils st) (RandomiseStars st) b
    (DeathLinkEnabled st) (IsDeathLinkDeath st) (PendingDeathLinkSend st)
    (PendingDeathLinkReceive st) (PendingDeferredDeathLink st)
    (DeathLinkSource st) (DeathLinkCause st).

Definition set_DeathLinkEnabled (st : ModState) (b : bool) : ModState :=
  mkModState (CurrentProgress st) (APSynced st) (GrantedItems st) (CheckedLocations st)
    (RandomisePurpleSigils st) (RandomiseStars st) (ReusableTetrominos st)
    b (IsDeathLinkDeath st) (PendingDeathLinkSend st)
    (PendingDeathLinkReceive st) (PendingDeferredDeathLink st)
    (DeathLinkSource st) (DeathLinkCause st).

Definition granted_keys (st : ModState) (im : ItemMapping) : list FString :=
  (λ id, ToFString (ToGameKey im id)) <$> elements (GrantedItems st).

(** The keys phase 1 asks the map to remove. *)
Definition removed_keys (st : ModState) (im : ItemMapping) (tmap : TetrominoMap)
  : list FString :=
  ToFString <$> toRemoveGameKeys st im tmap.

(** The map a pass leaves when it runs. *)
Definition final_map (st : ModState) (im : ItemMapping) (m0 : TetrominoMap) : TetrominoMap :=
  (phase3 st (phase2 st im (phase1 st im m0).1).1).1.

Definition pass_writes (st : ModState) (im : ItemMapping) (m0 : TetrominoMap)
  : list StoreWrite :=
  ((phase1 st im m0).2
   ++ (phase2 st im (phase1 st im m0).1).2
   ++ (phase3 st (phase2 st im (phase1 st im m0).1).1).2)%list.

(** ** Death link *)

(** What [ProcessPendingDeathLink] finds in the world when it runs. An
    exception caught while looking for the player counts as "not found";
    one caught around [bIsDead] as "not dead"; a [TeleportMineTo] that
    throws or returns [false] as [teleport_ok = false]. *)
Record WorldView := mkWorldView {
  pc_found : bool;
  pawn_found : bool;
  bIsDead : bool;
  haveLocation : bool;
  mines_found : bool;
  teleport_ok : bool
}.

Inductive HudMessage :=
| DeathIsComing
| CauseMessage (cause : string)
| KilledYou (source : string).

(** The callback registered on [TalosCharacter:SetDeath] (its fallback on
    the blueprint event has the same body): one observed local death. *)
Definition SetDeath_hook (st : ModState) : ModState :=
  if negb (DeathLinkEnabled st) then st
  else if IsDeathLinkDeath st then set_IsDeathLinkDeath st false
  else set_PendingDeathLinkSend st true.

(** [hud] tells whether the [HudNotification*] is non-null. *)
Definition ProcessPendingDeathLink (st : ModState) (w : WorldView) (hud : bool)
  : ModState * list HudMessage :=
  if negb (PendingDeathLinkReceive st) then (st, [])
  else
    let st := set_PendingDeathLinkReceive st false in
    if negb (pc_found w) then (st, [])
    else if negb (pawn_found w) then (st, [])
    else if bIsDead w then (st, [])
    else
      let mine := haveLocation w && mines_found w in
      let attempt := mine && haveLocation w in
      let killed := attempt && teleport_ok w in
      let st1 := if attempt then set_IsDeathLinkDeath st killed else st in
      if negb killed
      then (set_PendingDeferredDeathLink st1 true,
            if hud && negb (PendingDeferredDeathLink st1) then [DeathIsComing] else [])
      else (st1,
            if hud
            then if decide (DeathLinkCause st1 = String.EmptyString)
                 then [KilledYou (DeathLinkSource st1)]
                 else [CauseMessage (DeathLinkCause st1)]
            else []).

(** [ModCore::ProcessDeathLinks]; [apClient] tells whether [m_apClient] is
    set. The third component lists the death links sent to the server. *)
Definition ProcessDeathLinks (st : ModState) (w : WorldView) (hud apClient : bool)
  : ModState * list HudMessage * list string :=
  let '(st1, msgs) :=
    if DeathLinkEnabled st then ProcessPendingDeathLink st w hud else (st, []) in
  if PendingDeathLinkSend st1
  then (set_PendingDeathLinkSend st1 false, msgs,
        if apClient && DeathLinkEnabled st1 then ["Died in The Talos Principle"] else [])
  else (st1, msgs, []).

(** A world in which the inbound death is delivered: player found and
    alive, position read, a mine present, teleport succeeded. *)
Definition delivers (w : WorldView) : Prop :=
  pc_found w = true ∧ pawn_found w = true ∧ bIsDead w = false
  ∧ haveLocation w = true ∧ mines_found w = true ∧ teleport_ok w = true.

(** ** Sessions and worlds to evaluate on *)

(** Death link on, the echo-suppress flag set. *)
Definition link_session : ModState :=
  mkModState true true ∅ ∅ false false false true true false false false "Alice" String.EmptyString.

(** The same with death link off. *)
Definition disabled_link_session : ModState := set_DeathLinkEnabled link_session false.

(** Death link on, an inbound death pending. *)
Definition inbound_session : ModState :=
  mkModState true true ∅ ∅ false false false true false false true false "Alice" String.EmptyString.

(** Player alive, position known, a mine in the level, teleport works. *)
Definition mine_world : WorldView := mkWorldView true true false true true true.

(** A registry as the constructed one, but which translates a game key
    that holds a NUL character: 'D' NUL to "DJ1". *)
Definition nul_key_registry : ItemMapping :=
  mkItemMapping (m_apItemIdToPrefix m_itemMapping) (m_tetrominoSequences m_itemMapping)
    (m_locationNameToId m_itemMapping) (m_locationIdToName m_itemMapping)
    (m_receivedCounts m_itemMapping) (m_modIdToGameKey m_itemMapping)
    (<[String.String "D" (String.String Ascii.zero String.EmptyString) := "DJ1"]>
       (m_gameKeyToModId m_itemMapping)).

(** Sessions for the reconciliation examples. *)
Definition star_key_session : ModState :=
  set_RandomiseStars (GrantItem synced_state "**5") true.

Definition star_mod_id_session : ModState :=
  set_RandomiseStars (GrantItem synced_state "SL5") true.

(** Synced, purple sigils managed, "MT1" granted. *)
Definition sigil_session : ModState :=
  mkModState true true {["MT1"]} ∅ true false false false false false false false String.EmptyString String.EmptyString.

Definition reusable_session : ModState := set_ReusableTetrominos synced_state true.

Definition checked_session : ModState := set_CheckedLocations synced_state {["DJ1"]}.

(** ** The visibility loop of [scripts/main.lua] *)

Inductive Presentation := visible | hidden.

#[global] Instance Presentation_eq_dec : EqDecision Presentation.
Proof. solve_decision. Defined.

(** One actor returned by [FindAllOf("BP_TetrominoItem_C")]: [item_valid]
    is [item and item:IsValid()], [item_id] what
    [TetrominoUtils.GetTetrominoId] returns for it ([None]: nil). *)
Record TetrominoItem := mkTetrominoItem {
  item_address : nat;
  item_valid : bool;
  item_id : option string
}.

(** The calls into [lib/visibility.lua]. *)
Inductive PresentationCall :=
| SetTetrominoVisible (item : TetrominoItem)
| SetTetrominoHidden (item : TetrominoItem).

Definition call_item (c : PresentationCall) : TetrominoItem :=
  match c with SetTetrominoVisible i | SetTetrominoHidden i => i end.

(** What the loop reads and writes: its table [VisibilityApplied] and the
    map [State.CurrentProgress.CollectedTetrominos]. *)
Record LoopState := mkLoopState {
  VisibilityApplied : gmap string Presentation;
  CollectedTetrominos : gmap string bool
}.

(** One run of the loop body: the cooldown counter at that time, whether
    [State.CurrentProgress] is set and valid, and the actors found. *)
Record LoopTick := mkLoopTick {
  LevelTransitionCooldown : Z;
  progress_valid : bool;
  found_items : list TetrominoItem
}.

(** A step of the loop: the presentation calls it makes, and the state
    it leaves. *)
Definition Step := LoopState → list PresentationCall * LoopState.

Definition skip : Step := λ st, ([], st).

Definition and_then (f g : Step) : Step :=
  λ st, let r1 := f st in let r2 := g r1.2 in ((r1.1 ++ r2.1)%list, r2.2).

Infix ">->" := and_then (at level 62, right associativity).

Definition calls_for (id : string) (calls : list PresentationCall) : nat :=
  length (filter (λ c, item_id (call_item c) = Some id) calls).

(** [lib/collection.lua] is not part of the sources at hand: its three
    queries are taken as given, as they answer during one run of the loop;
    between two runs the session may change what they answer. *)
Record Collection := mkCollection {
  ShouldBeCollectable : string → bool;
  IsLocationChecked : string → bool;
  IsGranted : string → bool
}.

(** The body of [for _, item in ipairs(items)]. *)
Definition visibility_item (col : Collection) (pv : bool) (item : TetrominoItem) : Step :=
  λ st,
    if negb (item_valid item) then ([], st)
    else match item_id item with
         | None => ([], st)
         | Some id =>
             if ShouldBeCollectable col id then
               let tmap := if pv then delete id (CollectedTetrominos st)
                           else CollectedTetrominos st in
               if decide (VisibilityApplied st !! id = Some visible)
               then ([], mkLoopState (VisibilityApplied st) tmap)
               else ([SetTetrominoVisible item],
                     mkLoopState (<[id := visible]> (VisibilityApplied st)) tmap)
             else if IsLocationChecked col id && negb (IsGranted col id) then
               if decide (VisibilityApplied st !! id = Some hidden)
               then ([], st)
               else ([SetTetrominoHidden item],
                     mkLoopState (<[id := hidden]> (VisibilityApplied st))
                                 (CollectedTetrominos st))
             else ([], st)
         end.

Fixpoint visibility_items (col : Collection) (pv : bool) (items : list TetrominoItem)
  : Step :=
  match items with
  | [] => skip
  | item :: rest => visibility_item col pv item >-> visibility_items col pv rest
  end.

(** The function given to [LoopAsync(10, ...)]. No call in it raises
    here, so the surrounding [pcall] never cuts the loop short. *)
Definition visibility_tick (col : Collection) (t : LoopTick) : Step :=
  if 0 <? LevelTransitionCooldown t then skip
  else visibility_items col (progress_valid t) (found_items t).

(** The runs of the loop one after the other, each with the queries as
    they answer at that time. *)
Fixpoint visibility_loop (runs : list (Collection * LoopTick)) : Step :=
  match runs with
  | [] => skip
  | run :: later => visibility_tick run.1 run.2 >-> visibility_loop later
  end.

(** What the three queries answer for an id. *)
Definition classification (col : Collection) (id : string) : bool * bool * bool :=
  (ShouldBeCollectable col id, IsLocationChecked col id, IsGranted col id).

(** The presentation the loop aims at for an id. *)
Definition target (col : Collection) (id : string) : option Presentation :=
  if ShouldBeCollectable col id then Some visible
  else if IsLocationChecked col id && negb (IsGranted col id) then Some hidden
  else None.

(** Nothing left to do for the id: no target, or the target applied. *)
Definition settled (col : Collection) (st : LoopState) (id : string) : Prop :=
  target col id = None ∨ VisibilityApplied st !! id = target col id.

(** A step is debounced for an id: silent once the id is settled, at
    most one call otherwise, and settled after a call. *)
Definition debounced (col : Collection) (id : string) (f : Step) : Prop :=
  ∀ st,
    (settled col st id → calls_for id (f st).1 = 0%nat ∧ settled col (f st).2 id)
    ∧ (calls_for id (f st).1 ≤ 1)%nat
    ∧ ((1 ≤ calls_for id (f st).1)%nat → settled col (f st).2 id).

Definition sample_collection : Collection :=
  mkCollection (λ id, bool_decide (id = "DJ1")) (λ id, bool_decide (id = "DJ2")) (λ _, false).

(** The same once "DJ2" has been granted. *)
Definition later_collection : Collection :=
  mkCollection (λ id, bool_decide (id = "DJ1")) (λ id, bool_decide (id = "DJ2"))
    (λ id, bool_decide (id = "DJ2")).

Definition sample_tick : LoopTick :=
  mkLoopTick 0 true
    [mkTetrominoItem 1 true (Some "DJ1"); mkTetrominoItem 2 true (Some "DJ2")].

Definition sample_loop_state : LoopState := mkLoopState ∅ {["DJ1" := false]}.

(** ** ItemMapping: the remaining queries *)

(** The initialiser of [m_prefixDisplayNames]. The member is filled once
    by the constructor and only read afterwards; it is held here as a
    table of its own, beside the record. *)
Definition m_prefixDisplayNames : gmap string string :=
  list_to_map
    [ ("DJ", "Green J"); ("DZ", "Green Z"); ("DI", "Green I");
      ("DL", "Green L"); ("DT", "Green T");
      ("MT", "Golden T"); ("ML", "Golden L"); ("MZ", "Golden Z");
      ("MS", "Golden S"); ("MJ", "Golden J"); ("MO", "Golden O");
      ("MI", "Golden I");
      ("NL", "Red L"); ("NZ", "Red Z"); ("NT", "Red T");
      ("NI", "Red I"); ("NJ", "Red J"); ("NO", "Red O");
      ("NS", "Red S");
      ("HL", "Purple Sigil");
      ("**", "Star") ].

Definition GetLocationName (im : ItemMapping) (locationId : Z) : string :=
  default String.EmptyString (m_locationIdToName im !! locationId).

Definition GetDisplayName (im : ItemMapping) (apItemId : Z) : string :=
  match m_apItemIdToPrefix im !! apItemId with
  | None => String.EmptyString
  | Some prefix => default String.EmptyString (m_prefixDisplayNames !! prefix)
  end.

Definition GetDisplayNameForTetromino (tetrominoId : string) : string :=
  default String.EmptyString (m_prefixDisplayNames !! ExtractPrefix tetrominoId).

Definition GetItemPrefix (im : ItemMapping) (apItemId : Z) : string :=
  default String.EmptyString (m_apItemIdToPrefix im !! apItemId).

(** [std::sort] on [int64_t] values with [<]: the result is the one
    ascending arrangement of the input, whatever the algorithm. *)
Definition sort_ids (ids : list Z) : list Z := merge_sort Z.le ids.

(** The keys are collected in the iteration order of the hash map, here
    the one of [map_to_list], and then sorted. *)
Definition GetAllLocationIds (im : ItemMapping) : list Z :=
  sort_ids (map_to_list (m_locationIdToName im)).*1.

Definition GetAllItemIds (im : ItemMapping) : list Z :=
  sort_ids (map_to_list (m_apItemIdToPrefix im)).*1.

(** Grants of any numeric ids, one [ResolveNextItem] each, in order. *)
Fixpoint ResolveAll (im : ItemMapping) (grants : list Z)
  : option (list (option string) * ItemMapping) :=
  match grants with
  | [] => Some ([], im)
  | apItemId :: rest =>
      '(r, im1) ← ResolveNextItem im apItemId;
      '(rs, im2) ← ResolveAll im1 rest;
      Some (r :: rs, im2)
  end.

(** How many of the first [j] grants were for [apItemId]. *)
Definition earlier (grants : list Z) (j : nat) (apItemId : Z) : nat :=
  length (filter (λ g, g = apItemId) (take j grants)).

(** What a grant of [apItemId] resolves to when [n] grants of it came
    before: entry [n] of its prefix's sequence, if there is one. *)
Definition nth_of_item (im : ItemMapping) (apItemId : Z) (n : nat) : option string :=
  match m_apItemIdToPrefix im !! apItemId with
  | Some prefix => default [] (m_tetrominoSequences im !! prefix) !! n
  | None => None
  end.

(** Every location name, in the order [BuildTables] numbers them. *)
Definition all_location_names : list string :=
  (ALL_TETROMINOES ++ ALL_PURPLE_SIGILS ++ ALL_STARS)%list.

(** Where each concrete id sits: its prefix and its index in that
    prefix's sequence (the last writer wins if an id occurs twice). *)
Definition item_owner (im : ItemMapping) : gmap string (string * nat) :=
  list_to_map
    (mbind (λ kv : string * list string, imap (λ i t, (t, (kv.1, i))) kv.2)
           (map_to_list (m_tetrominoSequences im))).

(** A registry with one item type, to evaluate the generic lemmas on. *)
Definition tiny_mapping : ItemMapping :=
  mkItemMapping {[7 := "A"]} {["A" := ["A1"; "A2"]]} ∅ ∅ ∅ ∅ ∅.

(** A string of letters only. *)
Definition all_alpha (s : string) : Prop :=
  Forall (λ c, isalpha c = true) (String.list_ascii_of_string s).

(** ** TickScheduler *)

(** Time points and durations of [std::chrono::steady_clock] are counts of
    clock periods, [per_ms] of them to the millisecond (1000000 for a clock
    that counts nanoseconds); the default-constructed [TimePoint] is the
    epoch, 0. The counts are taken to stay within the 64-bit range of the
    clock's representation. *)
Definition TICK_INTERVAL_MS : Z := 200.

Record TickScheduler := mkTickScheduler {
  m_frame : Z;
  m_lastTick : Z
}.

Definition TickScheduler_new : TickScheduler := mkTickScheduler 0 0.

(** [++m_frame] on a [uint64_t]. *)
Definition Advance (s : TickScheduler) : TickScheduler :=
  mkTickScheduler ((m_frame s + 1) `mod` 2 ^ 64) (m_lastTick s).

(** [duration_cast<milliseconds>(d).count()]: the quotient truncated
    toward zero. *)
Definition duration_cast_ms (per_ms d : Z) : Z := Z.quot d per_ms.

(** [now] is what [steady_clock::now()] returns in this call. *)
Definition ShouldTick (per_ms now : Z) (s : TickScheduler) : bool * TickScheduler :=
  if decide (m_lastTick s = 0) then (true, mkTickScheduler (m_frame s) now)
  else if TICK_INTERVAL_MS <=? duration_cast_ms per_ms (now - m_lastTick s)
       then (true, mkTickScheduler (m_frame s) now)
       else (false, s).

Definition FrameCount (s : TickScheduler) : Z := m_frame s.

(** The head of [ModCore::Tick] over successive frames: [Advance], then
    the gate [ShouldTick]. [nows] are the clock readings of the frames; the
    result lists the readings at which the gate let the frame through. *)
Fixpoint gated_frames (per_ms : Z) (s : TickScheduler) (nows : list Z)
  : list Z * TickScheduler :=
  match nows with
  | [] => ([], s)
  | now :: rest =>
      let r := ShouldTick per_ms now (Advance s) in
      let rs := gated_frames per_ms r.2 rest in
      (if r.1 then now :: rs.1 else rs.1, rs.2)
  end.

(** ** GoalDetectionHandler *)

Definition TRANSCENDENCE_SIGIL_REQUIREMENT : Z := 90.
Definition POLL_DELAY_MS : Z := 20000.

(** The members that [Init], [Tick], [CheckGoals], [FireGoal] and
    [ResetGoalState] read or write. *)
Record GoalDetectionHandler := mkGoalDetectionHandler {
  m_goalCompleted : bool;
  m_completedGoalName : string;
  m_hooksRegistered : bool;
  m_pollingActive : bool;
  m_pollReadyTime : Z;
  m_previousGameCompleted : bool;
  m_lastPolledUrl : string
}.

Definition GoalDetectionHandler_new : GoalDetectionHandler :=
  mkGoalDetectionHandler false String.EmptyString false false 0 false String.EmptyString.

(** One [BinkMediaPlayer] as [CheckGoals] sees it. [player_full_name] is
    [None] for a null pointer or when [GetFullName] throws; a property is
    [None] when it is missing, its buffer is null or reading it throws. *)
Record MediaPlayer := mkMediaPlayer {
  player_full_name : option string;
  prop_Url : option string;
  prop_URL : option string;
  prop_CurrentUrl : option string
}.

(** What one call of [CheckGoals] finds: the clock, the media players
    ([None]: [FindAllOf] throws), whether [StaticFindObject] returns the
    Transcendence sequence (an exception counts as not found), and what
    [IsGameCompleted] returns ([None]: no subsystem, no such function, or
    the call throws). *)
Record GoalView := mkGoalView {
  goal_now : Z;
  media_players : option (list MediaPlayer);
  transcendence_sequence : bool;
  IsGameCompleted : option bool
}.

(** [haystack.find(needle) != npos]. *)
Fixpoint contains (needle haystack : string) : bool :=
  String.prefix needle haystack
  || match haystack with
     | String.EmptyString => false
     | String.String _ rest => contains needle rest
     end.

Definition GetGrantedSigilCount (st : ModState) : Z :=
  static_cast_int (Z.of_nat (size (GrantedItems st))).

Definition HasEnoughSigils (st : ModState) : bool :=
  TRANSCENDENCE_SIGIL_REQUIREMENT <=? GetGrantedSigilCount st.

Definition FireGoal (h : GoalDetectionHandler) (goalName : string) : GoalDetectionHandler :=
  if m_goalCompleted h then h
  else mkGoalDetectionHandler true goalName (m_hooksRegistered h) (m_pollingActive h)
         (m_pollReadyTime h) (m_previousGameCompleted h) (m_lastPolledUrl h).

Definition GoalDetectionHandler_Init (per_ms now : Z) (h : GoalDetectionHandler)
  : GoalDetectionHandler :=
  mkGoalDetectionHandler (m_goalCompleted h) (m_completedGoalName h) (m_hooksRegistered h)
    (m_pollingActive h) (now + POLL_DELAY_MS * per_ms)
    (m_previousGameCompleted h) (m_lastPolledUrl h).

Definition set_pollingActive (h : GoalDetectionHandler) (b : bool) : GoalDetectionHandler :=
  mkGoalDetectionHandler (m_goalCompleted h) (m_completedGoalName h) (m_hooksRegistered h)
    b (m_pollReadyTime h) (m_previousGameCompleted h) (m_lastPolledUrl h).

Definition set_previousGameCompleted (h : GoalDetectionHandler) (b : bool)
  : GoalDetectionHandler :=
  mkGoalDetectionHandler (m_goalCompleted h) (m_completedGoalName h) (m_hooksRegistered h)
    (m_pollingActive h) (m_pollReadyTime h) b (m_lastPolledUrl h).

Definition set_lastPolledUrl (h : GoalDetectionHandler) (url : string)
  : GoalDetectionHandler :=
  mkGoalDetectionHandler (m_goalCompleted h) (m_completedGoalName h) (m_hooksRegistered h)
    (m_pollingActive h) (m_pollReadyTime h) (m_previousGameCompleted h) url.

Definition usable_url (o : option string) : option string :=
  match o with
  | Some url => if decide (url = String.EmptyString) then None else Some url
  | None => None
  end.

(** The loop over "Url", "URL", "CurrentUrl": the first property that
    yields a non-empty string ends it. *)
Definition first_url (p : MediaPlayer) : option string :=
  match usable_url (prop_Url p) with
  | Some url => Some url
  | None => match usable_url (prop_URL p) with
            | Some url => Some url
            | None => usable_url (prop_CurrentUrl p)
            end
  end.

Definition is_secondary (p : MediaPlayer) : bool :=
  match player_full_name p with
  | Some fullName => contains "SequentialMediaPlayer_Secondary" fullName
  | None => false
  end.

(** The body of [for (auto* player : allPlayers)]; the boolean tells that
    [CheckGoals] returns from inside the loop. *)
Definition poll_player (h : GoalDetectionHandler) (p : MediaPlayer)
  : GoalDetectionHandler * bool :=
  if negb (is_secondary p) then (h, false)
  else match first_url p with
       | None => (h, false)
       | Some url =>
           if decide (url = m_lastPolledUrl h) then (h, false)
           else
             let h1 := set_lastPolledUrl h url in
             if contains "Ending_Ascension" url then (FireGoal h1 "Ascension", true)
             else (h1, false)
       end.

Fixpoint poll_players (h : GoalDetectionHandler) (players : list MediaPlayer)
  : GoalDetectionHandler * bool :=
  match players with
  | [] => (h, false)
  | p :: rest =>
      let r := poll_player h p in
      if r.2 then r else poll_players r.1 rest
  end.

Definition CheckGoals (h : GoalDetectionHandler) (st : ModState) (v : GoalView)
  : GoalDetectionHandler :=
  if m_goalCompleted h then h
  else
    let r := poll_players h (default [] (media_players v)) in
    if r.2 then r.1
    else if transcendence_sequence v && HasEnoughSigils st then FireGoal r.1 "Transcendence"
    else match IsGameCompleted v with
         | Some completed =>
             set_previousGameCompleted
               (if completed && negb (m_previousGameCompleted r.1)
                then FireGoal r.1 "Unknown (polling fallback)" else r.1)
               completed
         | None => r.1
         end.

Definition GoalDetectionHandler_Tick (h : GoalDetectionHandler) (st : ModState) (v : GoalView)
  : GoalDetectionHandler :=
  if m_goalCompleted h then h
  else if m_pollingActive h then CheckGoals h st v
  else if goal_now v <? m_pollReadyTime h then h
  else CheckGoals (set_pollingActive h true) st v.

Definition ResetGoalState (h : GoalDetectionHandler) : GoalDetectionHandler :=
  mkGoalDetectionHandler false String.EmptyString false false (m_pollReadyTime h)
    false String.EmptyString.

(** ** ModCore: the tick steps around the modelled subsystems *)

Record ModCore := mkModCore {
  m_state : ModState;
  m_goalDetectionHandler : GoalDetectionHandler;
  m_goalSent : bool;
  m_levelTransitionCooldownWasActive : bool
}.

Definition set_CurrentProgress (st : ModState) (b : bool) : ModState :=
  mkModState b (APSynced st) (GrantedItems st) (CheckedLocations st)
    (RandomisePurpleSigils st) (RandomiseStars st) (ReusableTetrominos st)
    (DeathLinkEnabled st) (IsDeathLinkDeath st) (PendingDeathLinkSend st)
    (PendingDeathLinkReceive st) (PendingDeferredDeathLink st)
    (DeathLinkSource st) (DeathLinkCause st).

Definition set_state (mc : ModCore) (st : ModState) : ModCore :=
  mkModCore st (m_goalDetectionHandler mc) (m_goalSent mc)
    (m_levelTransitionCooldownWasActive mc).

(** [inCooldown] is what [m_state.IsInLevelTransitionCooldown()] returns,
    a comparison of the wall clock with a time kept in [ModState]. The
    boolean result tells [Tick] to skip the rest of the frame. *)
Definition HandleLevelTransitionCooldown (mc : ModCore) (inCooldown : bool) : bool * ModCore :=
  if inCooldown
  then (true, mkModCore (m_state mc) (m_goalDetectionHandler mc) (m_goalSent mc) true)
  else if m_levelTransitionCooldownWasActive mc
  then (false,
        mkModCore
          (if PendingDeferredDeathLink (m_state mc) && DeathLinkEnabled (m_state mc)
           then set_PendingDeathLinkReceive
                  (set_PendingDeferredDeathLink (m_state mc) false) true
           else m_state mc)
          (m_goalDetectionHandler mc) (m_goalSent mc) false)
  else (false, mc).

(** [InventorySync::FindProgressObject]: [found] is the map of the object
    that [UTalosProgress::Get] returns when every step of the lookup
    succeeds and the map can be read, [None] otherwise. *)
Definition FindProgressObject (st : ModState) (found : option TetrominoMap) : ModState :=
  set_CurrentProgress st (bool_decide (is_Some found)).

(** [ModCore::EnforceCollectionState]: look the progress object up again,
    then run the pass if there is one. *)
Definition ModCore_EnforceCollectionState (st : ModState) (im : ItemMapping)
    (found : option TetrominoMap) : ModState * option TetrominoMap * list StoreWrite :=
  let st1 := FindProgressObject st found in
  if CurrentProgress st1
  then (st1, (EnforceCollectionState st1 im found).1, (EnforceCollectionState st1 im found).2)
  else (st1, found, []).

Definition TickGoalDetection (mc : ModCore) (v : GoalView) : ModCore :=
  mkModCore (m_state mc) (GoalDetectionHandler_Tick (m_goalDetectionHandler mc) (m_state mc) v)
    (m_goalSent mc) (m_levelTransitionCooldownWasActive mc).

Inductive GoalOutput :=
| NotifySimple (msg : string)
| SendGoalComplete.

(** [hud] and [apClient] tell whether [m_hud] and [m_apClient] are set. *)
Definition CheckGoalCompletion (mc : ModCore) (hud apClient : bool) : ModCore * list GoalOutput :=
  if m_goalCompleted (m_goalDetectionHandler mc) && negb (m_goalSent mc)
  then (mkModCore (m_state mc) (m_goalDetectionHandler mc) true
          (m_levelTransitionCooldownWasActive mc),
        ((if hud
          then [NotifySimple ("Goal Complete: "
                              +:+ m_completedGoalName (m_goalDetectionHandler mc))]
          else [])
         ++ (if apClient then [SendGoalComplete] else []))%list)
  else (mc, []).

(** One frame as far as the goal is concerned. Between two frames the
    session state may have been changed by other subsystems and
    [ResetGoalState] may have been called: [st] is the state at this frame,
    [reset] tells whether the handler was reset before it. *)
Record GoalFrame := mkGoalFrame {
  frame_state : ModState;
  frame_reset : bool;
  frame_view : GoalView;
  frame_hud : bool;
  frame_apClient : bool
}.

Definition goal_frame (mc : ModCore) (f : GoalFrame) : ModCore * list GoalOutput :=
  let h := if frame_reset f then ResetGoalState (m_goalDetectionHandler mc)
           else m_goalDetectionHandler mc in
  let mc1 := mkModCore (frame_state f) h (m_goalSent mc)
               (m_levelTransitionCooldownWasActive mc) in
  CheckGoalCompletion (TickGoalDetection mc1 (frame_view f)) (frame_hud f) (frame_apClient f).

Fixpoint goal_frames (mc : ModCore) (frames : list GoalFrame) : ModCore * list GoalOutput :=
  match frames with
  | [] => (mc, [])
  | f :: rest =>
      let r := goal_frame mc f in
      let rs := goal_frames r.1 rest in
      (rs.1, (r.2 ++ rs.2)%list)
  end.

#[global] Instance GoalOutput_eq_dec : EqDecision GoalOutput.
Proof. solve_decision. Defined.

(** Death link on, a deferral pending, a level transition cooldown seen. *)
Definition deferred_core : ModCore :=
  mkModCore (set_PendingDeferredDeathLink (set_IsDeathLinkDeath link_session false) true)
    GoalDetectionHandler_new false true.

(** Death link on, nothing pending, the echo flag clear. *)
Definition alive_link_session : ModState := set_IsDeathLinkDeath link_session false.

(** A core as constructed, in a synced session. *)
Definition fresh_core : ModCore := mkModCore synced_state GoalDetectionHandler_new false false.

(** A secondary media player that shows the Ascension ending. *)
Definition ending_player : MediaPlayer :=
  mkMediaPlayer (Some "BinkMediaPlayer /Engine/Transient.SequentialMediaPlayer_Secondary")
    None (Some "/Movies/Ending_Ascension.bk2") None.

(** A frame at clock reading [now] in which every ending can be seen. *)
Definition ending_frame (now : Z) : GoalFrame :=
  mkGoalFrame synced_state false
    (mkGoalView now (Some [ending_player]) true (Some true)) true true.

(** ** [scripts/lib/item_mapping.lua] *)

Module LuaItemMapping.

Definition BASE_ITEM_ID : Z := 0x540000.
Definition BASE_LOCATION_ID : Z := 0x540000.

Definition ALL_TETROMINOES : list string :=
  [ "DJ3"; "MT1"; "DZ1"; "DJ2"; "DJ1"; "ML1"; "DI1"; "ML2";
    "DL1"; "DZ2"; "MT2"; "DZ3"; "NL1"; "MT3"; "MZ1"; "MZ2";
    "MT4"; "MT5"; "NZ1"; "DI2"; "DT1"; "DT2"; "DL2"; "DZ4";
    "NL2"; "NL3"; "NZ2"; "NL4"; "DL3"; "NT1"; "NO1"; "DT3";
    "ML3"; "MZ3"; "MS1"; "MT6"; "MT7"; "NL5"; "MS2"; "MT8";
    "MZ4"; "MT9"; "MJ1"; "NL6"; "NT3"; "NT4"; "DT4"; "DJ4";
    "NL7"; "NL8"; "NI1"; "NL9"; "NS1"; "DJ5"; "NZ3"; "NI2";
    "MT10"; "ML4"; "NJ1"; "NI3"; "MO1"; "MI1"; "NZ4"; "NJ2";
    "NI4"; "NT5"; "NZ5"; "NO2"; "NT6"; "NS2"; "NJ3"; "NO3";
    "NZ6"; "NT7"; "NT8"; "NI5"; "NS3"; "NT9"; "NI6"; "NO4";
    "NO5"; "NT10"; "NS4"; "NJ4"; "NO6"; "NT11"; "NO7"; "NT12";
    "NL10" ].

Definition ALL_STARS : list (string * string) :=
  [ ("SCentralArea_Chapter", "Star5"); ("SCloud_1_02", "Star2");
    ("S015", "Star1"); ("SCloud_1_03", "Star3");
    ("S202b", "Star4"); ("S201", "Star7");
    ("S244", "Star6"); ("SCloud_1_06", "Star8");
    ("S209", "Star9"); ("S205", "Star10");
    ("S213", "Star11"); ("S300a", "Star12");
    ("SCloud_2_04", "Star24"); ("S215", "Star13");
    ("SCloud_2_05", "Star14"); ("S301", "Star16");
    ("SCloud_2_07", "Star15"); ("SCloud_3_01", "Star17");
    ("SIslands_01", "Star26"); ("SLevel05_Elevator", "Star25");
    ("S403", "Star18"); ("S318", "Star19");
    ("S408", "Star21"); ("S405", "Star20");
    ("S328", "Star23"); ("S404", "Star27");
    ("S309", "Star22"); ("SNexus", "Star28");
    ("S234", "Star29"); ("S308", "Star30") ].

(** The five tables of the module. *)
Record Tables := mkTables {
  ItemNameToId : gmap string Z;
  ItemIdToName : gmap Z string;
  LocationNameToId : gmap string Z;
  LocationIdToName : gmap Z string;
  PuzzleToTetromino : gmap string string
}.

(** The body of the first loop of [BuildTables], with [idx]. *)
Definition add_tetromino (acc : Tables * Z) (tetId : string) : Tables * Z :=
  let itemId := BASE_ITEM_ID + acc.2 in
  let locId := BASE_LOCATION_ID + acc.2 in
  (mkTables (<[tetId := itemId]> (ItemNameToId acc.1))
            (<[itemId := tetId]> (ItemIdToName acc.1))
            (<[tetId := locId]> (LocationNameToId acc.1))
            (<[locId := tetId]> (LocationIdToName acc.1))
            (PuzzleToTetromino acc.1),
   acc.2 + 1).

(** The body of the second loop, over [{ puzzleCode, starId }]. *)
Definition add_star (acc : Tables * Z) (entry : string * string) : Tables * Z :=
  let puzzleCode := entry.1 in
  let starId := entry.2 in
  let itemId := BASE_ITEM_ID + acc.2 in
  let locId := BASE_LOCATION_ID + acc.2 in
  (mkTables (<[starId := itemId]> (ItemNameToId acc.1))
            (<[itemId := starId]> (ItemIdToName acc.1))
            (<[starId := locId]> (LocationNameToId acc.1))
            (<[locId := starId]> (LocationIdToName acc.1))
            (<[puzzleCode := starId]> (PuzzleToTetromino acc.1)),
   acc.2 + 1).

Definition BuildTables : Tables * Z :=
  foldl add_star (foldl add_tetromino (mkTables ∅ ∅ ∅ ∅ ∅, 0) ALL_TETROMINOES) ALL_STARS.

(** The module table after [BuildTables()] has run at load time. *)
Definition M : Tables := BuildTables.1.

Arguments M : simpl never.

(** The queries; a missing key gives [nil], here [None]. *)
Definition GetItemId (tetrominoId : string) : option Z := ItemNameToId M !! tetrominoId.
Definition GetItemName (apItemId : Z) : option string := ItemIdToName M !! apItemId.
Definition GetLocationId (tetrominoId : string) : option Z := LocationNameToId M !! tetrominoId.
Definition GetLocationName (apLocationId : Z) : option string :=
  LocationIdToName M !! apLocationId.

(** [pairs] walks the table in an unspecified order; [table.sort] then
    puts the distinct integer keys in ascending order. *)
Definition GetAllLocationIds : list Z := sort_ids (map_to_list (LocationIdToName M)).*1.
Definition GetAllItemIds : list Z := sort_ids (map_to_list (ItemIdToName M)).*1.

End LuaItemMapping.

(** ** The polling loop of [scripts/main.lua] *)

(** The calls the function given to [LoopAsync(100, ...)] makes. *)
Inductive PollCall :=
| APClient_Poll
| LogCooldownExpired
| Progress_FindProgressObject
| Collection_EnforceCollectionState
| Scanner_ScanTetrominoItems.

(** One run of it: whether [State.CurrentProgress] is set and valid when
    the body starts, and whether it is after [FindProgressObject] when
    that is called. No call raises here. *)
Record PollTick := mkPollTick {
  poll_progress_valid : bool;
  poll_found : bool
}.

(** Lua integers wrap around at 64 bits. *)
Definition lua_integer (z : Z) : Z := (z + 2 ^ 63) `mod` 2 ^ 64 - 2 ^ 63.

(** The state is [LoopCount] and [State.LevelTransitionCooldown]. *)
Definition polling_tick (st : Z * Z) (t : PollTick) : (Z * Z) * list PollCall :=
  let LoopCount := lua_integer (st.1 + 1) in
  if 0 <? st.2 then
    let cooldown := lua_integer (st.2 - 1) in
    ((LoopCount, cooldown),
     APClient_Poll :: (if cooldown =? 0 then [LogCooldownExpired] else []))
  else
    ((LoopCount, st.2),
     (APClient_Poll
      :: (if poll_progress_valid t then [] else [Progress_FindProgressObject])
      ++ (if poll_progress_valid t || poll_found t
          then [Collection_EnforceCollectionState; Scanner_ScanTetrominoItems]
          else []))%list).

(** ** The hooks and the loops of [scripts/main.lua] together *)

(** What the hooks and the two loops share. The name [VisibilityApplied]
    is declared [local] on line 240, just above the visibility loop; the
    hooks and [OnTetrominoCollected] are written above that line, where the
    name still means the global variable, nil until a hook assigns to it.
    The loop's own table is the one of [loop_state]. *)
Record ScriptState := mkScriptState {
  script_LoopCount : Z;
  State_LevelTransitionCooldown : Z;
  global_VisibilityApplied : option (gmap string Presentation);
  loop_state : LoopState
}.

(** What the script runs, in the order in which it runs: one of the three
    hooks (on [ClientRestart], [SetTalosSaveGameInstance], [ReloadSaveGame]),
    which have the same effect on this state; the pickup callback; a run of
    the 100 ms polling loop; a run of the 10 ms visibility loop, with the
    classification of the ids, the validity of the progress object and the
    actors found at that time; and a write to the store by anything else
    (the game, [Collection.EnforceCollectionState]). *)
Inductive ScriptEvent :=
| TransitionHook
| OnTetrominoCollected (tetrominoId : string)
| PollingRun (t : PollTick)
| VisibilityRun (col : Collection) (pv : bool) (items : list TetrominoItem)
| StoreWritten (tmap : gmap string bool).

Definition script_event (s : ScriptState) (ev : ScriptEvent)
  : ScriptState * (list PollCall * list PresentationCall) :=
  match ev with
  | TransitionHook =>
      (mkScriptState (script_LoopCount s) 50 (Some ∅) (loop_state s), ([], []))
  | OnTetrominoCollected tetrominoId =>
      (mkScriptState (script_LoopCount s) (State_LevelTransitionCooldown s)
         (delete tetrominoId <$> global_VisibilityApplied s) (loop_state s),
       ([], []))
  | PollingRun t =>
      let r := polling_tick (script_LoopCount s, State_LevelTransitionCooldown s) t in
      (mkScriptState r.1.1 r.1.2 (global_VisibilityApplied s) (loop_state s), (r.2, []))
  | VisibilityRun col pv items =>
      let r := visibility_tick col (mkLoopTick (State_LevelTransitionCooldown s) pv items)
                 (loop_state s) in
      (mkScriptState (script_LoopCount s) (State_LevelTransitionCooldown s)
         (global_VisibilityApplied s) r.2,
       ([], r.1))
  | StoreWritten tmap =>
      (mkScriptState (script_LoopCount s) (State_LevelTransitionCooldown s)
         (global_VisibilityApplied s)
         (mkLoopState (VisibilityApplied (loop_state s)) tmap),
       ([], []))
  end.

(** A session: the calls of the polling loop and the presentation calls
    of the visibility loop, each in order. *)
Fixpoint script_run (s : ScriptState) (evs : list ScriptEvent)
  : ScriptState * (list PollCall * list PresentationCall) :=
  match evs with
  | [] => (s, ([], []))
  | ev :: later =>
      let r := script_event s ev in
      let rs := script_run r.1 later in
      (rs.1, ((r.2.1 ++ rs.2.1)%list, (r.2.2 ++ rs.2.2)%list))
  end.

Definition is_hook (ev : ScriptEvent) : bool :=
  match ev with TransitionHook => true | _ => false end.

Definition is_polling_run (ev : ScriptEvent) : bool :=
  match ev with PollingRun _ => true | _ => false end.

Definition polling_runs (evs : list ScriptEvent) : nat :=
  length (filter (λ ev, is_polling_run ev = true) evs).

(** A visibility run that classifies [id] as [col] does, or an event of
    another kind. *)
Definition classified_as (col : Collection) (id : string) (ev : ScriptEvent) : Prop :=
  match ev with
  | VisibilityRun col' _ _ => classification col' id = classification col id
  | _ => True
  end.

(** A session across a level transition: the actors are presented, the
    save is reloaded, the polling loop runs 50 times, and the actors of the
    new level are found, "DJ2" having been granted meanwhile. *)
Definition transition_session : list ScriptEvent :=
  (VisibilityRun sample_collection true (found_items sample_tick)
   :: TransitionHook
   :: replicate 50 (PollingRun (mkPollTick true false))
   ++ [VisibilityRun later_collection true
         [mkTetrominoItem 7 true (Some "DJ1"); mkTetrominoItem 8 true (Some "DJ2")]])%list.

Definition script_start : ScriptState := mkScriptState 0 0 None sample_loop_state.

(** ** The scrolling notification log of the HUD module *)

Module LuaHud.

Definition MAX_VISIBLE : nat := 12.

Inductive HudColor :=
| WHITE | PLAYER | ITEM | PROGRESSION | USEFUL | TRAP | LOCATION | ENTRANCE | SERVER.

(** [M.FLAG_COLORS[flags or 0] or M.COLORS.WHITE]. *)
Definition ColorForFlags (flags : option Z) : HudColor :=
  match default 0 flags with
  | 0 => ITEM
  | 1 => PROGRESSION
  | 2 => USEFUL
  | 4 => TRAP
  | _ => WHITE
  end.

(** A segment as a caller passes it: [seg_text] is [None] when
    [type(seg.text)] is not "string", [seg_color] when no color is given. *)
Record Segment := mkSegment {
  seg_text : option string;
  seg_color : option HudColor
}.

(** [while #t > MAX_VISIBLE do table.remove(t, 1) end]. *)
Fixpoint drop_oldest {A : Type} (t : list A) : list A :=
  match t with
  | [] => []
  | _ :: rest => if (MAX_VISIBLE <? length t)%nat then drop_oldest rest else t
  end.

(** The cleaning loop of [M.Notify]. *)
Definition clean_segments (segments : list Segment) : list (string * HudColor) :=
  omap (λ seg, match seg_text seg with
               | Some text => if decide (text = String.EmptyString) then None
                              else Some (text, default WHITE (seg_color seg))
               | None => None
               end) segments.

Section HudLog.
(** Lua floats with their addition and their comparison [>=]. *)
Variable number : Type.
Variable number_add : number → number → number.
Variable number_ge : number → number → bool.
Variable DEFAULT_DURATION : number.

Record Notification := mkNotification {
  notif_segments : list (string * HudColor);
  notif_duration : number
}.

(** A line of the log: the counter its widget is named after, its
    segments and the time at which it expires. *)
Record HudEntry := mkHudEntry {
  entry_number : Z;
  entry_segments : list (string * HudColor);
  expireTime : number
}.

Record HudLog := mkHudLog {
  enabled : bool;
  pendingQueue : list Notification;
  entries : list HudEntry;
  entryCounter : Z;
  timeAccum : number
}.

(** [M.Notify(segments, duration)]; [segments] is [None] for [nil]. *)
Definition Notify (h : HudLog) (segments : option (list Segment)) (duration : option number)
  : HudLog :=
  if negb (enabled h) then h
  else match segments with
       | None | Some [] => h
       | Some segs =>
           match clean_segments segs with
           | [] => h
           | clean =>
               mkHudLog (enabled h)
                 (drop_oldest
                    (pendingQueue h
                     ++ [mkNotification clean (default DEFAULT_DURATION duration)])%list)
                 (entries h) (entryCounter h) (timeAccum h)
           end
       end.

Definition NotifySimple (h : HudLog) (text : option string) (color : option HudColor)
    (duration : option number) : HudLog :=
  Notify h (Some [mkSegment text (Some (default WHITE color))]) duration.

(** [AddEntry(segments, duration)]; [hbox_ok] tells whether the
    HorizontalBox was constructed and attached (otherwise the function
    returns, or raises into the caller's [pcall], after the counter was
    advanced). *)
Definition AddEntry (h : HudLog) (n : Notification) (hbox_ok : bool) : HudLog :=
  let counter := lua_integer (entryCounter h + 1) in
  if hbox_ok
  then mkHudLog (enabled h) (pendingQueue h)
         (drop_oldest
            (entries h
             ++ [mkHudEntry counter (notif_segments n)
                   (number_add (timeAccum h) (notif_duration n))])%list)
         counter (timeAccum h)
  else mkHudLog (enabled h) (pendingQueue h) (entries h) counter (timeAccum h).

(** The loop of [DrainPending] over [pendingQueue]: every notification
    is handed to [AddEntry] and removed, oldest first. [oks] tells for each
    whether its HorizontalBox could be made (a missing answer counts as
    yes). *)
Fixpoint add_pending (h : HudLog) (queue : list Notification) (oks : list bool) : HudLog :=
  match queue with
  | [] => h
  | n :: later =>
      add_pending (AddEntry h n (default true (head oks))) later (tail oks)
  end.

(** [ExpireTick]: the loop removes every entry whose time has passed and
    keeps the others in order. *)
Definition ExpireTick (h : HudLog) : HudLog :=
  mkHudLog (enabled h) (pendingQueue h)
    (filter (λ e, number_ge (timeAccum h) (expireTime e) = false) (entries h))
    (entryCounter h) (timeAccum h).

(** [DrainPending] once the widget exists and is valid: the pending
    notifications, then the expiry. *)
Definition DrainPending_ready (h : HudLog) (oks : list bool) : HudLog :=
  ExpireTick
    (add_pending
       (mkHudLog (enabled h) [] (entries h) (entryCounter h) (timeAccum h))
       (pendingQueue h) oks).

(** The body of the tick loop adds [TICK_MS / 1000.0] to the clock. *)
Definition advance_clock (h : HudLog) (step : number) : HudLog :=
  mkHudLog (enabled h) (pendingQueue h) (entries h) (entryCounter h)
    (number_add (timeAccum h) step).

(** [M.Clear()] with the widget ready. *)
Definition Clear (h : HudLog) : HudLog :=
  mkHudLog (enabled h) [] [] (entryCounter h) (timeAccum h).

Definition SetEnabled (h : HudLog) (value : bool) : HudLog :=
  let h1 := mkHudLog value (pendingQueue h) (entries h) (entryCounter h) (timeAccum h) in
  if value then h1 else Clear h1.

End HudLog.

End LuaHud.

(** A line of the log as the player sees it: its segments and the time at
    which it expires; and the line [AddEntry] makes of a notification at
    clock reading [now]. *)
Definition hud_line {number : Type} (e : LuaHud.HudEntry number)
  : list (string * LuaHud.HudColor) * number :=
  (LuaHud.entry_segments number e, LuaHud.expireTime number e).

Definition hud_new_line {number : Type} (number_add : number → number → number)
    (now : number) (n : LuaHud.Notification number)
  : list (string * LuaHud.HudColor) * number :=
  (LuaHud.notif_segments number n, number_add now (LuaHud.notif_duration number n)).

(** ** Pickup detection: [ScanTetrominoItems] of the scanner module *)

(** How a call of the callback ends: it returns, or it raises an error,
    which nothing in the scanner catches. *)
Inductive Completion := Returns | Raises.

#[global] Instance Completion_eq_dec : EqDecision Completion.
Proof. solve_decision. Defined.

(** An actor as one scan finds it: the actor with its address, validity
    and id, the two flags read under [pcall] ([None] for nil), what
    [col.ShouldBeCollectable(tetrominoId)] answers if this iteration asks,
    and how a call of [onCollected] with a given argument ends if this
    iteration makes it. *)
Record Sighting := mkSighting {
  sighted : TetrominoItem;
  isAnimating : option bool;
  isHidden : option bool;
  collectable : bool;
  onCollected : option string → Completion
}.

(** [OnTetrominoCollected] of [main.lua], the callback the polling loop
    hands to the scanner, as far as its ending goes: with nil it raises, at
    the latest at [State.CollectedThisSession[tetrominoId] = true] ("table
    index is nil"); with an id it ends as the calls it makes end
    ([Collection.MarkLocationChecked] is not among the sources at hand). *)
Definition OnTetrominoCollected_ends (calls_end : string → Completion)
    (tetrominoId : option string) : Completion :=
  match tetrominoId with
  | None => Raises
  | Some id => calls_end id
  end.

(** An entry of [state.TrackedItems]; its [name] and [item] are not read. *)
Record TrackedInfo := mkTrackedInfo {
  info_id : option string;
  wasAnimating : option bool;
  wasHidden : option bool;
  reported : bool
}.

(** The loop body for a valid actor whose entry is [entry]: the entry it
    leaves ([None]: still none), the arguments of its calls of
    [onCollected], in order, and how it ends. A call that raises leaves
    the lines below it unexecuted: the new entry is not written, the
    [reported] flag and the remembered flags of an old one are not
    updated. *)
Definition track (entry : option TrackedInfo) (x : Sighting)
  : option TrackedInfo * list (option string) * Completion :=
  match entry with
  | None =>
      let tetrominoId := item_id (sighted x) in
      if bool_decide (isAnimating x = Some true) then
        match onCollected x tetrominoId with
        | Raises => (None, [tetrominoId], Raises)
        | Returns =>
            (Some (mkTrackedInfo tetrominoId (isAnimating x) (isHidden x) true),
             [tetrominoId], Returns)
        end
      else (Some (mkTrackedInfo tetrominoId (isAnimating x) (isHidden x) false), [], Returns)
  | Some info =>
      let by_animation := bool_decide (isAnimating x = Some true)
                          && bool_decide (wasAnimating info = Some false)
                          && negb (reported info) in
      if by_animation && bool_decide (onCollected x (info_id info) = Raises)
      then (Some info, [info_id info], Raises)
      else
        let reported1 := reported info || by_animation in
        let calls1 := if by_animation then [info_id info] else [] in
        let by_hiding := bool_decide (isHidden x = Some true)
                         && bool_decide (wasHidden info = Some false)
                         && negb reported1 in
        if by_hiding && bool_decide (onCollected x (info_id info) = Raises)
        then (Some (mkTrackedInfo (info_id info) (wasAnimating info) (wasHidden info)
                      reported1),
              (calls1 ++ [info_id info])%list, Raises)
        else
          let reported2 := reported1 || by_hiding in
          let visible_again := reported2
                               && bool_decide (is_Some (item_id (sighted x)))
                               && collectable x
                               && bool_decide (isAnimating x = Some false)
                               && bool_decide (isHidden x = Some false) in
          (Some (mkTrackedInfo (info_id info) (isAnimating x) (isHidden x)
                   (if visible_again then false else reported2)),
           (calls1 ++ (if by_hiding then [info_id info] else []))%list, Returns)
  end.

(** The table, the calls made so far, and whether the scan is still
    running. *)
Definition ScanState : Type := gmap nat TrackedInfo * list (option string) * Completion.

(** One iteration of [for _, item in ipairs(items)]; after a call that
    raised there are no more iterations. *)
Definition scan_item (acc : ScanState) (x : Sighting) : ScanState :=
  match acc.2 with
  | Raises => acc
  | Returns =>
      if item_valid (sighted x) then
        let r := track (acc.1.1 !! item_address (sighted x)) x in
        (match r.1.1 with
         | Some info => <[item_address (sighted x) := info]> acc.1.1
         | None => acc.1.1
         end,
         (acc.1.2 ++ r.1.2)%list, r.2)
      else acc
  end.

(** The addresses entered in [foundThisScan] by a scan that reaches its
    end. *)
Definition found_addresses (items : list Sighting) : list nat :=
  (λ x, item_address (sighted x)) <$> filter (λ x, item_valid (sighted x) = true) items.

(** [ScanTetrominoItems(state, onCollected)]: [items] is what [FindAllOf]
    returns, [None] for nil; the result is [state.TrackedItems] afterwards,
    the arguments of the calls of [onCollected], and how the scan ends.
    The error of a call that raises leaves the function at once: the loop
    that clears the entries of the addresses not found is not reached. *)
Definition ScanTetrominoItems (TrackedItems : gmap nat TrackedInfo)
    (items : option (list Sighting)) : ScanState :=
  match items with
  | None => (TrackedItems, [], Returns)
  | Some items =>
      let r := foldl scan_item (TrackedItems, [], Returns) items in
      match r.2 with
      | Raises => r
      | Returns => (filter (λ kv, kv.1 ∈ found_addresses items) r.1.1, r.1.2, Returns)
      end
  end.

(** One actor over the scans that reach it: its entry and the calls made
    for it. The polling loop catches the error of a scan and scans again
    100 ms later, with the table as the failed scan left it. *)
Fixpoint track_history (entry : option TrackedInfo) (xs : list Sighting)
  : option TrackedInfo * list (option string) :=
  match xs with
  | [] => (entry, [])
  | x :: later =>
      let r := track entry x in
      let rs := track_history r.1.1 later in
      (rs.1, (r.1.2 ++ rs.2)%list)
  end.

(** A flag that was false at the last scan is true now. *)
Definition edge (flags : option bool * option bool) (x : Sighting) : bool :=
  bool_decide (isAnimating x = Some true) && bool_decide (flags.1 = Some false)
  || bool_decide (isHidden x = Some true) && bool_decide (flags.2 = Some false).

Fixpoint has_edge (flags : option bool * option bool) (xs : list Sighting) : bool :=
  match xs with
  | [] => false
  | x :: later => edge flags x || has_edge (isAnimating x, isHidden x) later
  end.

(** The flags remembered after the sightings [xs]. *)
Definition last_flags (flags : option bool * option bool) (xs : list Sighting)
  : option bool * option bool :=
  match last xs with
  | Some x => (isAnimating x, isHidden x)
  | None => flags
  end.

(** The actor is seen with an id, collectable, not animating, not hidden. *)
Definition at_rest (x : Sighting) : bool :=
  bool_decide (is_Some (item_id (sighted x))) && collectable x
  && bool_decide (isAnimating x = Some false) && bool_decide (isHidden x = Some false).

(** A sighting of an actor by the scanner as [main.lua] runs it, every
    call made by the callback returning. *)
Definition seen (address : nat) (id : option string) (animating hiding : option bool)
    (collectable : bool) : Sighting :=
  mkSighting (mkTetrominoItem address true id) animating hiding collectable
    (OnTetrominoCollected_ends (λ _, Returns)).

(** ** Tetromino ids in Lua: the utilities module *)

Module TetrominoUtils.

Definition TypeToLetter (t : Z) : option string :=
  match t with
  | 1 => Some "D" | 2 => Some "M" | 4 => Some "N" | 8 => Some "S"
  | 16 => Some "E" | 32 => Some "A" | 64 => Some "H"
  | _ => None
  end.

Definition ShapeToLetter (s : Z) : option string :=
  match s with
  | 1 => Some "I" | 2 => Some "J" | 4 => Some "L" | 8 => Some "O"
  | 16 => Some "S" | 32 => Some "T" | 64 => Some "Z"
  | _ => None
  end.

Definition LetterToType (letter : string) : option Z :=
  if decide (letter = "D") then Some 1
  else if decide (letter = "M") then Some 2
  else if decide (letter = "N") then Some 4
  else if decide (letter = "S") then Some 8
  else if decide (letter = "E") then Some 16
  else if decide (letter = "A") then Some 32
  else if decide (letter = "H") then Some 64
  else None.

Definition LetterToShape (letter : string) : option Z :=
  if decide (letter = "I") then Some 1
  else if decide (letter = "J") then Some 2
  else if decide (letter = "L") then Some 4
  else if decide (letter = "O") then Some 8
  else if decide (letter = "S") then Some 16
  else if decide (letter = "T") then Some 32
  else if decide (letter = "Z") then Some 64
  else None.

(** [string.format("%d", n)] for an integer. *)
Definition format_d (n : Z) : string := pretty n.

(** [FormatTetrominoId(typeVal, shapeVal, numVal)] on the integers the
    game's [InstanceInfo] holds; [None] is nil. *)
Definition FormatTetrominoId (typeVal shapeVal numVal : option Z) : string :=
  let t := default 0 typeVal in
  let s := default 0 shapeVal in
  let n := default 0 numVal in
  let typeLetter := default ("T" +:+ format_d t) (TypeToLetter t) in
  let shapeLetter := default ("S" +:+ format_d s) (ShapeToLetter s) in
  typeLetter +:+ shapeLetter +:+ format_d n.

Section Parse.
(** Lua's numbers, and [tonumber] on strings: what it makes of [numStr]
    is left to the library. *)
Variable number : Type.
Variable tonumber : string → option number.

(** [ParseTetrominoId(id)]; [None] for [nil, nil, nil]. *)
Definition ParseTetrominoId (id : option string) : option (Z * Z * number) :=
  match id with
  | None => None
  | Some id =>
      if (String.length id <? 3)%nat then None
      else
        let typeLetter := String.substring 0 1 id in
        let shapeLetter := String.substring 1 1 id in
        let numStr := String.substring 2 (String.length id - 2) id in
        let typeVal := LetterToType typeLetter in
        let shapeVal := LetterToShape shapeLetter in
        let numVal := tonumber numStr in
        match typeVal, shapeVal, numVal with
        | Some typeVal, Some shapeVal, Some numVal => Some (typeVal, shapeVal, numVal)
        | _, _, _ => None
        end
  end.

End Parse.

End TetrominoUtils.

(** * Part II: properties *)

(** ** The constructed registry, by evaluation *)

Lemma static_cast_int_small (z : Z) :
  INT_MIN ≤ z ≤ INT_MAX → static_cast_int z = z.
Proof.
  unfold static_cast_int, INT_MIN, INT_MAX. intros Hz.
  rewrite Z.mod_small; lia.
Qed.

(** No [std::stoi] throws on the static tables: the constructor returns. *)
Lemma ItemMapping_new_ok : ItemMapping_new = Some m_itemMapping.
Proof.
  assert (H : constructed ItemMapping_new = true) by (vm_compute; reflexivity).
  unfold m_itemMapping. destruct ItemMapping_new; [reflexivity | discriminate H].
Qed.

(** From here on the registry is used through its lookups only. *)
#[global] Opaque m_itemMapping.

Lemma known_prefixes_served :
  map_Forall (λ _ prefix, served m_itemMapping prefix = true)
             (m_apItemIdToPrefix m_itemMapping).
Proof. apply (bool_decide_unpack _). vm_compute. exact I. Qed.

(** Within every letter-prefixed sequence the embedded numbers differ, so
    the comparator of [std::sort] is a strict total order on it and the
    sorted vector does not depend on the sorting algorithm. *)
Lemma sequence_numbers_distinct :
  map_Forall (λ prefix seq, prefix = "**" ∨ distinct_numbers seq = true)
             (m_tetrominoSequences m_itemMapping).
Proof. apply (bool_decide_unpack _). vm_compute. exact I. Qed.

Example sequence_DJ :
  m_tetrominoSequences m_itemMapping !! "DJ" = Some ["DJ1"; "DJ2"; "DJ3"; "DJ4"; "DJ5"].
Proof. vm_compute. reflexivity. Qed.

Example sequence_MT_numeric_order :
  m_tetrominoSequences m_itemMapping !! "MT"
  = Some ["MT1"; "MT2"; "MT3"; "MT4"; "MT5"; "MT6"; "MT7"; "MT8"; "MT9"; "MT10"].
Proof. vm_compute. reflexivity. Qed.

Example prefix_of_0x540000 : m_apItemIdToPrefix m_itemMapping !! 0x540000 = Some "DJ".
Proof. vm_compute. reflexivity. Qed.

Example star_keys :
  ToGameKey m_itemMapping "SZ24" = "**24" ∧ FromGameKey m_itemMapping "**5" = "SL5"
  ∧ GetLocationId m_itemMapping "SL5" = 0x540000 + 114
  ∧ GetLocationId m_itemMapping "**5" = -1.
Proof. vm_compute. repeat split; reflexivity. Qed.

(** ** Resolution: one call, then [n] calls *)

Lemma same_tables_refl im : same_tables im im.
Proof. unfold same_tables. by destruct im. Qed.

Lemma same_tables_set im c : same_tables im (set_receivedCounts im c).
Proof. reflexivity. Qed.

Lemma same_tables_trans im1 im2 im3 :
  same_tables im1 im2 → same_tables im2 im3 → same_tables im1 im3.
Proof.
  unfold same_tables. intros H12 H23. rewrite H23 at 1. rewrite H12. reflexivity.
Qed.

Lemma ResolveNextItem_unknown im apItemId :
  m_apItemIdToPrefix im !! apItemId = None →
  ResolveNextItem im apItemId = Some (None, im).
Proof. intros H. unfold ResolveNextItem. by rewrite H. Qed.

(** With [c] items of the prefix received so far, the call returns entry
    [c] of the sequence (nothing beyond its end) and stores [c + 1]. *)
Lemma ResolveNextItem_known im apItemId prefix (tets : list string) (c : nat) :
  m_apItemIdToPrefix im !! apItemId = Some prefix →
  m_tetrominoSequences im !! prefix = Some tets →
  tets ≠ [] →
  Z.of_nat (length tets) ≤ INT_MAX →
  received im prefix = Z.of_nat c →
  Z.of_nat c < INT_MAX →
  ResolveNextItem im apItemId
  = Some (tets !! c,
          set_receivedCounts im (<[prefix := Z.of_nat c + 1]> (m_receivedCounts im))).
Proof.
  intros Hid Hseq Hne Hlen Hc Hmax. unfold ResolveNextItem.
  rewrite Hid, Hseq. destruct tets as [|t tets']; [done|].
  unfold received in Hc. rewrite Hc.
  destruct (decide (Z.of_nat c = INT_MAX)) as [Heq|_]; [lia|].
  rewrite static_cast_int_small by (unfold INT_MIN, INT_MAX in *; lia).
  destruct (Z.ltb_spec (Z.of_nat (length (t :: tets'))) (Z.of_nat c + 1)) as [Hgt|Hle].
  - rewrite (lookup_ge_None_2 (t :: tets') c) by lia. reflexivity.
  - destruct (Z.ltb_spec (Z.of_nat c + 1 - 1) 0) as [Hneg|_]; [lia|].
    replace (Z.to_nat (Z.of_nat c + 1 - 1)) with c by lia.
    destruct (lookup_lt_is_Some_2 (t :: tets') c) as [x Hx]; [lia|].
    rewrite Hx. reflexivity.
Qed.

Lemma ResolveMany_known (apItemId : Z) prefix (tets : list string) (n : nat) :
  ∀ im (c : nat),
    m_apItemIdToPrefix im !! apItemId = Some prefix →
    m_tetrominoSequences im !! prefix = Some tets →
    tets ≠ [] →
    Z.of_nat (length tets) ≤ INT_MAX →
    received im prefix = Z.of_nat c →
    Z.of_nat c + Z.of_nat n ≤ INT_MAX →
    ∃ im', ResolveMany im apItemId n = Some ((λ j, tets !! j) <$> seq c n, im')
           ∧ same_tables im im'
           ∧ received im' prefix = Z.of_nat (c + n).
Proof.
  induction n as [|n IH]; intros im c Hid Hseq Hne Hlen Hc Hmax.
  - exists im. simpl. rewrite Nat.add_0_r. auto using same_tables_refl.
  - simpl. rewrite (ResolveNextItem_known im apItemId prefix tets c) by (auto; lia).
    set (im1 := set_receivedCounts im _).
    destruct (IH im1 (S c)) as (im' & Hrun & Hsame & Hrec); try done.
    + unfold received, im1. simpl. rewrite lookup_insert_eq. simpl. lia.
    + lia.
    + exists im'. simpl. rewrite Hrun. simpl. split; [done|]. split.
      * eapply same_tables_trans; [apply same_tables_set | exact Hsame].
      * rewrite Hrec. f_equal. lia.
Qed.

Lemma served_inv im prefix :
  served im prefix = true →
  ∃ tets, m_tetrominoSequences im !! prefix = Some tets ∧ tets ≠ []
          ∧ Z.of_nat (length tets) < INT_MAX.
Proof.
  unfold served. destruct (m_tetrominoSequences im !! prefix) as [[|t l]|]; try done.
  intros H%Z.ltb_lt. exists (t :: l). split; [reflexivity|].
  split; [discriminate | exact H].
Qed.

(** Every numeric id of the registry has a served prefix, whatever the
    counters are. *)
Lemma known_id_served counts apItemId prefix :
  m_apItemIdToPrefix (set_receivedCounts m_itemMapping counts) !! apItemId = Some prefix →
  ∃ tets, m_tetrominoSequences (set_receivedCounts m_itemMapping counts) !! prefix = Some tets
          ∧ tets ≠ [] ∧ Z.of_nat (length tets) < INT_MAX.
Proof.
  intros Hid. apply served_inv.
  exact (known_prefixes_served apItemId prefix Hid).
Qed.

(** ** Claims on identifier resolution *)

(** C1. Resolution determinism. From zero received counts (the state
    [ResetItemCounters] leaves, whatever was counted before) and for every
    numeric item id of the registry, with [tets] the sequence of its prefix:
    the [i]-th of consecutive calls of [ResolveNextItem] for that id returns
    [tets[i-1]] for every [1 <= i <= length tets], and call number
    [length tets + 1] returns no item. *)
Theorem resolution_determinism (counts : gmap string Z) (apItemId : Z) (prefix : string) :
  let im0 := ResetItemCounters (set_receivedCounts m_itemMapping counts) in
  m_apItemIdToPrefix im0 !! apItemId = Some prefix →
  ∃ tets results im',
    m_tetrominoSequences im0 !! prefix = Some tets
    ∧ ResolveMany im0 apItemId (S (length tets)) = Some (results, im')
    ∧ (∀ i : nat, (1 ≤ i ≤ length tets)%nat →
         ∃ t, tets !! (i - 1)%nat = Some t ∧ results !! (i - 1)%nat = Some (Some t))
    ∧ results !! length tets = Some None.
Proof.
  intros im0 Hid.
  destruct (known_id_served ∅ apItemId prefix Hid) as (tets & Hseq & Hne & Hlen).
  destruct (ResolveMany_known apItemId prefix tets (S (length tets)) im0 0
              Hid Hseq Hne) as (im' & Hrun & _ & _).
  { lia. }
  { reflexivity. }
  { lia. }
  exists tets, ((λ j, tets !! j) <$> seq 0 (S (length tets))), im'.
  split; [exact Hseq|]. split; [exact Hrun|]. split.
  - intros i Hi.
    destruct (lookup_lt_is_Some_2 tets (i - 1)) as [t Ht]; [lia|].
    exists t. split; [exact Ht|].
    rewrite list_lookup_fmap, lookup_seq_lt by lia. simpl. by rewrite Ht.
  - rewrite list_lookup_fmap, lookup_seq_lt by lia. simpl.
    by rewrite (lookup_ge_None_2 tets (length tets)).
Qed.

Lemma resolution_determinism_witness :
  m_apItemIdToPrefix (ResetItemCounters (set_receivedCounts m_itemMapping ∅)) !! 0x54000E
  = Some "NT"
  ∧ ∃ tets results im',
      m_tetrominoSequences (ResetItemCounters (set_receivedCounts m_itemMapping ∅)) !! "NT"
      = Some tets
      ∧ ResolveMany (ResetItemCounters (set_receivedCounts m_itemMapping ∅)) 0x54000E
          (S (length tets)) = Some (results, im')
      ∧ (∀ i : nat, (1 ≤ i ≤ length tets)%nat →
           ∃ t, tets !! (i - 1)%nat = Some t ∧ results !! (i - 1)%nat = Some (Some t))
      ∧ results !! length tets = Some None.
Proof.
  split; [vm_compute; reflexivity|].
  apply (resolution_determinism ∅ 0x54000E "NT"). vm_compute. reflexivity.
Defined.

(** C2, as the code has it. The registry holds five "DJ" pieces, so six
    grants of 0x540000 from zero counts resolve to DJ1, DJ2, DJ3, DJ4, DJ5
    and then to nothing; the fourth grant is DJ4. *)
Theorem grant_DJ_six_times :
  fst <$> ResolveMany m_itemMapping 0x540000 6
  = Some [Some "DJ1"; Some "DJ2"; Some "DJ3"; Some "DJ4"; Some "DJ5"; None]
  ∧ fst <$> ResolveMany m_itemMapping 0x540000 4
    = Some [Some "DJ1"; Some "DJ2"; Some "DJ3"; Some "DJ4"].
Proof. split; vm_compute; reflexivity. Qed.

(** C2 as the specification words it (DJ1, DJ2, DJ3, then exhausted) does
    not hold: the fourth grant succeeds. *)
Lemma grant_DJ_four_times_not_exhausted :
  fst <$> ResolveMany m_itemMapping 0x540000 4
  ≠ Some [Some "DJ1"; Some "DJ2"; Some "DJ3"; None].
Proof. vm_compute. discriminate. Qed.

(** C7, as the code has it. A known id whose prefix already has
    [c >= length tets] items counted, [c] below [INT_MAX]: the call returns
    no item, the only change of the registry is that the prefix's count
    becomes [c + 1], and every later call for an id of that prefix returns
    no item either, as long as the count it finds is below [INT_MAX]. *)
Theorem exhausted_drops_and_counts
    (counts : gmap string Z) (apItemId : Z) (prefix : string) (tets : list string) (c : Z) :
  let im := set_receivedCounts m_itemMapping counts in
  m_apItemIdToPrefix im !! apItemId = Some prefix →
  m_tetrominoSequences im !! prefix = Some tets →
  received im prefix = c →
  Z.of_nat (length tets) ≤ c < INT_MAX →
  ResolveNextItem im apItemId
  = Some (None, set_receivedCounts im (<[prefix := c + 1]> counts))
  ∧ ∀ (apItemId' : Z) (n : nat),
      m_apItemIdToPrefix im !! apItemId' = Some prefix →
      c + 1 + Z.of_nat n ≤ INT_MAX →
      ∃ im', ResolveMany (set_receivedCounts im (<[prefix := c + 1]> counts)) apItemId' n
             = Some (replicate n None, im')
             ∧ same_tables im im'
             ∧ received im' prefix = c + 1 + Z.of_nat n.
Proof.
  intros im Hid Hseq Hc [Hge Hmax].
  destruct (known_id_served counts apItemId prefix Hid) as (tets' & Hseq' & Hne & Hlen).
  injection (eq_trans (eq_sym Hseq') Hseq) as ->.
  assert (Hcn : c = Z.of_nat (Z.to_nat c)) by lia.
  split.
  - rewrite (ResolveNextItem_known im apItemId prefix tets (Z.to_nat c) Hid Hseq Hne)
      by lia.
    rewrite (lookup_ge_None_2 tets (Z.to_nat c)) by lia.
    rewrite <- Hcn. reflexivity.
  - intros apItemId' n Hid' Hn.
    set (im1 := set_receivedCounts im (<[prefix := c + 1]> counts)).
    destruct (ResolveMany_known apItemId' prefix tets n im1 (Z.to_nat (c + 1))
                Hid' Hseq Hne) as (im' & Hrun & Hsame & Hrec).
    { lia. }
    { unfold received, im1, set_receivedCounts, m_receivedCounts.
      rewrite lookup_insert_eq. simpl. lia. }
    { lia. }
    exists im'. split; [|split].
    + rewrite Hrun. f_equal. f_equal.
      apply list_eq. intros j. rewrite list_lookup_fmap.
      destruct (decide (j < n)%nat) as [Hj|Hj].
      * rewrite lookup_seq_lt, lookup_replicate_2 by lia. simpl.
        by rewrite (lookup_ge_None_2 tets) by lia.
      * rewrite lookup_seq_ge by lia. simpl. symmetry.
        apply lookup_replicate_None. lia.
    + exact Hsame.
    + rewrite Hrec. lia.
Qed.

Lemma exhausted_drops_and_counts_witness :
  ResolveNextItem (set_receivedCounts m_itemMapping {["DJ" := 5]}) 0x540000
  = Some (None, set_receivedCounts (set_receivedCounts m_itemMapping {["DJ" := 5]})
                  (<["DJ" := 5 + 1]> {["DJ" := 5]}))
  ∧ ∀ (apItemId' : Z) (n : nat),
      m_apItemIdToPrefix (set_receivedCounts m_itemMapping {["DJ" := 5]}) !! apItemId'
      = Some "DJ" →
      5 + 1 + Z.of_nat n ≤ INT_MAX →
      ∃ im', ResolveMany (set_receivedCounts (set_receivedCounts m_itemMapping {["DJ" := 5]})
                            (<["DJ" := 5 + 1]> {["DJ" := 5]})) apItemId' n
             = Some (replicate n None, im')
             ∧ same_tables (set_receivedCounts m_itemMapping {["DJ" := 5]}) im'
             ∧ received im' "DJ" = 5 + 1 + Z.of_nat n.
Proof.
  apply (exhausted_drops_and_counts {["DJ" := 5]} 0x540000 "DJ"
           ["DJ1"; "DJ2"; "DJ3"; "DJ4"; "DJ5"] 5).
  - vm_compute. reflexivity.
  - vm_compute. reflexivity.
  - vm_compute. reflexivity.
  - vm_compute. split; [discriminate | reflexivity].
Defined.

(** C7 as the specification words it ("every subsequent resolution") does
    not hold at the end of the range of [int]: from a count of
    [INT_MAX - 1] the call for "DJ" returns no item and leaves the count at
    [INT_MAX]; the next call increments an [int] that holds [INT_MAX], which
    C++ leaves undefined, so that two calls in a row have no defined
    result. *)
Lemma exhausted_count_overflows :
  fst <$> ResolveNextItem (set_receivedCounts m_itemMapping {["DJ" := INT_MAX - 1]}) 0x540000
  = Some None
  ∧ (λ r, received r.2 "DJ")
      <$> ResolveNextItem (set_receivedCounts m_itemMapping {["DJ" := INT_MAX - 1]}) 0x540000
    = Some INT_MAX
  ∧ ResolveNextItem (set_receivedCounts m_itemMapping {["DJ" := INT_MAX]}) 0x540000 = None
  ∧ ResolveMany (set_receivedCounts m_itemMapping {["DJ" := INT_MAX - 1]}) 0x540000 2 = None.
Proof. repeat split; vm_compute; reflexivity. Qed.

(** C10. A numeric id that is not in the item table: the call returns no
    item and leaves the registry, so every received count, as it was; what
    any later sequence of grants resolves to is therefore what it would
    have been without the unknown grant. *)
Theorem unknown_id_changes_nothing (im : ItemMapping) (apItemId : Z) :
  m_apItemIdToPrefix im !! apItemId = None →
  ∃ im', ResolveNextItem im apItemId = Some (None, im')
         ∧ im' = im
         ∧ (∀ prefix, m_receivedCounts im' !! prefix = m_receivedCounts im !! prefix)
         ∧ (∀ known n, ResolveMany im' known n = ResolveMany im known n).
Proof.
  intros H. exists im. rewrite (ResolveNextItem_unknown im apItemId H). auto.
Qed.

Lemma unknown_id_changes_nothing_witness :
  m_apItemIdToPrefix m_itemMapping !! 0x540015 = None
  ∧ ∃ im', ResolveNextItem m_itemMapping 0x540015 = Some (None, im')
           ∧ im' = m_itemMapping
           ∧ (∀ prefix, m_receivedCounts im' !! prefix = m_receivedCounts m_itemMapping !! prefix)
           ∧ (∀ known n, ResolveMany im' known n = ResolveMany m_itemMapping known n).
Proof.
  split; [vm_compute; reflexivity|].
  apply (unknown_id_changes_nothing m_itemMapping 0x540015). vm_compute. reflexivity.
Defined.

(** ** Wide and narrow strings *)

Lemma widen_spec (c : ascii) :
  (c = Ascii.zero ∧ widen c = 0%N)
  ∨ (c ≠ Ascii.zero ∧ ∃ w, widen c = N.pos w ∧ narrow w = c).
Proof.
  destruct c as [b0 b1 b2 b3 b4 b5 b6 b7].
  destruct b0, b1, b2, b3, b4, b5, b6, b7;
    first [ left; split; reflexivity
          | right; split; [discriminate | eexists; split; reflexivity] ].
Qed.

(** Narrowing the wide form of a string gives it back up to its first NUL. *)
Lemma FromFString_ToFString (s : string) : FromFString (ToFString s) = c_str s.
Proof.
  induction s as [|c rest IH]; [reflexivity|].
  cbn [ToFString c_str].
  destruct (widen_spec c) as [[-> ->]|[Hne (w & -> & Hw)]]; [reflexivity|].
  destruct (Ascii.eqb_spec c Ascii.zero) as [Heq|_]; [contradiction|].
  cbn [FromFString]. by rewrite Hw, IH.
Qed.

Lemma ToFString_c_str (s : string) : ToFString (c_str s) = ToFString s.
Proof.
  induction s as [|c rest IH]; [reflexivity|].
  cbn [ToFString c_str].
  destruct (widen_spec c) as [[-> ->]|[Hne (w & Hw & _)]]; [reflexivity|].
  destruct (Ascii.eqb_spec c Ascii.zero) as [Heq|_]; [contradiction|].
  cbn [ToFString]. by rewrite Hw, IH.
Qed.

Lemma plain_key_ToFString (s : string) : plain_key (ToFString s).
Proof. unfold plain_key. by rewrite FromFString_ToFString, ToFString_c_str. Qed.

Lemma ToFString_nil (s : string) : c_str s = s → ToFString s = [] → s = String.EmptyString.
Proof.
  intros Hs Hnil. rewrite <- Hs, <- FromFString_ToFString, Hnil. reflexivity.
Qed.

Lemma ToFString_inj (s s' : string) :
  c_str s = s → c_str s' = s' → ToFString s = ToFString s' → s = s'.
Proof.
  intros Hs Hs' Heq. rewrite <- Hs, <- Hs', <- !FromFString_ToFString. by rewrite Heq.
Qed.

(** ** The three phases of a pass, key by key *)

Lemma lookup_foldl_delete (keys : list string) (m : TetrominoMap) (k : FString) :
  foldl (λ m gk, delete (ToFString gk) m) m keys !! k
  = if decide (k ∈ ToFString <$> keys) then None else m !! k.
Proof.
  revert m. induction keys as [|a keys IH]; intros m; cbn [foldl fmap list_fmap].
  - destruct (decide (k ∈ [])) as [Hin|_]; [by apply elem_of_nil in Hin | reflexivity].
  - rewrite IH. destruct (decide (k ∈ ToFString <$> keys)) as [Hin|Hnin].
    + rewrite decide_True by (by apply list_elem_of_further). reflexivity.
    + destruct (decide (k = ToFString a)) as [->|Hne].
      * rewrite decide_True by apply list_elem_of_here. apply lookup_delete_eq.
      * rewrite decide_False.
        { by apply lookup_delete_ne. }
        intros [Heq|Hin]%elem_of_cons; contradiction.
Qed.

Lemma elem_of_toRemoveGameKeys (st : ModState) (im : ItemMapping) (m : TetrominoMap) (gk : string) :
  gk ∈ toRemoveGameKeys st im m
  ↔ (∃ key, is_Some (m !! key) ∧ FromFString key = gk) ∧ marked_for_removal st im gk = true.
Proof.
  unfold toRemoveGameKeys. rewrite list_elem_of_filter, list_elem_of_fmap. split.
  - intros [Hm (key & -> & Hin)]. split; [|exact Hm].
    apply list_elem_of_fmap in Hin as ([key' v] & Hk & Hin). cbn in Hk. subst key'.
    apply elem_of_map_to_list in Hin. exists key. split; [by exists v | reflexivity].
  - intros [(key & [v Hv] & <-) Hm]. split; [exact Hm|].
    exists key. split; [reflexivity|].
    apply list_elem_of_fmap. exists (key, v). split; [reflexivity|].
    by apply elem_of_map_to_list.
Qed.

Lemma elem_of_removed_keys (st : ModState) (im : ItemMapping) (m : TetrominoMap) (k : FString) :
  k ∈ removed_keys st im m
  ↔ ∃ key, is_Some (m !! key) ∧ marked_for_removal st im (FromFString key) = true
           ∧ k = ToFString (FromFString key).
Proof.
  unfold removed_keys. rewrite list_elem_of_fmap. split.
  - intros (gk & -> & [(key & Hkey & <-) Hm]%elem_of_toRemoveGameKeys). by exists key.
  - intros (key & Hkey & Hm & ->). exists (FromFString key). split; [reflexivity|].
    apply elem_of_toRemoveGameKeys. split; [by exists key | exact Hm].
Qed.

(** A key of the store that is the wide form of its narrow form is
    removed exactly when it is marked. *)
Lemma plain_key_removed (st : ModState) (im : ItemMapping) (m : TetrominoMap) (k : FString) :
  plain_key k → is_Some (m !! k) → marked_for_removal st im (FromFString k) = true →
  k ∈ removed_keys st im m.
Proof.
  intros Hplain Hk Hm. apply elem_of_removed_keys. exists k. by rewrite Hplain.
Qed.

(** What is removed narrows, up to its first NUL, to a marked key. *)
Lemma removed_key_marked (st : ModState) (im : ItemMapping) (m : TetrominoMap) (k : FString) :
  k ∈ removed_keys st im m →
  ∃ gk, marked_for_removal st im gk = true ∧ k = ToFString gk ∧ FromFString k = c_str gk.
Proof.
  intros (key & _ & Hm & ->)%elem_of_removed_keys.
  exists (FromFString key). split; [exact Hm|]. split; [reflexivity|].
  apply FromFString_ToFString.
Qed.

Lemma phase1_lookup (st : ModState) (im : ItemMapping) (m : TetrominoMap) (k : FString) :
  (phase1 st im m).1 !! k = if decide (k ∈ removed_keys st im m) then None else m !! k.
Proof. unfold phase1, removed_keys. cbn [fst]. apply lookup_foldl_delete. Qed.

Lemma ensure_present_lookup (im : ItemMapping) (acc : TetrominoMap * list StoreWrite) (id : string)
    (k : FString) :
  (ensure_present im acc id).1 !! k
  = match acc.1 !! k with
    | Some b => Some b
    | None => if decide (k = ToFString (ToGameKey im id)) then Some false else None
    end.
Proof.
  unfold ensure_present.
  destruct (acc.1 !! ToFString (ToGameKey im id)) as [b|] eqn:Hb; cbn [fst].
  - destruct (acc.1 !! k) eqn:Hk; [reflexivity|].
    destruct (decide (k = ToFString (ToGameKey im id))) as [->|_]; [congruence | reflexivity].
  - destruct (decide (k = ToFString (ToGameKey im id))) as [->|Hne].
    + by rewrite lookup_insert_eq, Hb.
    + rewrite lookup_insert_ne by done. by destruct (acc.1 !! k).
Qed.

Lemma ensure_present_fold_lookup (im : ItemMapping) (ids : list string) :
  ∀ (acc : TetrominoMap * list StoreWrite) (k : FString),
    (foldl (ensure_present im) acc ids).1 !! k
    = match acc.1 !! k with
      | Some b => Some b
      | None => if decide (k ∈ (λ id, ToFString (ToGameKey im id)) <$> ids)
                then Some false else None
      end.
Proof.
  induction ids as [|id ids IH]; intros acc k; cbn [foldl fmap list_fmap].
  - destruct (acc.1 !! k); [reflexivity|].
    destruct (decide (k ∈ [])) as [Hin|_]; [by apply elem_of_nil in Hin | reflexivity].
  - rewrite IH, ensure_present_lookup.
    destruct (acc.1 !! k); [reflexivity|].
    destruct (decide (k = ToFString (ToGameKey im id))) as [->|Hne].
    + rewrite decide_True by apply list_elem_of_here. reflexivity.
    + destruct (decide (k ∈ (λ id, ToFString (ToGameKey im id)) <$> ids)) as [Hin|Hnin].
      * rewrite decide_True by (by apply list_elem_of_further). reflexivity.
      * rewrite decide_False; [reflexivity|].
        intros [Heq|Hin]%elem_of_cons; contradiction.
Qed.

Lemma ensure_present_fold_noop (im : ItemMapping) (ids : list string) (acc : TetrominoMap * list StoreWrite) :
  (∀ id, id ∈ ids → is_Some (acc.1 !! ToFString (ToGameKey im id))) →
  foldl (ensure_present im) acc ids = acc.
Proof.
  induction ids as [|id ids IH]; intros Hall; cbn [foldl]; [reflexivity|].
  assert (Hstep : ensure_present im acc id = acc).
  { unfold ensure_present. destruct (Hall id) as [b ->]; [apply list_elem_of_here|].
    reflexivity. }
  rewrite Hstep. apply IH. intros id' Hin. apply Hall. by apply list_elem_of_further.
Qed.

Lemma elem_of_granted_keys (st : ModState) (im : ItemMapping) (k : FString) :
  k ∈ granted_keys st im ↔ ∃ id, id ∈ GrantedItems st ∧ ToFString (ToGameKey im id) = k.
Proof.
  unfold granted_keys. rewrite list_elem_of_fmap. split.
  - intros (id & -> & Hin). exists id. by rewrite <- elem_of_elements.
  - intros (id & Hin & <-). exists id. by rewrite elem_of_elements.
Qed.

Lemma phase2_lookup (st : ModState) (im : ItemMapping) (m : TetrominoMap) (k : FString) :
  (phase2 st im m).1 !! k
  = match m !! k with
    | Some b => Some b
    | None => if decide (k ∈ granted_keys st im) then Some false else None
    end.
Proof. unfold phase2, granted_keys. by rewrite ensure_present_fold_lookup. Qed.

Lemma phase3_lookup (st : ModState) (m : TetrominoMap) (k : FString) :
  (phase3 st m).1 !! k
  = (λ used : bool, if ReusableTetrominos st then false else used) <$> m !! k.
Proof.
  unfold phase3. destruct (ReusableTetrominos st); cbn [fst].
  - rewrite lookup_fmap. destruct (m !! k) as [[|]|]; reflexivity.
  - destruct (m !! k); reflexivity.
Qed.

Lemma filter_none {A} (P : A → Prop) `{∀ x, Decision (P x)} (l : list A) :
  (∀ x, x ∈ l → ¬ P x) → filter P l = [].
Proof.
  induction l as [|a l IH]; intros Hall; [reflexivity|].
  rewrite filter_cons_False by (apply Hall, list_elem_of_here).
  apply IH. intros x Hx. apply Hall. by apply list_elem_of_further.
Qed.

Lemma phase3_noop (st : ModState) (m : TetrominoMap) :
  (ReusableTetrominos st = true → ∀ k b, m !! k = Some b → b = false) →
  phase3 st m = (m, []).
Proof.
  intros Hall. unfold phase3. destruct (ReusableTetrominos st); [|reflexivity].
  f_equal.
  - apply map_eq. intros k. rewrite lookup_fmap.
    destruct (m !! k) as [b|] eqn:Hb; [|reflexivity].
    rewrite (Hall eq_refl k b Hb). reflexivity.
  - rewrite filter_none; [reflexivity|].
    intros [k b] Hin%elem_of_map_to_list Hb. cbn in Hb.
    specialize (Hall eq_refl k b Hin). congruence.
Qed.

Lemma EnforceCollectionState_runs (st : ModState) (im : ItemMapping) (m0 : TetrominoMap) :
  CurrentProgress st = true → APSynced st = true →
  EnforceCollectionState st im (Some m0) = (Some (final_map st im m0), pass_writes st im m0).
Proof.
  intros Hp Hs. unfold EnforceCollectionState, final_map, pass_writes.
  rewrite Hp, Hs. cbn [negb].
  destruct (phase1 st im m0) as [m1 w1]. cbn [fst snd].
  destruct (phase2 st im m1) as [m2 w2]. cbn [fst snd].
  destruct (phase3 st m2) as [m3 w3]. reflexivity.
Qed.

Lemma EnforceCollectionState_skips (st : ModState) (im : ItemMapping) (tmap : option TetrominoMap) :
  CurrentProgress st = false ∨ APSynced st = false ∨ tmap = None →
  EnforceCollectionState st im tmap = (tmap, []).
Proof.
  intros H. unfold EnforceCollectionState.
  destruct (CurrentProgress st); [|reflexivity].
  destruct (APSynced st); [|reflexivity]. cbn [negb].
  destruct tmap; [|reflexivity].
  destruct H as [H|[H|H]]; discriminate H.
Qed.

Lemma final_map_lookup (st : ModState) (im : ItemMapping) (m0 : TetrominoMap) (k : FString) :
  final_map st im m0 !! k
  = (λ used : bool, if ReusableTetrominos st then false else used)
      <$> match (if decide (k ∈ removed_keys st im m0) then None else m0 !! k) with
          | Some b => Some b
          | None => if decide (k ∈ granted_keys st im) then Some false else None
          end.
Proof.
  unfold final_map. rewrite phase3_lookup, phase2_lookup, phase1_lookup. reflexivity.
Qed.

(** ** The key translation of the constructed registry *)

Lemma star_ids_translate :
  map_Forall (λ modId gameKey,
                m_gameKeyToModId m_itemMapping !! gameKey = Some modId ∧ IsStar modId = true)
             (m_modIdToGameKey m_itemMapping).
Proof. apply (bool_decide_unpack _). vm_compute. exact I. Qed.

Lemma game_keys_name_stars :
  map_Forall (λ _ modId, IsStar modId = true) (m_gameKeyToModId m_itemMapping).
Proof. apply (bool_decide_unpack _). vm_compute. exact I. Qed.

Lemma empty_key_unrecognised :
  GetLocationId m_itemMapping (FromGameKey m_itemMapping String.EmptyString) = -1.
Proof. vm_compute. reflexivity. Qed.

(** No NUL character in the keys of the registry's tables. *)
Lemma location_names_no_nul :
  map_Forall (λ name _, c_str name = name) (m_locationNameToId m_itemMapping).
Proof. apply (bool_decide_unpack _). vm_compute. exact I. Qed.

Lemma game_keys_no_nul :
  map_Forall (λ gameKey _, c_str gameKey = gameKey) (m_gameKeyToModId m_itemMapping).
Proof. apply (bool_decide_unpack _). vm_compute. exact I. Qed.

Lemma translated_keys_no_nul :
  map_Forall (λ _ gameKey, c_str gameKey = gameKey) (m_modIdToGameKey m_itemMapping).
Proof. apply (bool_decide_unpack _). vm_compute. exact I. Qed.

(** The constructed registry recognises no key with a NUL character. *)
Lemma recognised_no_nul (gameKey : string) :
  0 ≤ GetLocationId m_itemMapping (FromGameKey m_itemMapping gameKey) →
  c_str gameKey = gameKey.
Proof.
  unfold FromGameKey, GetLocationId.
  destruct (m_gameKeyToModId m_itemMapping !! gameKey) as [modId|] eqn:Hg.
  - intros _. exact (game_keys_no_nul gameKey modId Hg).
  - cbn [default from_option id].
    destruct (m_locationNameToId m_itemMapping !! gameKey) as [locId|] eqn:Hl.
    + intros _. exact (location_names_no_nul gameKey locId Hl).
    + cbn. lia.
Qed.

Lemma ToGameKey_no_nul (id : string) :
  c_str id = id → c_str (ToGameKey m_itemMapping id) = ToGameKey m_itemMapping id.
Proof.
  intros Hid. unfold ToGameKey.
  destruct (m_modIdToGameKey m_itemMapping !! id) as [gk|] eqn:Hgk; simpl.
  - exact (translated_keys_no_nul id gk Hgk).
  - exact Hid.
Qed.

(** The id a granted entry is looked up under, seen from its game key:
    either the key translates back to a star, or it translates back to the
    granted id itself. *)
Lemma granted_key_translation (id : string) :
  IsStar (FromGameKey m_itemMapping (ToGameKey m_itemMapping id)) = true
  ∨ FromGameKey m_itemMapping (ToGameKey m_itemMapping id) = id.
Proof.
  unfold ToGameKey.
  destruct (m_modIdToGameKey m_itemMapping !! id) as [gk|] eqn:Hgk; simpl.
  - destruct (star_ids_translate id gk Hgk) as [Hback Hs].
    right. unfold FromGameKey. by rewrite Hback.
  - unfold FromGameKey.
    destruct (m_gameKeyToModId m_itemMapping !! id) as [s|] eqn:Hs; simpl.
    + left. exact (game_keys_name_stars id s Hs).
    + by right.
Qed.

(** A key that phase 2 ensures is never one that phase 1 marks, as long as
    the game key of every granted id is granted too whenever stars are
    managed. *)
Lemma granted_key_not_marked (st : ModState) (id : string) :
  (RandomiseStars st = true →
   ∀ id', id' ∈ GrantedItems st → ToGameKey m_itemMapping id' ∈ GrantedItems st) →
  id ∈ GrantedItems st →
  marked_for_removal st m_itemMapping (ToGameKey m_itemMapping id) = false.
Proof.
  intros Hkeys Hin. unfold marked_for_removal.
  destruct (decide (ToGameKey m_itemMapping id = String.EmptyString)) as [_|_]; [reflexivity|].
  destruct (GetLocationId _ _ <? 0); [reflexivity|].
  destruct (negb (RandomisePurpleSigils st) && IsPurpleSigil _); [reflexivity|].
  destruct (IsStar (FromGameKey m_itemMapping (ToGameKey m_itemMapping id))) eqn:Hstar.
  - destruct (RandomiseStars st) eqn:Hstars; [|reflexivity]. cbn [negb andb].
    apply bool_decide_eq_false. intros Hnot. apply Hnot. by apply Hkeys.
  - rewrite andb_false_r.
    apply bool_decide_eq_false. intros Hnot. apply Hnot.
    destruct (granted_key_translation id) as [Hs | ->]; [congruence | exact Hin].
Qed.

(** The second pass over what the first pass left writes nothing. *)
Lemma second_pass_silent (st : ModState) (m0 : TetrominoMap) :
  CurrentProgress st = true → APSynced st = true →
  (RandomiseStars st = true →
   ∀ id, id ∈ GrantedItems st → ToGameKey m_itemMapping id ∈ GrantedItems st) →
  (∀ id, id ∈ GrantedItems st → c_str id = id) →
  (∀ key, is_Some (m0 !! key) →
          0 ≤ GetLocationId m_itemMapping (FromGameKey m_itemMapping (FromFString key)) →
          plain_key key) →
  EnforceCollectionState st m_itemMapping (Some (final_map st m_itemMapping m0))
  = (Some (final_map st m_itemMapping m0), []).
Proof.
  intros Hp Hs Hkeys Hnul Hplain. set (m3 := final_map st m_itemMapping m0).
  assert (Hgranted : ∀ id, id ∈ GrantedItems st →
            FromFString (ToFString (ToGameKey m_itemMapping id)) = ToGameKey m_itemMapping id).
  { intros id Hid. rewrite FromFString_ToFString. apply ToGameKey_no_nul. by apply Hnul. }
  assert (Hkeep : ∀ k, is_Some (m3 !! k) →
                       marked_for_removal st m_itemMapping (FromFString k) = false).
  { intros k [b Hb]. unfold m3 in Hb. rewrite final_map_lookup in Hb.
    destruct (marked_for_removal st m_itemMapping (FromFString k)) eqn:Hm; [|reflexivity].
    exfalso.
    destruct (decide (k ∈ granted_keys st m_itemMapping)) as [Hin|Hnin].
    - apply elem_of_granted_keys in Hin as (id & Hid & <-).
      rewrite (Hgranted id Hid), (granted_key_not_marked st id Hkeys Hid) in Hm.
      discriminate Hm.
    - destruct (decide (k ∈ removed_keys st m_itemMapping m0)) as [Hrem|Hnrem];
        [discriminate Hb|].
      destruct (m0 !! k) as [b0|] eqn:Hk; [|discriminate Hb].
      apply Hnrem. apply plain_key_removed; [|by eexists | exact Hm].
      apply Hplain; [by eexists|].
      unfold marked_for_removal in Hm.
      destruct (decide (FromFString k = String.EmptyString)); [discriminate Hm|].
      destruct (Z.ltb_spec (GetLocationId m_itemMapping
                              (FromGameKey m_itemMapping (FromFString k))) 0);
        [discriminate Hm | assumption]. }
  assert (H1 : phase1 st m_itemMapping m3 = (m3, [])).
  { unfold phase1. rewrite (elem_of_nil_inv (toRemoveGameKeys st m_itemMapping m3)).
    - reflexivity.
    - intros gk [(key & Hkey & <-) Hm]%elem_of_toRemoveGameKeys.
      rewrite (Hkeep key Hkey) in Hm. discriminate Hm. }
  assert (H2 : phase2 st m_itemMapping m3 = (m3, [])).
  { unfold phase2. apply ensure_present_fold_noop. intros id Hid%elem_of_elements.
    cbn [fst]. unfold m3. rewrite final_map_lookup.
    assert (Hk : ToFString (ToGameKey m_itemMapping id) ∈ granted_keys st m_itemMapping).
    { apply elem_of_granted_keys. by exists id. }
    rewrite (decide_True _ _ Hk).
    destruct (if decide (_ ∈ removed_keys st m_itemMapping m0) then None else _);
      cbn; by eexists. }
  assert (H3 : phase3 st m3 = (m3, [])).
  { apply phase3_noop. intros Hr k b Hb. unfold m3 in Hb.
    rewrite final_map_lookup, Hr in Hb.
    destruct (match (if decide (k ∈ removed_keys st m_itemMapping m0) then None else m0 !! k)
              with
              | Some b0 => Some b0
              | None => if decide (k ∈ granted_keys st m_itemMapping) then Some false else None
              end); cbn in Hb; congruence. }
  rewrite EnforceCollectionState_runs by assumption.
  unfold final_map, pass_writes. rewrite H1. cbn [fst snd]. rewrite H2. cbn [fst snd].
  rewrite H3. reflexivity.
Qed.

(** ** Claims on reconciliation *)

(** C3, as the code has it. After a pass that runs (progress object found,
    session synced, map acquired): a store key that is the wide form of its
    own narrow form, whose translated id the registry recognises and whose
    category is managed, is absent when the id it is looked up under (the
    game key itself for a star, the translated id otherwise) is not in
    [GrantedItems] and the key is not the game key of a granted id; every id
    in [GrantedItems] is present under the wide form of its game key. For
    [GrantedItems = {DJ1}] and the store [{DJ1: false, DJ2: false}] the pass
    leaves [{DJ1: false}]. *)
Theorem reconciliation_correct (st : ModState) (m0 : TetrominoMap) :
  CurrentProgress st = true → APSynced st = true →
  (∃ m', (EnforceCollectionState st m_itemMapping (Some m0)).1 = Some m'
     ∧ (∀ key : FString,
          let gameKey := FromFString key in
          let modId := FromGameKey m_itemMapping gameKey in
          plain_key key →
          0 ≤ GetLocationId m_itemMapping modId →
          (IsPurpleSigil modId = true → RandomisePurpleSigils st = true) →
          (IsStar modId = true → RandomiseStars st = true) →
          (if IsStar modId then gameKey else modId) ∉ GrantedItems st →
          (∀ id, id ∈ GrantedItems st → ToFString (ToGameKey m_itemMapping id) ≠ key) →
          m' !! key = None)
     ∧ (∀ id, id ∈ GrantedItems st →
          is_Some (m' !! ToFString (ToGameKey m_itemMapping id))))
  ∧ ((EnforceCollectionState (GrantItem synced_state "DJ1") m_itemMapping
        (Some {[ToFString "DJ1" := false; ToFString "DJ2" := false]})).1
     = Some {[ToFString "DJ1" := false]}).
Proof.
  intros Hp Hs. split; [|vm_compute; reflexivity].
  exists (final_map st m_itemMapping m0).
  rewrite EnforceCollectionState_runs by assumption. split; [reflexivity|]. split.
  - intros key gameKey modId Hplain Hrec Hsig Hstar Hlk Hnk.
    assert (Hm : marked_for_removal st m_itemMapping gameKey = true).
    { unfold marked_for_removal. fold modId.
      destruct (decide (gameKey = String.EmptyString)) as [Hempty|_].
      { unfold modId in Hrec. rewrite Hempty, empty_key_unrecognised in Hrec. lia. }
      destruct (Z.ltb_spec (GetLocationId m_itemMapping modId) 0) as [Hneg|_]; [lia|].
      destruct (IsPurpleSigil modId) eqn:Hps.
      - rewrite (Hsig eq_refl). cbn [negb andb].
        destruct (IsStar modId) eqn:His.
        + rewrite (Hstar eq_refl). cbn [negb andb]. by apply bool_decide_eq_true.
        + rewrite andb_false_r. by apply bool_decide_eq_true.
      - rewrite andb_false_r.
        destruct (IsStar modId) eqn:His.
        + rewrite (Hstar eq_refl). cbn [negb andb]. by apply bool_decide_eq_true.
        + rewrite andb_false_r. by apply bool_decide_eq_true. }
    rewrite final_map_lookup.
    assert (Hgone : (if decide (key ∈ removed_keys st m_itemMapping m0)
                     then None else m0 !! key) = None).
    { destruct (decide (key ∈ removed_keys st m_itemMapping m0)) as [_|Hnrem];
        [reflexivity|].
      destruct (m0 !! key) as [b|] eqn:Hk; [|reflexivity].
      exfalso. apply Hnrem. apply plain_key_removed; [exact Hplain | by eexists | exact Hm]. }
    rewrite Hgone, decide_False; [reflexivity|].
    intros (id & Hid & Heq)%elem_of_granted_keys. exact (Hnk id Hid Heq).
  - intros id Hid. rewrite final_map_lookup.
    assert (Hk : ToFString (ToGameKey m_itemMapping id) ∈ granted_keys st m_itemMapping).
    { apply elem_of_granted_keys. by exists id. }
    rewrite (decide_True _ _ Hk).
    destruct (if decide (_ ∈ removed_keys st m_itemMapping m0) then None else _);
      cbn; by eexists.
Qed.

(** The pass on [GrantedItems = {MT1}] with sigils managed and the store
    [{MT1: true, HL3: false}]: "HL3" goes, "MT1" stays. *)
Lemma reconciliation_correct_witness :
  ∃ m', (EnforceCollectionState sigil_session m_itemMapping
           (Some {[ToFString "MT1" := true; ToFString "HL3" := false]})).1 = Some m'
        ∧ m' !! ToFString "HL3" = None
        ∧ is_Some (m' !! ToFString (ToGameKey m_itemMapping "MT1")).
Proof.
  destruct (reconciliation_correct sigil_session
              {[ToFString "MT1" := true; ToFString "HL3" := false]} eq_refl eq_refl)
    as [(m' & Hrun & Hgone & Hkept) _].
  exists m'. split; [exact Hrun|]. split.
  - apply (Hgone (ToFString "HL3")).
    + vm_compute. reflexivity.
    + vm_compute. discriminate.
    + intros _. reflexivity.
    + vm_compute. discriminate.
    + apply (bool_decide_unpack _). vm_compute. exact I.
    + intros id Hid. unfold sigil_session in Hid. cbn [GrantedItems] in Hid.
      apply elem_of_singleton in Hid. subst id. vm_compute. discriminate.
  - apply Hkept. unfold sigil_session. cbn [GrantedItems]. by apply elem_of_singleton.
Defined.

(** C3 as the specification words it fails on a granted star: the store
    key "**5" translates to "SL5", which the registry recognises and which
    is not in [GrantedItems] (stars are granted under their game key), yet
    the pass keeps the key. *)
Lemma granted_star_key_is_kept :
  RandomiseStars star_key_session = true
  ∧ 0 ≤ GetLocationId m_itemMapping (FromGameKey m_itemMapping (FromFString (ToFString "**5")))
  ∧ (FromGameKey m_itemMapping (FromFString (ToFString "**5")) ∉ GrantedItems star_key_session)
  ∧ ((EnforceCollectionState star_key_session m_itemMapping
        (Some {[ToFString "**5" := false]})).1
     = Some {[ToFString "**5" := false]})
  ∧ ({[ToFString "**5" := false]} : TetrominoMap) !! ToFString "**5" ≠ None.
Proof.
  split; [reflexivity|]. split; [vm_compute; discriminate|]. split; [|split].
  - apply (bool_decide_unpack _). vm_compute. exact I.
  - vm_compute. reflexivity.
  - vm_compute. discriminate.
Qed.

(** What the pass does with a key that is not the wide form of its narrow
    form: the code units 0x144 'J' '2' narrow to "DJ2", which is recognised
    and not granted, so the pass asks the map to remove the key of "DJ2",
    which is another key; the entry stays, and every later pass asks again. *)
Lemma wide_key_outlives_pass :
  FromFString [0x144; 0x4A; 0x32]%positive = "DJ2"
  ∧ ¬ plain_key [0x144; 0x4A; 0x32]%positive
  ∧ EnforceCollectionState synced_state m_itemMapping
      (Some {[ [0x144; 0x4A; 0x32]%positive := false ]})
    = (Some {[ [0x144; 0x4A; 0x32]%positive := false ]}, [TMapRemove (ToFString "DJ2")]).
Proof.
  split; [vm_compute; reflexivity|]. split; [|vm_compute; reflexivity].
  unfold plain_key. vm_compute. discriminate.
Qed.

(** C4, as the code has it. Two passes in a row, with the session state,
    the configuration and the store untouched in between: the second pass
    writes nothing (no remove, no add, no flag write) and leaves the store
    as the first left it, provided that, when stars are managed, the game
    key of every granted id is itself in [GrantedItems] (stars are held
    there under their game keys "**N"), that no granted id holds a NUL
    character, and that every key of the store which the registry
    recognises is the wide form of its own narrow form. *)
Theorem reconciliation_idempotent (st : ModState) (tmap : option TetrominoMap) :
  (RandomiseStars st = true →
   ∀ id, id ∈ GrantedItems st → ToGameKey m_itemMapping id ∈ GrantedItems st) →
  (∀ id, id ∈ GrantedItems st → c_str id = id) →
  (∀ m0 key, tmap = Some m0 → is_Some (m0 !! key) →
             0 ≤ GetLocationId m_itemMapping (FromGameKey m_itemMapping (FromFString key)) →
             plain_key key) →
  EnforceCollectionState st m_itemMapping (EnforceCollectionState st m_itemMapping tmap).1
  = ((EnforceCollectionState st m_itemMapping tmap).1, []).
Proof.
  intros Hkeys Hnul Hplain.
  destruct (CurrentProgress st) eqn:Hp.
  2: { rewrite !(EnforceCollectionState_skips st m_itemMapping) by auto. reflexivity. }
  destruct (APSynced st) eqn:Hs.
  2: { rewrite !(EnforceCollectionState_skips st m_itemMapping) by auto. reflexivity. }
  destruct tmap as [m0|].
  2: { rewrite (EnforceCollectionState_skips st m_itemMapping None) by auto.
       cbn [fst]. by rewrite (EnforceCollectionState_skips st m_itemMapping None) by auto. }
  rewrite (EnforceCollectionState_runs st m_itemMapping m0 Hp Hs). cbn [fst].
  apply second_pass_silent; try assumption.
  intros key. by apply Hplain.
Qed.

Lemma reconciliation_idempotent_witness :
  EnforceCollectionState (set_RandomiseStars (GrantItem synced_state "**5") true) m_itemMapping
    (EnforceCollectionState (set_RandomiseStars (GrantItem synced_state "**5") true)
       m_itemMapping (Some {[ToFString "**7" := true; ToFString "DJ2" := false]})).1
  = ((EnforceCollectionState (set_RandomiseStars (GrantItem synced_state "**5") true)
        m_itemMapping (Some {[ToFString "**7" := true; ToFString "DJ2" := false]})).1, []).
Proof.
  assert (Hgranted : ∀ id, id ∈ GrantedItems (set_RandomiseStars (GrantItem synced_state "**5") true)
                           → id = "**5").
  { intros id Hid.
    cbn [set_RandomiseStars GrantItem set_GrantedItems GrantedItems synced_state] in Hid.
    apply elem_of_union in Hid as [Hid|Hid]; [by apply elem_of_singleton in Hid|].
    by apply not_elem_of_empty in Hid. }
  apply (reconciliation_idempotent (set_RandomiseStars (GrantItem synced_state "**5") true)).
  - intros _ id Hid. rewrite (Hgranted id Hid).
    apply (bool_decide_unpack _). vm_compute. exact I.
  - intros id Hid. rewrite (Hgranted id Hid). vm_compute. reflexivity.
  - intros m0 key [= <-] Hkey _.
    apply elem_of_dom in Hkey. rewrite dom_insert_L, dom_singleton_L in Hkey.
    apply elem_of_union in Hkey as [->%elem_of_singleton| ->%elem_of_singleton];
      vm_compute; reflexivity.
Defined.

(** C4 as the specification words it fails when a star sits in
    [GrantedItems] under its mod id: the first pass adds "**5" for "SL5",
    the second removes it (the key "**5" is not granted) and adds it again. *)
Lemma star_mod_id_second_pass_writes :
  (EnforceCollectionState star_mod_id_session m_itemMapping (Some ∅)).2
  = [TMapAdd (ToFString "**5") false]
  ∧ (EnforceCollectionState star_mod_id_session m_itemMapping
       (EnforceCollectionState star_mod_id_session m_itemMapping (Some ∅)).1).2
    = [TMapRemove (ToFString "**5"); TMapAdd (ToFString "**5") false]
  ∧ EnforceCollectionState star_mod_id_session m_itemMapping
      (EnforceCollectionState star_mod_id_session m_itemMapping (Some ∅)).1
    ≠ ((EnforceCollectionState star_mod_id_session m_itemMapping (Some ∅)).1, []).
Proof.
  split; [vm_compute; reflexivity|]. split; [vm_compute; reflexivity|].
  intros Heq. apply (f_equal snd) in Heq. vm_compute in Heq. discriminate Heq.
Qed.

(** C5, as the code has it. For a store key whose translated id the
    registry does not recognise, whatever the store and the session, and
    for every registry that recognises no key with a NUL character (as the
    constructed one): the pass never removes the entry; it keeps the used
    flag, except that with [ReusableTetrominos] on a flag that was [true] is
    reset to [false]; and it creates the entry only when the key is the game
    key of an id in [GrantedItems]. *)
Theorem unrecognised_entries_kept
    (st : ModState) (im : ItemMapping) (m0 : TetrominoMap) (k : FString) :
  (∀ gameKey, 0 ≤ GetLocationId im (FromGameKey im gameKey) → c_str gameKey = gameKey) →
  GetLocationId im (FromGameKey im (FromFString k)) < 0 →
  ∃ m', (EnforceCollectionState st im (Some m0)).1 = Some m'
    ∧ (∀ used, m0 !! k = Some used →
         m' !! k = Some used
         ∨ (ReusableTetrominos st = true ∧ used = true ∧ m' !! k = Some false))
    ∧ (ReusableTetrominos st = false → is_Some (m0 !! k) → m' !! k = m0 !! k)
    ∧ (m0 !! k = None →
       (∀ id, id ∈ GrantedItems st → ToFString (ToGameKey im id) ≠ k) →
       m' !! k = None).
Proof.
  intros Hreg Hunk.
  assert (Hm : k ∉ removed_keys st im m0).
  { intros (gk & Hmark & -> & Hnarrow)%removed_key_marked.
    assert (Hrec : 0 ≤ GetLocationId im (FromGameKey im gk)).
    { unfold marked_for_removal in Hmark.
      destruct (decide (gk = String.EmptyString)); [discriminate Hmark|].
      destruct (Z.ltb_spec (GetLocationId im (FromGameKey im gk)) 0);
        [discriminate Hmark | assumption]. }
    rewrite Hnarrow, (Hreg gk Hrec) in Hunk. lia. }
  destruct (CurrentProgress st) eqn:Hp; [destruct (APSynced st) eqn:Hs|].
  - exists (final_map st im m0).
    rewrite EnforceCollectionState_runs by assumption. split; [reflexivity|].
    split; [|split].
    + intros used Hk. rewrite final_map_lookup, decide_False, Hk by exact Hm. cbn.
      destruct (ReusableTetrominos st), used; auto.
    + intros Hr [used Hk]. rewrite final_map_lookup, decide_False, Hk, Hr by exact Hm.
      reflexivity.
    + intros Hk Hnk. rewrite final_map_lookup, decide_False, Hk by exact Hm.
      rewrite decide_False; [reflexivity|].
      intros (id & Hid & Heq)%elem_of_granted_keys. exact (Hnk id Hid Heq).
  - exists m0. rewrite EnforceCollectionState_skips by auto. cbn [fst]. auto.
  - exists m0. rewrite EnforceCollectionState_skips by auto. cbn [fst]. auto.
Qed.

Lemma unrecognised_entries_kept_witness :
  ∃ m', (EnforceCollectionState (GrantItem synced_state "DJ1") m_itemMapping
           (Some {[ToFString "XYZ" := true; ToFString "DJ2" := false]})).1 = Some m'
    ∧ (∀ used, ({[ToFString "XYZ" := true; ToFString "DJ2" := false]} : TetrominoMap)
               !! ToFString "XYZ" = Some used →
         m' !! ToFString "XYZ" = Some used
         ∨ (ReusableTetrominos (GrantItem synced_state "DJ1") = true ∧ used = true
            ∧ m' !! ToFString "XYZ" = Some false))
    ∧ (ReusableTetrominos (GrantItem synced_state "DJ1") = false →
       is_Some (({[ToFString "XYZ" := true; ToFString "DJ2" := false]} : TetrominoMap)
                !! ToFString "XYZ") →
       m' !! ToFString "XYZ"
       = ({[ToFString "XYZ" := true; ToFString "DJ2" := false]} : TetrominoMap)
         !! ToFString "XYZ")
    ∧ (({[ToFString "XYZ" := true; ToFString "DJ2" := false]} : TetrominoMap)
       !! ToFString "XYZ" = None →
       (∀ id, id ∈ GrantedItems (GrantItem synced_state "DJ1") →
              ToFString (ToGameKey m_itemMapping id) ≠ ToFString "XYZ") →
       m' !! ToFString "XYZ" = None).
Proof.
  apply (unrecognised_entries_kept (GrantItem synced_state "DJ1") m_itemMapping
           {[ToFString "XYZ" := true; ToFString "DJ2" := false]} (ToFString "XYZ")).
  - exact recognised_no_nul.
  - vm_compute. reflexivity.
Defined.

(** C5 as the specification words it fails with [ReusableTetrominos] on:
    the entry "XYZ", which the registry does not recognise, has its used
    flag rewritten. *)
Lemma reusable_reset_touches_unrecognised :
  GetLocationId m_itemMapping (FromGameKey m_itemMapping (FromFString (ToFString "XYZ"))) < 0
  ∧ ({[ToFString "XYZ" := true]} : TetrominoMap) !! ToFString "XYZ" = Some true
  ∧ EnforceCollectionState reusable_session m_itemMapping (Some {[ToFString "XYZ" := true]})
    = (Some {[ToFString "XYZ" := false]}, [SetUsed (ToFString "XYZ") false]).
Proof. vm_compute. repeat split; reflexivity. Qed.

(** A registry that recognises a key with a NUL character makes the pass
    remove an entry it does not recognise: the key 'D' 0x100 narrows to 'D'
    NUL, which that registry translates to "DJ1"; "DJ1" is not granted, and
    the wide form that is removed, cut at the NUL, is the key 'D', whose
    narrow form "D" the registry does not know. *)
Lemma nul_key_removes_unrecognised :
  GetLocationId nul_key_registry
    (FromGameKey nul_key_registry (FromFString [0x44]%positive)) < 0
  ∧ EnforceCollectionState synced_state nul_key_registry
      (Some {[ [0x44; 0x100]%positive := false; [0x44]%positive := true ]})
    = (Some {[ [0x44; 0x100]%positive := false ]}, [TMapRemove [0x44]%positive]).
Proof. split; vm_compute; reflexivity. Qed.

(** A key of 7-bit characters is the wide form of its narrow form. *)
Lemma ascii_key_plain (key : FString) :
  Forall (λ w, (w < 128)%positive) key → plain_key key.
Proof.
  unfold plain_key. induction key as [|w key IH]; intros Hkey; [reflexivity|].
  apply Forall_cons in Hkey as [Hw Hkey]. cbn [FromFString ToFString].
  assert (Hn : widen (narrow w) = N.pos w).
  { unfold widen, narrow.
    rewrite N.mod_small by lia.
    rewrite N_ascii_embedding by lia.
    destruct (N.ltb_spec (N.pos w) 128) as [_|Hge]; [reflexivity | lia]. }
  rewrite Hn, (IH Hkey). reflexivity.
Qed.

(** C8, as the code has it. [GrantItem] leaves [CheckedLocations] as it
    is; [RevokeItem] erases the revoked id from it and leaves every other
    member. *)
Theorem grant_revoke_checked_locations (st : ModState) (tetrominoId : string) :
  CheckedLocations (GrantItem st tetrominoId) = CheckedLocations st
  ∧ CheckedLocations (RevokeItem st tetrominoId) = CheckedLocations st ∖ {[tetrominoId]}
  ∧ (∀ other, other ≠ tetrominoId →
       (other ∈ CheckedLocations (RevokeItem st tetrominoId) ↔ other ∈ CheckedLocations st))
  ∧ GrantedItems (GrantItem st tetrominoId) = {[tetrominoId]} ∪ GrantedItems st
  ∧ GrantedItems (RevokeItem st tetrominoId) = GrantedItems st ∖ {[tetrominoId]}.
Proof.
  split; [reflexivity|]. split; [reflexivity|]. split; [|split; reflexivity].
  intros other Hne. cbn [RevokeItem set_CheckedLocations CheckedLocations].
  rewrite elem_of_difference, elem_of_singleton. tauto.
Qed.

(** C8 as the specification words it fails for [RevokeItem]: revoking a
    checked id removes it from [CheckedLocations]. *)
Lemma revoke_erases_checked_location :
  "DJ1" ∈ CheckedLocations checked_session
  ∧ ("DJ1" ∉ CheckedLocations (RevokeItem checked_session "DJ1"))
  ∧ CheckedLocations (RevokeItem checked_session "DJ1") ≠ CheckedLocations checked_session.
Proof.
  unfold checked_session.
  cbn [RevokeItem set_CheckedLocations CheckedLocations set_GrantedItems synced_state].
  assert (Hgone : ("DJ1" : string) ∉ ({["DJ1"]} ∖ {["DJ1"]} : gset string)).
  { rewrite elem_of_difference, elem_of_singleton. tauto. }
  split; [by apply elem_of_singleton|]. split; [exact Hgone|].
  intros Heq. apply Hgone. rewrite Heq. by apply elem_of_singleton.
Qed.

(** ** Claim on the death link *)

Lemma SetDeath_hook_flag_set st :
  IsDeathLinkDeath st = true →
  PendingDeathLinkSend (SetDeath_hook st) = PendingDeathLinkSend st.
Proof.
  intros Hflag. unfold SetDeath_hook.
  destruct (DeathLinkEnabled st); [|reflexivity]. rewrite Hflag. reflexivity.
Qed.

Lemma ProcessPendingDeathLink_delivered st w hud :
  PendingDeathLinkReceive st = true → delivers w →
  (ProcessPendingDeathLink st w hud).1
  = set_IsDeathLinkDeath (set_PendingDeathLinkReceive st false) true.
Proof.
  intros Hrecv (Hpc & Hpawn & Hdead & Hloc & Hmine & Htp).
  unfold ProcessPendingDeathLink.
  rewrite Hrecv, Hpc, Hpawn, Hdead, Hloc, Hmine, Htp. reflexivity.
Qed.

(** A tick with no inbound death link pending and no send queued does
    nothing. *)
Lemma ProcessDeathLinks_idle st w hud apClient :
  PendingDeathLinkReceive st = false → PendingDeathLinkSend st = false →
  ProcessDeathLinks st w hud apClient = (st, [], []).
Proof.
  intros Hrecv Hsend. unfold ProcessDeathLinks, ProcessPendingDeathLink.
  rewrite Hrecv. cbn [negb]. destruct (DeathLinkEnabled st); by rewrite Hsend.
Qed.

Lemma ProcessDeathLinks_idle_ticks (ticks : list (WorldView * bool * bool)) st :
  PendingDeathLinkReceive st = false → PendingDeathLinkSend st = false →
  foldl (λ s t, (ProcessDeathLinks s t.1.1 t.1.2 t.2).1.1) st ticks = st.
Proof.
  intros Hrecv Hsend. induction ticks as [|t ticks IH]; [reflexivity|].
  cbn [foldl]. rewrite ProcessDeathLinks_idle by assumption. exact IH.
Qed.

(** C6, as the code has it. When the hook observes a local death while
    [IsDeathLinkDeath] is set, it queues no outbound send
    ([PendingDeathLinkSend] is left as it was); with [DeathLinkEnabled] on,
    that one observation clears the flag, and the next observed death
    queues a send; with [DeathLinkEnabled] off the hook returns before
    reading the flag and changes nothing. Hence, after a tick that delivers
    an inbound death link and any number of ticks in which no other inbound
    death link is processed, the death it causes queues no send and the
    next tick sends nothing. *)
Theorem death_link_echo_suppressed (st : ModState) :
  IsDeathLinkDeath st = true →
  PendingDeathLinkSend (SetDeath_hook st) = PendingDeathLinkSend st
  ∧ (DeathLinkEnabled st = true →
       IsDeathLinkDeath (SetDeath_hook st) = false
       ∧ PendingDeathLinkSend (SetDeath_hook (SetDeath_hook st)) = true)
  ∧ (DeathLinkEnabled st = false → SetDeath_hook st = st)
  ∧ (∀ (st0 : ModState) (w w' : WorldView) (hud apClient : bool)
       (ticks : list (WorldView * bool * bool)),
       DeathLinkEnabled st0 = true → PendingDeathLinkReceive st0 = true →
       delivers w →
       let st1 := (ProcessDeathLinks st0 w hud apClient).1.1 in
       let st2 :=
         SetDeath_hook
           (foldl (λ s t, (ProcessDeathLinks s t.1.1 t.1.2 t.2).1.1) st1 ticks) in
       IsDeathLinkDeath st1 = true
       ∧ PendingDeathLinkSend st2 = false
       ∧ IsDeathLinkDeath st2 = false
       ∧ (ProcessDeathLinks st2 w' hud apClient).2 = []).
Proof.
  intros Hflag. split; [by apply SetDeath_hook_flag_set|]. split; [|split].
  - intros Hen. unfold SetDeath_hook. rewrite Hen, Hflag. cbn. rewrite Hen. cbn. auto.
  - intros Hen. unfold SetDeath_hook. rewrite Hen. reflexivity.
  - clear st Hflag. intros st0 w w' hud apClient ticks Hen Hrecv Hdel st1 st2.
    assert (Hst1 : st1 = set_PendingDeathLinkSend
                           (set_IsDeathLinkDeath (set_PendingDeathLinkReceive st0 false) true)
                           false).
    { unfold st1, ProcessDeathLinks. rewrite Hen.
      pose proof (ProcessPendingDeathLink_delivered st0 w hud Hrecv Hdel) as Hp.
      destruct (ProcessPendingDeathLink st0 w hud) as [sta msgs]. cbn [fst] in Hp.
      subst sta. cbn [PendingDeathLinkSend set_IsDeathLinkDeath set_PendingDeathLinkReceive].
      destruct (PendingDeathLinkSend st0) eqn:Hps; [reflexivity|].
      cbn [fst]. destruct st0; cbn in *. subst. reflexivity. }
    assert (Hst2 : st2 = set_IsDeathLinkDeath st1 false).
    { unfold st2. rewrite ProcessDeathLinks_idle_ticks by (rewrite Hst1; reflexivity).
      rewrite Hst1. unfold SetDeath_hook. cbn. rewrite Hen. reflexivity. }
    split; [by rewrite Hst1|]. rewrite Hst2, Hst1.
    split; [reflexivity|]. split; [reflexivity|].
    unfold ProcessDeathLinks. cbn. rewrite Hen.
    unfold ProcessPendingDeathLink. cbn. reflexivity.
Qed.

Lemma death_link_echo_suppressed_witness :
  PendingDeathLinkSend (SetDeath_hook link_session) = PendingDeathLinkSend link_session
  ∧ IsDeathLinkDeath (SetDeath_hook link_session) = false
  ∧ PendingDeathLinkSend (SetDeath_hook (SetDeath_hook link_session)) = true
  ∧ (ProcessDeathLinks
       (SetDeath_hook
          (foldl (λ s t, (ProcessDeathLinks s t.1.1 t.1.2 t.2).1.1)
             (ProcessDeathLinks inbound_session mine_world true true).1.1
             [(mine_world, true, true); (mine_world, false, true)]))
       mine_world true true).2 = [].
Proof.
  destruct (death_link_echo_suppressed link_session eq_refl)
    as (Hsend & Hclear & _ & Hscenario).
  split; [exact Hsend|]. split; [exact (proj1 (Hclear eq_refl))|].
  split; [exact (proj2 (Hclear eq_refl))|].
  assert (Hdel : delivers mine_world) by (repeat split).
  exact (proj2 (proj2 (proj2
           (Hscenario inbound_session mine_world mine_world true true
              [(mine_world, true, true); (mine_world, false, true)]
              eq_refl eq_refl Hdel)))).
Defined.

(** C6 as the specification words it fails with [DeathLinkEnabled] off:
    the hook returns at once and the flag stays set. *)
Lemma disabled_link_keeps_flag :
  IsDeathLinkDeath disabled_link_session = true
  ∧ IsDeathLinkDeath (SetDeath_hook disabled_link_session) = true
  ∧ SetDeath_hook disabled_link_session = disabled_link_session.
Proof. repeat split; reflexivity. Qed.

(** The flag is consumed by the hook, but it can be cleared before: when,
    after the delivering tick and before the hook observes the death,
    another inbound death link is processed and its mine cannot be placed,
    [ProcessPendingDeathLink] sets the flag to false, and the hook queues a
    send for the death that the first link caused. *)
Lemma second_inbound_clears_flag :
  IsDeathLinkDeath (ProcessDeathLinks inbound_session mine_world true true).1.1 = true
  ∧ IsDeathLinkDeath
      (ProcessDeathLinks
         (set_PendingDeathLinkReceive
            (ProcessDeathLinks inbound_session mine_world true true).1.1 true)
         (mkWorldView true true false true true false) true true).1.1 = false
  ∧ PendingDeathLinkSend
      (SetDeath_hook
         (ProcessDeathLinks
            (set_PendingDeathLinkReceive
               (ProcessDeathLinks inbound_session mine_world true true).1.1 true)
            (mkWorldView true true false true true false) true true).1.1) = true.
Proof. repeat split; reflexivity. Qed.

(** ** Debounce of the visibility loop *)

(** The target of an id is read off its classification. *)
Lemma target_classification (col col' : Collection) (id : string) :
  classification col' id = classification col id → target col' id = target col id.
Proof. unfold classification, target. by intros [= -> -> ->]. Qed.

(** [debounced] looks at the queries through the target of the id alone. *)
Lemma debounced_classified (col col' : Collection) (id : string) (f : Step) :
  classification col' id = classification col id →
  debounced col' id f → debounced col id f.
Proof.
  intros Hclass%target_classification Hf st. unfold settled in *.
  rewrite <- Hclass. exact (Hf st).
Qed.

Lemma settled_classified (col col' : Collection) (st : LoopState) (id : string) :
  classification col' id = classification col id →
  settled col st id → settled col' st id.
Proof. intros Hclass%target_classification. unfold settled. by rewrite Hclass. Qed.

Section VisibilityLoop.

Variable col : Collection.

Lemma calls_for_app id (c1 c2 : list PresentationCall) :
  calls_for id (c1 ++ c2) = (calls_for id c1 + calls_for id c2)%nat.
Proof. unfold calls_for. by rewrite filter_app, length_app. Qed.

Lemma calls_for_nil id : calls_for id [] = 0%nat.
Proof. reflexivity. Qed.

Lemma calls_for_one id (c : PresentationCall) :
  calls_for id [c] = if decide (item_id (call_item c) = Some id) then 1%nat else 0%nat.
Proof.
  unfold calls_for. destruct (decide (item_id (call_item c) = Some id)) as [H|H].
  - by rewrite filter_cons_True.
  - by rewrite filter_cons_False.
Qed.

Lemma debounced_skip id : debounced col id skip.
Proof. intros st. unfold skip, calls_for. simpl. split; [auto|]. split; [lia|]. lia. Qed.

Lemma debounced_and_then id (f g : Step) :
  debounced col id f → debounced col id g → debounced col id (f >-> g).
Proof.
  intros Hf Hg st. unfold and_then. cbn [fst snd]. rewrite calls_for_app.
  destruct (Hf st) as (Hf1 & Hf2 & Hf3).
  destruct (Hg (f st).2) as (Hg1 & Hg2 & Hg3).
  split; [|split].
  - intros Hs. destruct (Hf1 Hs) as [-> Hs1]. destruct (Hg1 Hs1) as [-> Hs2]. auto.
  - destruct (decide (1 ≤ calls_for id (f st).1)%nat) as [Hone|Hnone].
    + destruct (Hg1 (Hf3 Hone)) as [-> _]. lia.
    + lia.
  - intros Hsum. destruct (decide (1 ≤ calls_for id (f st).1)%nat) as [Hone|Hnone].
    + by destruct (Hg1 (Hf3 Hone)).
    + apply Hg3. lia.
Qed.

(** No call for the id, and what is applied for it is as before. *)
Local Ltac quiet :=
  split; [intros ?; split; [reflexivity | assumption]
         | split; [lia | intros ?; lia]].

(** One call for the id, which is settled afterwards. *)
Local Ltac one_call :=
  split; [intros [Hs|Hs]; [discriminate Hs | contradiction]
         | split; [lia | intros _; right; reflexivity]].

Lemma debounced_visibility_item id pv item : debounced col id (visibility_item col pv item).
Proof.
  intros st. unfold visibility_item, settled, target.
  destruct (item_valid item); cbn [negb fst snd]; [|rewrite calls_for_nil; quiet].
  destruct (item_id item) as [id'|] eqn:Hid; cbn [fst snd]; [|rewrite calls_for_nil; quiet].
  destruct (decide (id' = id)) as [->|Hne].
  - (* the actor carries the id *)
    destruct (ShouldBeCollectable col id).
    + destruct (decide (VisibilityApplied st !! id = Some visible)) as [Hv|Hv];
        cbn [fst snd VisibilityApplied].
      * rewrite calls_for_nil. quiet.
      * rewrite calls_for_one. cbn [call_item]. rewrite Hid.
        rewrite decide_True by reflexivity. rewrite lookup_insert_eq. one_call.
    + destruct (IsLocationChecked col id && negb (IsGranted col id)).
      * destruct (decide (VisibilityApplied st !! id = Some hidden)) as [Hv|Hv];
          cbn [fst snd VisibilityApplied].
        -- rewrite calls_for_nil. quiet.
        -- rewrite calls_for_one. cbn [call_item]. rewrite Hid.
           rewrite decide_True by reflexivity. rewrite lookup_insert_eq. one_call.
      * cbn [fst snd]. rewrite calls_for_nil. quiet.
  - (* the actor carries another id *)
    assert (Hother : ∀ c : PresentationCall, call_item c = item → calls_for id [c] = 0%nat).
    { intros c Hc. rewrite calls_for_one, Hc, Hid.
      rewrite decide_False; [reflexivity | congruence]. }
    destruct (ShouldBeCollectable col id').
    + destruct (decide (VisibilityApplied st !! id' = Some visible));
        cbn [fst snd VisibilityApplied].
      * rewrite calls_for_nil. quiet.
      * rewrite (Hother (SetTetrominoVisible item) eq_refl).
        rewrite lookup_insert_ne by done. quiet.
    + destruct (IsLocationChecked col id' && negb (IsGranted col id')).
      * destruct (decide (VisibilityApplied st !! id' = Some hidden));
          cbn [fst snd VisibilityApplied].
        -- rewrite calls_for_nil. quiet.
        -- rewrite (Hother (SetTetrominoHidden item) eq_refl).
           rewrite lookup_insert_ne by done. quiet.
      * cbn [fst snd]. rewrite calls_for_nil. quiet.
Qed.

Lemma debounced_visibility_items id pv items :
  debounced col id (visibility_items col pv items).
Proof.
  induction items as [|item rest IH]; simpl.
  - apply debounced_skip.
  - apply debounced_and_then; [apply debounced_visibility_item | exact IH].
Qed.

Lemma debounced_visibility_tick id t : debounced col id (visibility_tick col t).
Proof.
  unfold visibility_tick. destruct (0 <? LevelTransitionCooldown t).
  - apply debounced_skip.
  - apply debounced_visibility_items.
Qed.

(** An actor that is valid and has an id leaves that id settled. *)
Lemma visibility_item_settles id pv item st :
  item_valid item = true → item_id item = Some id →
  settled col (visibility_item col pv item st).2 id.
Proof.
  intros Hv Hid. unfold visibility_item, settled, target. rewrite Hv, Hid. cbn [negb].
  destruct (ShouldBeCollectable col id).
  - destruct (decide (VisibilityApplied st !! id = Some visible)) as [Ha|Ha];
      cbn [snd VisibilityApplied]; right; [exact Ha | apply lookup_insert_eq].
  - destruct (IsLocationChecked col id && negb (IsGranted col id)).
    + destruct (decide (VisibilityApplied st !! id = Some hidden)) as [Ha|Ha];
        cbn [snd VisibilityApplied]; right; [exact Ha | apply lookup_insert_eq].
    + by left.
Qed.

Lemma visibility_items_settle id pv items st :
  (∃ item, item ∈ items ∧ item_valid item = true ∧ item_id item = Some id) →
  settled col (visibility_items col pv items st).2 id.
Proof.
  revert st. induction items as [|item rest IH]; intros st (it & Hin & Hv & Hid).
  - by apply elem_of_nil in Hin.
  - simpl. unfold and_then. cbn [snd].
    apply elem_of_cons in Hin as [->|Hin].
    + destruct (debounced_visibility_items id pv rest (visibility_item col pv item st).2)
        as (Hquiet & _ & _).
      apply Hquiet. by apply visibility_item_settles.
    + apply IH. by exists it.
Qed.

(** On a settled id the body makes no call and leaves the table as it is. *)
Lemma visibility_item_silent id pv item st :
  item_valid item = true → item_id item = Some id → settled col st id →
  (visibility_item col pv item st).1 = []
  ∧ VisibilityApplied (visibility_item col pv item st).2 = VisibilityApplied st.
Proof.
  intros Hv Hid Hs. unfold visibility_item. rewrite Hv, Hid. cbn [negb].
  unfold settled, target in Hs.
  destruct (ShouldBeCollectable col id).
  - destruct Hs as [Hs|Hs]; [discriminate Hs|]. by rewrite decide_True.
  - destruct (IsLocationChecked col id && negb (IsGranted col id)); [|done].
    destruct Hs as [Hs|Hs]; [discriminate Hs|]. by rewrite decide_True.
Qed.

Lemma visibility_items_silent pv items st :
  (∀ item id, item ∈ items → item_valid item = true → item_id item = Some id →
              settled col st id) →
  (visibility_items col pv items st).1 = [].
Proof.
  revert st. induction items as [|item rest IH]; intros st Hall; [reflexivity|].
  simpl. unfold and_then. cbn [fst snd].
  assert (Hstep : (visibility_item col pv item st).1 = []
                  ∧ VisibilityApplied (visibility_item col pv item st).2
                    = VisibilityApplied st).
  { destruct (item_valid item) eqn:Hv.
    - destruct (item_id item) as [id|] eqn:Hid.
      + apply (visibility_item_silent id); auto. apply (Hall item); auto.
        apply list_elem_of_here.
      + unfold visibility_item. by rewrite Hv, Hid.
    - unfold visibility_item. by rewrite Hv. }
  destruct Hstep as [-> Happ]. rewrite IH; [reflexivity|].
  intros it id Hin Hv Hid. unfold settled. rewrite Happ.
  apply (Hall it); auto. by apply list_elem_of_further.
Qed.

End VisibilityLoop.

Lemma debounced_visibility_loop (col : Collection) (id : string)
    (runs : list (Collection * LoopTick)) :
  Forall (λ run, classification run.1 id = classification col id) runs →
  debounced col id (visibility_loop runs).
Proof.
  induction runs as [|run later IH]; intros Hruns; simpl.
  - apply debounced_skip.
  - apply Forall_cons in Hruns as [Hrun Hlater].
    apply debounced_and_then; [|by apply IH].
    apply (debounced_classified col run.1); [exact Hrun|].
    apply debounced_visibility_tick.
Qed.

(** ** Claim on the visibility loop *)

(** C9. For an id whose classification (what the three queries answer
    for it) is the same in a run of the loop body and in every later run,
    whatever the classification of the other ids does, whatever the table
    and the store hold at the start and whatever actors the runs find: over
    that run and any number of later runs, the calls [SetTetrominoVisible]
    and [SetTetrominoHidden] made for the actors of the id number at most
    one; when the first run is not skipped by the cooldown and finds a valid
    actor of the id, the later runs make no call for the id; and running the
    body again on the same actors, classified as in the first run, makes no
    call at all. *)
Theorem visibility_non_thrash
    (col : Collection) (st : LoopState) (tick : LoopTick)
    (later : list (Collection * LoopTick)) (id : string) :
  Forall (λ run, classification run.1 id = classification col id) later →
  let r1 := visibility_tick col tick st in
  let r2 := visibility_loop later r1.2 in
  (calls_for id (r1.1 ++ r2.1) ≤ 1)%nat
  ∧ (LevelTransitionCooldown tick ≤ 0 →
     (∃ item, item ∈ found_items tick ∧ item_valid item = true ∧ item_id item = Some id) →
     calls_for id r2.1 = 0%nat)
  ∧ (LevelTransitionCooldown tick ≤ 0 →
     ∀ col',
       (∀ item id', item ∈ found_items tick → item_id item = Some id' →
                    classification col' id' = classification col id') →
       (visibility_tick col' tick r1.2).1 = []).
Proof.
  intros Hlater r1 r2. split; [|split].
  - assert (Hruns : Forall (λ run, classification run.1 id = classification col id)
                      ((col, tick) :: later)) by (by apply Forall_cons).
    exact (proj1 (proj2 (debounced_visibility_loop col id ((col, tick) :: later) Hruns st))).
  - intros Hcd Hitem.
    destruct (debounced_visibility_loop col id later Hlater r1.2) as (Hquiet & _ & _).
    apply Hquiet.
    unfold r1, visibility_tick.
    destruct (Z.ltb_spec 0 (LevelTransitionCooldown tick)) as [Hpos|_]; [lia|].
    by apply visibility_items_settle.
  - intros Hcd col' Hsame. unfold r1, visibility_tick.
    destruct (Z.ltb_spec 0 (LevelTransitionCooldown tick)) as [Hpos|_]; [lia|].
    apply visibility_items_silent. intros item id' Hin Hv Hid.
    apply (settled_classified col col'); [by apply (Hsame item)|].
    apply visibility_items_settle. by exists item.
Qed.

(** "DJ1" keeps its classification while "DJ2" is granted between the
    runs: one call for "DJ1" in the first run, none in the three later
    ones. *)
Lemma visibility_non_thrash_witness :
  (visibility_tick sample_collection sample_tick sample_loop_state).1
  = [SetTetrominoVisible (mkTetrominoItem 1 true (Some "DJ1"));
     SetTetrominoHidden (mkTetrominoItem 2 true (Some "DJ2"))]
  ∧ calls_for "DJ1"
      (visibility_loop
         [(sample_collection, sample_tick); (later_collection, sample_tick);
          (later_collection, sample_tick)]
         (visibility_tick sample_collection sample_tick sample_loop_state).2).1
    = 0%nat
  ∧ (visibility_tick sample_collection sample_tick
       (visibility_tick sample_collection sample_tick sample_loop_state).2).1 = [].
Proof.
  destruct (visibility_non_thrash sample_collection sample_loop_state sample_tick
              [(sample_collection, sample_tick); (later_collection, sample_tick);
               (later_collection, sample_tick)] "DJ1")
    as (_ & Hlater & Hagain).
  - repeat (apply Forall_cons; split; [vm_compute; reflexivity|]). constructor.
  - split; [vm_compute; reflexivity|]. split.
    + apply Hlater; [cbn; lia|].
      exists (mkTetrominoItem 1 true (Some "DJ1")).
      split; [apply list_elem_of_here | by split].
    + apply Hagain; [cbn; lia|]. intros item id' _ _. reflexivity.
Defined.

(** ** ItemMapping: key translation and location tables *)

Lemma game_keys_translate_back :
  map_Forall (λ gameKey modId,
                m_modIdToGameKey m_itemMapping !! modId = Some gameKey
                ∧ IsStar gameKey = true)
             (m_gameKeyToModId m_itemMapping).
Proof. apply (bool_decide_unpack _). vm_compute. exact I. Qed.

(** X1. The two key translations undo each other: [FromGameKey] after
    [ToGameKey] gives the id back unless the id is itself a game key
    ("**N"), [ToGameKey] after [FromGameKey] gives the key back unless
    the key is itself a star's mod id, and an id that [IsStar] rejects is
    left alone by both. *)
Theorem key_translation_round_trip (id : string) :
  (m_gameKeyToModId m_itemMapping !! id = None →
   FromGameKey m_itemMapping (ToGameKey m_itemMapping id) = id)
  ∧ (m_modIdToGameKey m_itemMapping !! id = None →
     ToGameKey m_itemMapping (FromGameKey m_itemMapping id) = id)
  ∧ (IsStar id = false →
     ToGameKey m_itemMapping id = id ∧ FromGameKey m_itemMapping id = id).
Proof.
  unfold ToGameKey, FromGameKey. split; [|split].
  - intros Hg.
    destruct (m_modIdToGameKey m_itemMapping !! id) as [gk|] eqn:Hm; simpl.
    + destruct (star_ids_translate id gk Hm) as [-> _]. reflexivity.
    + by rewrite Hg.
  - intros Hm.
    destruct (m_gameKeyToModId m_itemMapping !! id) as [s|] eqn:Hg; simpl.
    + destruct (game_keys_translate_back id s Hg) as [-> _]. reflexivity.
    + by rewrite Hm.
  - intros Hstar.
    destruct (m_modIdToGameKey m_itemMapping !! id) as [gk|] eqn:Hm.
    { destruct (star_ids_translate id gk Hm) as [_ Hs]. congruence. }
    destruct (m_gameKeyToModId m_itemMapping !! id) as [s|] eqn:Hg.
    { destruct (game_keys_translate_back id s Hg) as [_ Hs]. congruence. }
    by split.
Qed.

Lemma key_translation_round_trip_witness :
  FromGameKey m_itemMapping (ToGameKey m_itemMapping "SZ24") = "SZ24"
  ∧ ToGameKey m_itemMapping (FromGameKey m_itemMapping "**24") = "**24"
  ∧ ToGameKey m_itemMapping "DJ3" = "DJ3" ∧ FromGameKey m_itemMapping "DJ3" = "DJ3".
Proof.
  split; [apply (proj1 (key_translation_round_trip "SZ24")); vm_compute; reflexivity|].
  split; [apply (proj1 (proj2 (key_translation_round_trip "**24"))); vm_compute;
          reflexivity|].
  apply (proj2 (proj2 (key_translation_round_trip "DJ3"))). vm_compute. reflexivity.
Defined.

Lemma location_names_numbered :
  map_Forall (λ name locId,
                m_locationIdToName m_itemMapping !! locId = Some name
                ∧ BASE_LOCATION_ID ≤ locId < BASE_LOCATION_ID + 144)
             (m_locationNameToId m_itemMapping).
Proof. apply (bool_decide_unpack _). vm_compute. exact I. Qed.

Lemma location_ids_named :
  map_Forall (λ locId name,
                m_locationNameToId m_itemMapping !! name = Some locId
                ∧ name ≠ String.EmptyString)
             (m_locationIdToName m_itemMapping).
Proof. apply (bool_decide_unpack _). vm_compute. exact I. Qed.

Lemma Some_eq_sym {A} (a b : A) : Some a = Some b → b = a.
Proof. by intros [= ->]. Qed.

Lemma location_ids_in_list_order :
  GetLocationId m_itemMapping <$> all_location_names
  = (λ i : nat, BASE_LOCATION_ID + Z.of_nat i) <$> seq 0 144.
Proof. vm_compute. reflexivity. Qed.

(** X2. The location tables of the registry are each other's inverse:
    a name either has no location ([GetLocationId] gives -1) or has one in
    [BASE_LOCATION_ID .. BASE_LOCATION_ID + 143] that [GetLocationName]
    maps back to it; a location id either has no name ([GetLocationName]
    gives the empty string) or has one that [GetLocationId] maps back; and
    the ids follow the order of the three lists, tetrominoes, purple
    sigils, stars. *)
Theorem location_tables_inverse :
  (∀ name : string,
     GetLocationId m_itemMapping name = -1
     ∨ (BASE_LOCATION_ID ≤ GetLocationId m_itemMapping name < BASE_LOCATION_ID + 144
        ∧ GetLocationName m_itemMapping (GetLocationId m_itemMapping name) = name))
  ∧ (∀ locId : Z,
       GetLocationName m_itemMapping locId = String.EmptyString
       ∨ GetLocationId m_itemMapping (GetLocationName m_itemMapping locId) = locId)
  ∧ (∀ (i : nat) (name : string),
       all_location_names !! i = Some name →
       GetLocationId m_itemMapping name = BASE_LOCATION_ID + Z.of_nat i).
Proof.
  split; [|split].
  - intros name. unfold GetLocationId, GetLocationName.
    destruct (m_locationNameToId m_itemMapping !! name) as [locId|] eqn:Hn; simpl;
      [right | by left].
    destruct (location_names_numbered name locId Hn) as [Hback Hrange].
    split; [exact Hrange|]. by rewrite Hback.
  - intros locId. unfold GetLocationId, GetLocationName.
    destruct (m_locationIdToName m_itemMapping !! locId) as [name|] eqn:Hi; simpl;
      [right | by left].
    destruct (location_ids_named locId name Hi) as [Hback _]. by rewrite Hback.
  - intros i name Hi.
    assert (Hl : (GetLocationId m_itemMapping <$> all_location_names) !! i
                 = Some (GetLocationId m_itemMapping name)).
    { by rewrite list_lookup_fmap, Hi. }
    rewrite location_ids_in_list_order, list_lookup_fmap in Hl.
    destruct (seq 0 144 !! i) as [i'|] eqn:Hs; [|discriminate Hl].
    apply lookup_seq in Hs as [-> _]. simpl in Hl.
    exact (Some_eq_sym _ _ Hl).
Qed.

Lemma location_tables_inverse_witness :
  GetLocationId m_itemMapping "DJ3" = BASE_LOCATION_ID + Z.of_nat 0
  ∧ GetLocationId m_itemMapping "SL5" = BASE_LOCATION_ID + Z.of_nat 114.
Proof.
  split; apply (proj2 (proj2 location_tables_inverse)); vm_compute; reflexivity.
Defined.
(** ** ItemMapping: the id lists, display names and categories *)

Lemma StronglySorted_le_NoDup (l : list Z) :
  StronglySorted Z.le l → NoDup l → StronglySorted Z.lt l.
Proof.
  induction l as [|x l IH]; intros Hs Hnd; [constructor|].
  apply StronglySorted_inv in Hs as [Hs Hall].
  apply NoDup_cons in Hnd as [Hx Hl]. constructor; [by apply IH|].
  apply Forall_forall. intros y Hy.
  rewrite Forall_forall in Hall. specialize (Hall y Hy).
  assert (x ≠ y) by (intros ->; contradiction). lia.
Qed.

Lemma sort_ids_spec (ids : list Z) :
  NoDup ids →
  StronglySorted Z.lt (sort_ids ids) ∧ ∀ x, x ∈ sort_ids ids ↔ x ∈ ids.
Proof.
  intros Hnd. unfold sort_ids.
  assert (Hperm : merge_sort Z.le ids ≡ₚ ids) by apply merge_sort_Permutation.
  split; [|intros x; by rewrite Hperm].
  apply StronglySorted_le_NoDup; [|by rewrite Hperm].
  apply StronglySorted_merge_sort.
  - intros x y z. apply Z.le_trans.
  - intros x y. destruct (Z.le_ge_cases x y); auto.
Qed.

(** X3. [GetAllItemIds] and [GetAllLocationIds] of any registry list
    exactly the ids that have an entry, each once, in strictly ascending
    order; for the constructed registry these are the 21 item ids from
    0x540000 on and the 144 location ids from 0x540000 on. *)
Theorem all_ids_sorted_and_complete (im : ItemMapping) :
  (StronglySorted Z.lt (GetAllItemIds im)
   ∧ ∀ id, id ∈ GetAllItemIds im ↔ is_Some (m_apItemIdToPrefix im !! id))
  ∧ (StronglySorted Z.lt (GetAllLocationIds im)
     ∧ ∀ id, id ∈ GetAllLocationIds im ↔ is_Some (m_locationIdToName im !! id))
  ∧ GetAllItemIds m_itemMapping = (λ i : nat, BASE_ITEM_ID + Z.of_nat i) <$> seq 0 21
  ∧ GetAllLocationIds m_itemMapping
    = (λ i : nat, BASE_LOCATION_ID + Z.of_nat i) <$> seq 0 144.
Proof.
  assert (Hkeys : ∀ (m : gmap Z string),
            StronglySorted Z.lt (sort_ids (map_to_list m).*1)
            ∧ ∀ id, id ∈ sort_ids (map_to_list m).*1 ↔ is_Some (m !! id)).
  { intros m. destruct (sort_ids_spec (map_to_list m).*1) as [Hs Hin].
    { apply NoDup_fst_map_to_list. }
    split; [exact Hs|]. intros id. rewrite Hin, list_elem_of_fmap. split.
    - intros ([id' name] & -> & Hel). apply elem_of_map_to_list in Hel. by exists name.
    - intros [name Hname]. exists (id, name). split; [reflexivity|].
      by apply elem_of_map_to_list. }
  split; [apply Hkeys|]. split; [apply Hkeys|].
  split; vm_compute; reflexivity.
Qed.

(** Two item types never share a prefix. *)
Lemma item_prefix_injective (id1 id2 : Z) (prefix : string) :
  m_apItemIdToPrefix m_itemMapping !! id1 = Some prefix →
  m_apItemIdToPrefix m_itemMapping !! id2 = Some prefix →
  id1 = id2.
Proof.
  assert (H : map_Forall (λ i1 p1,
                map_Forall (λ i2 p2, p1 = p2 → i1 = i2)
                           (m_apItemIdToPrefix m_itemMapping))
              (m_apItemIdToPrefix m_itemMapping)).
  { apply (bool_decide_unpack _). vm_compute. exact I. }
  intros H1 H2. exact (H id1 prefix H1 id2 prefix H2 eq_refl).
Qed.

Lemma display_names_of_sequences :
  map_Forall (λ _ prefix,
                prefix = "**"
                ∨ (m_prefixDisplayNames !! prefix ≠ None
                   ∧ Forall (λ t, ExtractPrefix t = prefix)
                       (default [] (m_tetrominoSequences m_itemMapping !! prefix))))
             (m_apItemIdToPrefix m_itemMapping).
Proof. apply (bool_decide_unpack _). vm_compute. exact I. Qed.

Lemma display_names_given :
  map_Forall (λ _ prefix,
                ∃ name, m_prefixDisplayNames !! prefix = Some name
                        ∧ name ≠ String.EmptyString)
             (m_apItemIdToPrefix m_itemMapping).
Proof.
  assert (H : map_Forall (λ _ prefix,
                is_Some (m_prefixDisplayNames !! prefix)
                ∧ m_prefixDisplayNames !! prefix ≠ Some String.EmptyString)
              (m_apItemIdToPrefix m_itemMapping)).
  { apply (bool_decide_unpack _). vm_compute. exact I. }
  intros id prefix Hid. destruct (H id prefix Hid) as [[name Hname] Hne].
  exists name. split; [exact Hname|]. intros ->. exact (Hne Hname).
Qed.

Lemma star_sequence_unnamed :
  Forall (λ t, GetDisplayNameForTetromino t = String.EmptyString)
         (default [] (m_tetrominoSequences m_itemMapping !! "**"))
  ∧ Forall (λ t, GetDisplayNameForTetromino t = String.EmptyString) ALL_STARS.
Proof. split; apply (bool_decide_unpack _); vm_compute; exact I. Qed.

Lemma ResolveNextItem_in_sequence im apItemId t im' :
  ResolveNextItem im apItemId = Some (Some t, im') →
  ∃ prefix, m_apItemIdToPrefix im !! apItemId = Some prefix
            ∧ t ∈ default [] (m_tetrominoSequences im !! prefix).
Proof.
  unfold ResolveNextItem.
  destruct (m_apItemIdToPrefix im !! apItemId) as [prefix|]; [|discriminate].
  destruct (m_tetrominoSequences im !! prefix) as [[|t0 tets]|] eqn:Hseq; try discriminate.
  destruct (decide _); [discriminate|].
  destruct (_ <? _); [discriminate|]. destruct (_ <? _); [discriminate|].
  destruct (_ !! Z.to_nat _) as [t'|] eqn:Ht; [|discriminate].
  intros [= -> _]. exists prefix. split; [reflexivity|].
  rewrite Hseq. simpl. eapply list_elem_of_lookup_2. exact Ht.
Qed.

(** X4. Every item type of the registry has a display name. The name
    [GetDisplayNameForTetromino] gives for what a grant resolved to is the
    name [GetDisplayName] gives for the granted item type, for every type
    but the star: a star resolves to a game key "**N", which has no letter
    prefix, and gets the empty name (as do the stars' mod ids). *)
Theorem display_names_agree (counts : gmap string Z) (apItemId : Z) (t : string)
    (im' : ItemMapping) :
  ResolveNextItem (set_receivedCounts m_itemMapping counts) apItemId = Some (Some t, im') →
  GetDisplayName m_itemMapping apItemId ≠ String.EmptyString
  ∧ (apItemId ≠ 0x540014 →
     GetDisplayNameForTetromino t = GetDisplayName m_itemMapping apItemId)
  ∧ (apItemId = 0x540014 →
     GetDisplayName m_itemMapping apItemId = "Star"
     ∧ GetDisplayNameForTetromino t = String.EmptyString).
Proof.
  intros Hres.
  destruct (ResolveNextItem_in_sequence _ _ _ _ Hres) as (prefix & Hid & Hin).
  change (m_apItemIdToPrefix m_itemMapping !! apItemId = Some prefix) in Hid.
  change (t ∈ default [] (m_tetrominoSequences m_itemMapping !! prefix)) in Hin.
  destruct (display_names_given apItemId prefix Hid) as (name & Hname & Hne).
  unfold GetDisplayName. rewrite Hid, Hname. simpl.
  split; [exact Hne|]. split.
  - intros Hnot.
    destruct (display_names_of_sequences apItemId prefix Hid) as [->|[_ Hall]].
    + exfalso. apply Hnot.
      assert (Hstar : m_apItemIdToPrefix m_itemMapping !! 0x540014 = Some "**")
        by (vm_compute; reflexivity).
      exact (item_prefix_injective apItemId 0x540014 "**" Hid Hstar).
    + rewrite Forall_forall in Hall. unfold GetDisplayNameForTetromino.
      rewrite (Hall t Hin), Hname. reflexivity.
  - intros ->.
    assert (Hstar : m_apItemIdToPrefix m_itemMapping !! 0x540014 = Some "**")
      by (vm_compute; reflexivity).
    rewrite Hstar in Hid. injection Hid as <-.
    split.
    + assert (Hn : m_prefixDisplayNames !! "**" = Some "Star") by (vm_compute; reflexivity).
      rewrite Hn in Hname. by injection Hname as <-.
    + destruct star_sequence_unnamed as [Hall _].
      rewrite Forall_forall in Hall. by apply Hall.
Qed.

Lemma display_names_agree_witness :
  GetDisplayName m_itemMapping 0x540005 ≠ String.EmptyString
  ∧ (0x540005 ≠ 0x540014 →
     GetDisplayNameForTetromino "MT3" = GetDisplayName m_itemMapping 0x540005)
  ∧ (0x540005 = 0x540014 →
     GetDisplayName m_itemMapping 0x540005 = "Star"
     ∧ GetDisplayNameForTetromino "MT3" = String.EmptyString).
Proof.
  apply (display_names_agree {["MT" := 2]} 0x540005 "MT3"
           (set_receivedCounts (set_receivedCounts m_itemMapping {["MT" := 2]})
              (<["MT" := 2 + 1]> {["MT" := 2]}))).
  rewrite (ResolveNextItem_known _ 0x540005 "MT"
             ["MT1"; "MT2"; "MT3"; "MT4"; "MT5"; "MT6"; "MT7"; "MT8"; "MT9"; "MT10"] 2).
  - reflexivity.
  - vm_compute. reflexivity.
  - vm_compute. reflexivity.
  - discriminate.
  - vm_compute. discriminate.
  - vm_compute. reflexivity.
  - vm_compute. reflexivity.
Defined.
Lemma categories_of_locations :
  map_Forall (λ name _,
                IsPurpleSigil name = bool_decide (name ∈ ALL_PURPLE_SIGILS)
                ∧ IsStar name = bool_decide (name ∈ ALL_STARS))
             (m_locationNameToId m_itemMapping).
Proof. apply (bool_decide_unpack _). vm_compute. exact I. Qed.

(** X5. No id is both a star and a purple sigil, whatever the string
    (less than three characters: neither). On the location names of the
    registry the two tests agree with the lists: [IsPurpleSigil] holds
    exactly for the names of [ALL_PURPLE_SIGILS], [IsStar] exactly for
    those of [ALL_STARS]; and every game key of a star passes [IsStar]. *)
Theorem categories_exclusive_and_exact :
  (∀ id : string, IsStar id = true → IsPurpleSigil id = false)
  ∧ (∀ id : string, (String.length id < 3)%nat →
       IsStar id = false ∧ IsPurpleSigil id = false)
  ∧ (∀ name : string, 0 ≤ GetLocationId m_itemMapping name →
       (IsPurpleSigil name = true ↔ name ∈ ALL_PURPLE_SIGILS)
       ∧ (IsStar name = true ↔ name ∈ ALL_STARS))
  ∧ (∀ name : string, name ∈ ALL_STARS →
       IsStar (ToGameKey m_itemMapping name) = true
       ∧ ToGameKey m_itemMapping name ≠ name).
Proof.
  split; [|split; [|split]].
  - intros id. unfold IsStar, IsPurpleSigil, char_is.
    destruct id as [|c1 [|c2 [|c3 rest]]]; try discriminate. simpl.
    destruct (Ascii.eqb_spec c1 "H") as [->|_]; [|reflexivity].
    simpl. discriminate.
  - intros id Hlen. unfold IsStar, IsPurpleSigil.
    destruct (Nat.ltb_spec (String.length id) 3) as [_|Hge]; [|lia].
    destruct (Nat.leb_spec 3 (String.length id)) as [Hge|_]; [lia|]. by split.
  - intros name Hrec. unfold GetLocationId in Hrec.
    destruct (m_locationNameToId m_itemMapping !! name) as [locId|] eqn:Hn;
      [|simpl in Hrec; lia].
    destruct (categories_of_locations name locId Hn) as [-> ->].
    split; apply bool_decide_eq_true.
  - intros name Hin.
    assert (H : Forall (λ s, IsStar (ToGameKey m_itemMapping s) = true
                             ∧ ToGameKey m_itemMapping s ≠ s) ALL_STARS).
    { apply (bool_decide_unpack _). vm_compute. exact I. }
    rewrite Forall_forall in H. by apply H.
Qed.

Lemma categories_exclusive_and_exact_witness :
  IsPurpleSigil "**7" = false
  ∧ ((IsPurpleSigil "HL12" = true ↔ "HL12" ∈ ALL_PURPLE_SIGILS)
     ∧ (IsStar "HL12" = true ↔ "HL12" ∈ ALL_STARS)).
Proof.
  destruct categories_exclusive_and_exact as (Hex & _ & Hloc & _).
  split; [apply Hex; reflexivity|].
  apply Hloc. vm_compute. discriminate.
Defined.

(** *** Letters, then a number *)

Lemma span_alpha_app (p rest : string) :
  all_alpha p →
  match rest with String.String c _ => isalpha c = false | String.EmptyString => True end →
  span_alpha (p +:+ rest) = (p, rest).
Proof.
  unfold all_alpha. induction p as [|c p IH]; simpl; intros Hp Hrest.
  - destruct rest as [|c r]; [reflexivity|]. simpl. by rewrite Hrest.
  - apply Forall_cons in Hp as [Hc Hp]. rewrite Hc.
    change (String.append p rest) with (p +:+ rest). by rewrite IH.
Qed.

Lemma pretty_N_char_digit (d : N) :
  (d < 10)%N →
  isdigit (pretty_N_char d) = true ∧ digit_value (pretty_N_char d) = Z.of_N d
  ∧ isalpha (pretty_N_char d) = false ∧ isspace (pretty_N_char d) = false
  ∧ pretty_N_char d ≠ "-"%char ∧ pretty_N_char d ≠ "+"%char.
Proof.
  intros Hd.
  assert (Hcases : (d = 0 ∨ d = 1 ∨ d = 2 ∨ d = 3 ∨ d = 4 ∨ d = 5 ∨ d = 6 ∨ d = 7
                   ∨ d = 8 ∨ d = 9)%N) by lia.
  repeat (destruct Hcases as [->|Hcases]; [by vm_compute|]).
  subst d. by vm_compute.
Qed.

(** Reading back the digits [pretty_N_go] writes in front of [s]. *)
Lemma read_digits_pretty_N_go (x : N) :
  ∀ (s : string) (acc : Z) (seen : bool),
    (0 < x)%N →
    ∃ k : nat,
      read_digits (pretty_N_go x s) acc seen
      = read_digits s (acc * 10 ^ Z.of_nat k + Z.of_N x) true.
Proof.
  induction x as [x IH] using (well_founded_induction N.lt_wf_0).
  intros s acc seen Hx. rewrite pretty_N_go_step by done.
  destruct (pretty_N_char_digit (x `mod` 10)%N) as (Hd & Hv & _).
  { apply N.mod_lt. lia. }
  destruct (N.eq_0_gt_0_cases (x `div` 10)) as [Hq|Hq].
  2: { destruct (IH (x `div` 10)%N) with
      (s := String.String (pretty_N_char (x `mod` 10)) s) (acc := acc) (seen := seen)
      as [k Hk]; [apply N.div_lt; lia | done |].
    exists (S k). rewrite Hk. simpl. rewrite Hd, Hv. f_equal.
    rewrite Nat2Z.inj_succ, Z.pow_succ_r by lia.
    pose proof (N.div_mod x 10 ltac:(lia)) as Hdm.
    apply (f_equal Z.of_N) in Hdm. rewrite N2Z.inj_add, N2Z.inj_mul in Hdm. simpl in Hdm.
    lia. }
  - rewrite Hq, pretty_N_go_0.
    exists 1%nat. simpl. rewrite Hd, Hv. f_equal.
    assert (x `mod` 10 = x)%N as -> by (apply N.mod_small, N.div_small_iff; lia).
    lia.
Qed.

Lemma append_empty_r (p : string) : p +:+ String.EmptyString = p.
Proof.
  induction p as [|a p IH]; [reflexivity|].
  change (String.String a (p +:+ String.EmptyString) = String.String a p).
  f_equal. exact IH.
Qed.

Lemma pretty_N_go_head (x : N) (s : string) :
  (0 < x)%N →
  ∃ (d : N) (rest : string), (d < 10)%N ∧ pretty_N_go x s = String.String (pretty_N_char d) rest.
Proof.
  revert s. induction x as [x IH] using (well_founded_induction N.lt_wf_0).
  intros s Hx. rewrite pretty_N_go_step by done.
  destruct (N.eq_0_gt_0_cases (x `div` 10)) as [Hq|Hq].
  2: { apply IH; [apply N.div_lt; lia | done]. }
  - rewrite Hq, pretty_N_go_0.
    exists (x `mod` 10)%N, s. split; [apply N.mod_lt; lia | reflexivity].
Qed.

Lemma to_string_nonneg (n : Z) :
  0 ≤ n →
  ∃ (d : N) (rest : string),
    (d < 10)%N ∧ to_string n = String.String (pretty_N_char d) rest
    ∧ read_digits (to_string n) 0 false = (n, true).
Proof.
  intros Hn. unfold to_string, pretty, pretty_Z.
  destruct n as [|p|p]; [|clear Hn|lia].
  - exists 0%N, String.EmptyString. split; [lia|]. by split.
  - unfold pretty, pretty_positive, pretty, pretty_N.
    rewrite decide_False by done.
    destruct (pretty_N_go_head (N.pos p) String.EmptyString) as (d & rest & Hd & Hhead);
      [lia|].
    exists d, rest. split; [exact Hd|]. split; [exact Hhead|].
    destruct (read_digits_pretty_N_go (N.pos p) String.EmptyString 0 false) as [k ->];
      [lia|].
    simpl. reflexivity.
Qed.

(** X6. An id written as letters followed by a number reads back: for a
    prefix of letters [p] and [0 <= n <= INT_MAX], [ExtractPrefix] of
    [p + to_string(n)] is [p] and [ExtractNumber] of it is [n]; an id of
    letters only has number 0. *)
Theorem extract_round_trip (p : string) (n : Z) :
  all_alpha p → 0 ≤ n ≤ INT_MAX →
  ExtractPrefix (p +:+ to_string n) = p
  ∧ ExtractNumber (p +:+ to_string n) = Some n
  ∧ ExtractPrefix p = p ∧ ExtractNumber p = Some 0.
Proof.
  intros Hp [Hn0 Hn].
  destruct (to_string_nonneg n Hn0) as (d & rest & Hd & Hhead & Hread).
  destruct (pretty_N_char_digit d Hd) as (_ & _ & Halpha & Hspace & Hminus & Hplus).
  assert (Hspan : span_alpha (p +:+ to_string n) = (p, to_string n)).
  { apply span_alpha_app; [exact Hp|]. by rewrite Hhead. }
  assert (Hspan0 : span_alpha p = (p, String.EmptyString)).
  { pose proof (span_alpha_app p String.EmptyString Hp I) as H.
    replace (p +:+ String.EmptyString) with p in H; [exact H|].
    symmetry. apply append_empty_r. }
  unfold ExtractPrefix, ExtractNumber. rewrite Hspan, Hspan0. simpl.
  split; [reflexivity|]. split; [|by split].
  rewrite Hhead. rewrite <- Hhead.
  unfold stoi. rewrite Hhead. simpl. rewrite Hspace.
  destruct (Ascii.eqb_spec (pretty_N_char d) "-") as [Heq|_]; [contradiction|].
  destruct (Ascii.eqb_spec (pretty_N_char d) "+") as [Heq|_]; [contradiction|].
  rewrite <- Hhead, Hread.
  destruct (Z.leb_spec INT_MIN n) as [_|Hlt]; [|unfold INT_MIN in Hlt; lia].
  destruct (Z.leb_spec n INT_MAX) as [_|Hlt]; [|lia]. reflexivity.
Qed.

Lemma extract_round_trip_witness :
  ExtractPrefix ("NT" +:+ to_string 12) = "NT"
  ∧ ExtractNumber ("NT" +:+ to_string 12) = Some 12
  ∧ ExtractPrefix "NT" = "NT" ∧ ExtractNumber "NT" = Some 0.
Proof.
  apply (extract_round_trip "NT" 12).
  - repeat constructor.
  - vm_compute. split; discriminate.
Defined.

(** ** Grants of several item types, interleaved *)

Lemma earlier_0 (grants : list Z) (apItemId : Z) : earlier grants 0 apItemId = 0%nat.
Proof. unfold earlier. by rewrite take_0. Qed.

Lemma earlier_S (g : Z) (rest : list Z) (j : nat) (apItemId : Z) :
  earlier (g :: rest) (S j) apItemId
  = ((if decide (g = apItemId) then 1 else 0) + earlier rest j apItemId)%nat.
Proof.
  unfold earlier. rewrite firstn_cons.
  destruct (decide (g = apItemId)) as [Heq|Hne].
  - by rewrite filter_cons_True.
  - by rewrite filter_cons_False.
Qed.

Lemma earlier_le (grants : list Z) (j : nat) (apItemId : Z) :
  (earlier grants j apItemId ≤ j)%nat.
Proof.
  unfold earlier. etrans; [apply length_filter|]. rewrite length_take. lia.
Qed.

(** A call leaves the tables alone. *)
Lemma ResolveNextItem_same_tables im apItemId r im' :
  ResolveNextItem im apItemId = Some (r, im') → same_tables im im'.
Proof.
  unfold ResolveNextItem.
  destruct (m_apItemIdToPrefix im !! apItemId) as [prefix|];
    [|intros [= _ <-]; apply same_tables_refl].
  destruct (m_tetrominoSequences im !! prefix) as [[|t0 tets]|];
    try (intros [= _ <-]; apply same_tables_refl).
  destruct (decide _); [discriminate|].
  destruct (_ <? _); [intros [= _ <-]; apply same_tables_set|].
  destruct (_ <? _); [discriminate|].
  destruct (_ !! Z.to_nat _); [|discriminate].
  intros [= _ <-]. apply same_tables_set.
Qed.

Lemma ResolveAll_same_tables (grants : list Z) :
  ∀ im results im', ResolveAll im grants = Some (results, im') → same_tables im im'.
Proof.
  induction grants as [|g rest IH]; intros im results im'; simpl.
  - intros [= _ <-]. apply same_tables_refl.
  - destruct (ResolveNextItem im g) as [[r im1]|] eqn:H1; [|discriminate]. simpl.
    destruct (ResolveAll im1 rest) as [[rs im2]|] eqn:H2; [|discriminate]. simpl.
    intros [= _ <-].
    eapply same_tables_trans; [exact (ResolveNextItem_same_tables _ _ _ _ H1)|].
    exact (IH _ _ _ H2).
Qed.

Section Interleaving.
Variable im : ItemMapping.
Hypothesis Hinj : ∀ id1 id2 p,
  m_apItemIdToPrefix im !! id1 = Some p → m_apItemIdToPrefix im !! id2 = Some p → id1 = id2.
Hypothesis Hfit : ∀ id p tets,
  m_apItemIdToPrefix im !! id = Some p → m_tetrominoSequences im !! p = Some tets →
  Z.of_nat (length tets) ≤ INT_MAX.

(** With [c id] earlier grants counted for every known [id], grant number
    [j] of the list resolves to entry [c id + earlier grants j id] of the
    sequence of its own item type. *)
Lemma ResolveAll_counts (grants : list Z) :
  ∀ (cnt : gmap string Z) (c : Z → nat),
    (∀ id p, m_apItemIdToPrefix im !! id = Some p →
             received (set_receivedCounts im cnt) p = Z.of_nat (c id)) →
    (∀ id, Z.of_nat (c id) + Z.of_nat (length grants) ≤ INT_MAX) →
    ∃ results cnt',
      ResolveAll (set_receivedCounts im cnt) grants
      = Some (results, set_receivedCounts im cnt')
      ∧ length results = length grants
      ∧ ∀ j id, grants !! j = Some id →
          results !! j = Some (nth_of_item im id (c id + earlier grants j id)).
Proof.
  induction grants as [|g rest IH]; intros cnt c Hc Hb.
  { exists [], cnt. split; [reflexivity|]. split; [reflexivity|].
    intros j id Hj. by rewrite lookup_nil in Hj. }
  assert (Hskip :
    ResolveNextItem (set_receivedCounts im cnt) g = Some (None, set_receivedCounts im cnt) →
    (∀ n, nth_of_item im g n = None) →
    ∃ results cnt',
      ResolveAll (set_receivedCounts im cnt) (g :: rest)
      = Some (results, set_receivedCounts im cnt')
      ∧ length results = length (g :: rest)
      ∧ ∀ j id, (g :: rest) !! j = Some id →
          results !! j = Some (nth_of_item im id (c id + earlier (g :: rest) j id))).
  { intros Hrun Hnth.
    destruct (IH cnt c Hc) as (rs & cnt' & Hrs & Hlen & Hres).
    { intros id. specialize (Hb id). simpl in Hb. lia. }
    exists (None :: rs), cnt'. simpl. rewrite Hrun. simpl. rewrite Hrs. simpl.
    split; [reflexivity|]. split; [by rewrite Hlen|].
    intros [|j] id Hj; simpl in Hj.
    - injection Hj as <-. simpl. by rewrite Hnth.
    - simpl. rewrite (Hres j id Hj), earlier_S.
      destruct (decide (g = id)) as [<-|Hne]; [by rewrite !Hnth|].
      reflexivity. }
  destruct (m_apItemIdToPrefix im !! g) as [p|] eqn:Hp.
  2: { apply Hskip.
       - apply ResolveNextItem_unknown. exact Hp.
       - intros n. unfold nth_of_item. by rewrite Hp. }
  destruct (m_tetrominoSequences im !! p) as [tets|] eqn:Hs.
  2: { apply Hskip.
       - unfold ResolveNextItem. simpl. by rewrite Hp, Hs.
       - intros n. unfold nth_of_item. by rewrite Hp, Hs. }
  destruct (decide (tets = [])) as [->|Hne].
  { apply Hskip.
    - unfold ResolveNextItem. simpl. by rewrite Hp, Hs.
    - intros n. unfold nth_of_item. by rewrite Hp, Hs. }
  pose proof (ResolveNextItem_known (set_receivedCounts im cnt) g p tets (c g)
                Hp Hs Hne (Hfit g p tets Hp Hs) (Hc g p Hp)) as Hrun.
  specialize (Hrun ltac:(specialize (Hb g); simpl in Hb; lia)).
  simpl in Hrun.
  set (c' := λ id, if decide (id = g) then S (c g) else c id).
  destruct (IH (<[p := Z.of_nat (c g) + 1]> cnt) c') as (rs & cnt' & Hrs & Hlen & Hres).
  { intros id q Hq. unfold received, c'. simpl.
    destruct (decide (id = g)) as [->|Hne'].
    - rewrite Hp in Hq. injection Hq as <-. rewrite lookup_insert_eq. simpl. lia.
    - rewrite lookup_insert_ne.
      + exact (Hc id q Hq).
      + intros <-. apply Hne'. exact (Hinj id g p Hq Hp). }
  { intros id. unfold c'. pose proof (Hb id) as Hb1. pose proof (Hb g) as Hb2.
    simpl in Hb1, Hb2. destruct (decide (id = g)); lia. }
  exists (tets !! c g :: rs), cnt'.
  change (ResolveAll (set_receivedCounts im cnt) (g :: rest))
    with ('(r, im1) ← ResolveNextItem (set_receivedCounts im cnt) g;
          '(rs, im2) ← ResolveAll im1 rest; Some (r :: rs, im2)).
  rewrite Hrun. simpl.
  change (set_receivedCounts (set_receivedCounts im cnt) (<[p:=Z.of_nat (c g) + 1]> cnt))
    with (set_receivedCounts im (<[p:=Z.of_nat (c g) + 1]> cnt)).
  rewrite Hrs. simpl.
  split; [reflexivity|]. split; [by rewrite Hlen|].
  intros [|j] id Hj; simpl in Hj.
  - injection Hj as <-. simpl. rewrite earlier_0, Nat.add_0_r.
    unfold nth_of_item. by rewrite Hp, Hs.
  - simpl. rewrite (Hres j id Hj), earlier_S. unfold c'.
    destruct (decide (id = g)) as [->|Hne'].
    + rewrite decide_True by done. do 2 f_equal. lia.
    + rewrite decide_False by done. reflexivity.
Qed.

(** Two different positions of a run from zero counts that resolve to
    the same entry: impossible when no entry occurs twice in the
    sequences. *)
Hypothesis Hdisj : ∀ p1 p2 s1 s2 (i1 i2 : nat) t,
  m_tetrominoSequences im !! p1 = Some s1 → m_tetrominoSequences im !! p2 = Some s2 →
  s1 !! i1 = Some t → s2 !! i2 = Some t → p1 = p2 ∧ i1 = i2.

Lemma nth_of_item_inj id1 id2 (n1 n2 : nat) t :
  nth_of_item im id1 n1 = Some t → nth_of_item im id2 n2 = Some t →
  id1 = id2 ∧ n1 = n2.
Proof.
  unfold nth_of_item.
  destruct (m_apItemIdToPrefix im !! id1) as [p1|] eqn:H1; [|discriminate].
  destruct (m_apItemIdToPrefix im !! id2) as [p2|] eqn:H2; [|discriminate].
  destruct (m_tetrominoSequences im !! p1) as [s1|] eqn:Hs1;
    [|simpl; by rewrite lookup_nil].
  destruct (m_tetrominoSequences im !! p2) as [s2|] eqn:Hs2;
    [|simpl; by rewrite lookup_nil].
  simpl. intros Ht1 Ht2.
  destruct (Hdisj p1 p2 s1 s2 n1 n2 t Hs1 Hs2 Ht1 Ht2) as [<- <-].
  split; [exact (Hinj id1 id2 p1 H1 H2) | reflexivity].
Qed.

Lemma earlier_lt_mono (grants : list Z) (j1 j2 : nat) id :
  (j1 < j2)%nat → grants !! j1 = Some id →
  (earlier grants j1 id < earlier grants j2 id)%nat.
Proof.
  revert j1 j2. induction grants as [|g rest IH]; intros j1 j2 Hlt Hj1.
  { by rewrite lookup_nil in Hj1. }
  destruct j2 as [|j2]; [lia|]. rewrite earlier_S.
  destruct j1 as [|j1]; simpl in Hj1.
  - injection Hj1 as ->. rewrite earlier_0, decide_True by done. lia.
  - rewrite earlier_S. specialize (IH j1 j2 ltac:(lia) Hj1). lia.
Qed.

Lemma ResolveAll_distinct (grants : list Z) results cnt' :
  Z.of_nat (length grants) ≤ INT_MAX →
  ResolveAll (set_receivedCounts im ∅) grants = Some (results, cnt') →
  ∀ j1 j2 t, results !! j1 = Some (Some t) → results !! j2 = Some (Some t) → j1 = j2.
Proof.
  intros Hlen Hrun.
  destruct (ResolveAll_counts grants ∅ (λ _, 0%nat)) as (rs & cnt2 & Hrs & Hl & Hres).
  { intros id p _. unfold received. simpl. by rewrite lookup_empty. }
  { intros id. simpl. lia. }
  rewrite Hrs in Hrun. injection Hrun as <- _.
  assert (Hlt : ∀ j1 j2 t, (j1 < j2)%nat →
            rs !! j1 = Some (Some t) → rs !! j2 = Some (Some t) → False).
  { intros j1 j2 t Hlt H1 H2.
    destruct (lookup_lt_is_Some_2 grants j1) as [id1 Hg1].
    { rewrite <- Hl. eapply lookup_lt_Some. exact H1. }
    destruct (lookup_lt_is_Some_2 grants j2) as [id2 Hg2].
    { rewrite <- Hl. eapply lookup_lt_Some. exact H2. }
    rewrite (Hres j1 id1 Hg1) in H1. rewrite (Hres j2 id2 Hg2) in H2.
    injection H1 as H1. injection H2 as H2. simpl in H1, H2.
    destruct (nth_of_item_inj id1 id2 _ _ t H1 H2) as [<- Heq].
    pose proof (earlier_lt_mono grants j1 j2 id1 Hlt Hg1). lia. }
  intros j1 j2 t H1 H2.
  destruct (Nat.lt_trichotomy j1 j2) as [Hc|[Hc|Hc]]; [|exact Hc|].
  - destruct (Hlt j1 j2 t Hc H1 H2).
  - destruct (Hlt j2 j1 t Hc H2 H1).
Qed.
End Interleaving.

(** ** The registry's sequences *)

Lemma sequences_no_repeats :
  map_Forall (λ p1 s1,
     NoDup s1
     ∧ map_Forall (λ p2 s2, p1 = p2 ∨ Forall (λ t, t ∉ s2) s1)
                  (m_tetrominoSequences m_itemMapping))
    (m_tetrominoSequences m_itemMapping).
Proof. apply (bool_decide_unpack _). vm_compute. exact I. Qed.

Lemma sequences_disjoint p1 p2 s1 s2 (i1 i2 : nat) t :
  m_tetrominoSequences m_itemMapping !! p1 = Some s1 →
  m_tetrominoSequences m_itemMapping !! p2 = Some s2 →
  s1 !! i1 = Some t → s2 !! i2 = Some t → p1 = p2 ∧ i1 = i2.
Proof.
  intros Hs1 Hs2 H1 H2.
  destruct (sequences_no_repeats p1 s1 Hs1) as [Hnd Hall].
  destruct (Hall p2 s2 Hs2) as [<-|Hno].
  - split; [reflexivity|].
    pose proof (eq_trans (eq_sym Hs1) Hs2) as Heq.
    assert (s1 = s2) as <- by exact (Some_inj _ _ Heq).
    exact (NoDup_lookup s1 i1 i2 t Hnd H1 H2).
  - exfalso. rewrite Forall_forall in Hno.
    apply (Hno t).
    + eapply list_elem_of_lookup_2. exact H1.
    + eapply list_elem_of_lookup_2. exact H2.
Qed.

Lemma sequences_fit_int id p tets :
  m_apItemIdToPrefix m_itemMapping !! id = Some p →
  m_tetrominoSequences m_itemMapping !! p = Some tets →
  Z.of_nat (length tets) ≤ INT_MAX.
Proof.
  intros Hp Hs.
  pose proof (known_prefixes_served id p Hp) as Hserved.
  destruct (served_inv m_itemMapping p Hserved) as (tets' & Hs' & _ & Hlen).
  pose proof (eq_trans (eq_sym Hs') Hs) as Heq.
  assert (tets' = tets) as <- by exact (Some_inj _ _ Heq).
  lia.
Qed.

Lemma sequences_are_locations :
  map_Forall (λ _ seq,
     Forall (λ t, is_Some (m_locationNameToId m_itemMapping !! FromGameKey m_itemMapping t)
                  ∧ FromGameKey m_itemMapping t ∈ all_location_names) seq)
             (m_tetrominoSequences m_itemMapping).
Proof. apply (bool_decide_unpack _). vm_compute. exact I. Qed.

Lemma locations_are_obtainable :
  Forall (λ t, Exists (λ id, Exists (λ n, nth_of_item m_itemMapping id n
                                          = Some (ToGameKey m_itemMapping t))
                                    (seq 0 32))
                      (GetAllItemIds m_itemMapping))
         all_location_names.
Proof. apply (bool_decide_unpack _). vm_compute. exact I. Qed.

(** X7. Grants of different item types do not disturb each other. From
    zero received counts (whatever was counted before the reset) any list
    of at most [INT_MAX] grants resolves without undefined behaviour and
    changes counters only; grant number [j], for item id [id], resolves to
    entry [k] of the sequence of [id]'s prefix, [k] being the number of
    earlier grants of the same [id] in the list (nothing when the sequence
    has no such entry or the id is unknown). *)
Theorem interleaved_grants (counts : gmap string Z) (grants : list Z) :
  let im0 := ResetItemCounters (set_receivedCounts m_itemMapping counts) in
  Z.of_nat (length grants) ≤ INT_MAX →
  ∃ results im',
    ResolveAll im0 grants = Some (results, im')
    ∧ same_tables m_itemMapping im'
    ∧ length results = length grants
    ∧ ∀ (j : nat) (id : Z), grants !! j = Some id →
        results !! j = Some (nth_of_item m_itemMapping id (earlier grants j id)).
Proof.
  intros im0 Hlen.
  destruct (ResolveAll_counts m_itemMapping item_prefix_injective sequences_fit_int
              grants ∅ (λ _, 0%nat)) as (rs & cnt' & Hrs & Hl & Hres).
  { intros id p _. unfold received. simpl. by rewrite lookup_empty. }
  { intros id. simpl. lia. }
  exists rs, (set_receivedCounts m_itemMapping cnt').
  split; [exact Hrs|]. split; [apply same_tables_set|]. split; [exact Hl|].
  intros j id Hj. exact (Hres j id Hj).
Qed.

Lemma interleaved_grants_witness :
  Z.of_nat (length [0x540000; 0x54000E; 0x540000; 99]) ≤ INT_MAX
  ∧ ∃ results im',
      ResolveAll (ResetItemCounters (set_receivedCounts m_itemMapping ∅))
                 [0x540000; 0x54000E; 0x540000; 99] = Some (results, im')
      ∧ same_tables m_itemMapping im'
      ∧ length results = length [0x540000; 0x54000E; 0x540000; 99]
      ∧ ∀ (j : nat) (id : Z), [0x540000; 0x54000E; 0x540000; 99] !! j = Some id →
          results !! j
          = Some (nth_of_item m_itemMapping id
                    (earlier [0x540000; 0x54000E; 0x540000; 99] j id)).
Proof.
  split; [vm_compute; discriminate|].
  apply (interleaved_grants ∅ [0x540000; 0x54000E; 0x540000; 99]).
  vm_compute. discriminate.
Defined.

(** X8. A reset forgets the history. Whatever list of grants was resolved
    before, after [ResetItemCounters] every list of grants resolves as it
    does on the registry reset before those grants: to the same results
    and the same final registry. In particular replaying the same list
    after a reconnect reproduces the same items. *)
Theorem reset_forgets_history (im : ItemMapping) (before : list Z) results im1 :
  ResolveAll im before = Some (results, im1) →
  (∀ grants, ResolveAll (ResetItemCounters im1) grants
             = ResolveAll (ResetItemCounters im) grants)
  ∧ (∀ r im2, ResolveAll (ResetItemCounters im) before = Some (r, im2) →
              ResolveAll (ResetItemCounters im2) before = Some (r, im2)).
Proof.
  intros Hrun.
  assert (Hreset : ∀ a b, same_tables a b → ResetItemCounters b = ResetItemCounters a).
  { intros a b Hab. rewrite Hab. reflexivity. }
  split.
  - intros grants. by rewrite (Hreset im im1 (ResolveAll_same_tables _ _ _ _ Hrun)).
  - intros r im2 Hrun2.
    pose proof (ResolveAll_same_tables _ _ _ _ Hrun2) as Hsame.
    rewrite (Hreset (ResetItemCounters im) im2 Hsame).
    exact Hrun2.
Qed.

Lemma reset_forgets_history_witness :
  ResolveAll tiny_mapping [7; 3]
  = Some ([Some "A1"; None], set_receivedCounts tiny_mapping {["A" := 1]})
  ∧ (∀ grants, ResolveAll (ResetItemCounters (set_receivedCounts tiny_mapping {["A" := 1]}))
                 grants
               = ResolveAll (ResetItemCounters tiny_mapping) grants)
  ∧ (∀ r im2, ResolveAll (ResetItemCounters tiny_mapping) [7; 3] = Some (r, im2) →
              ResolveAll (ResetItemCounters im2) [7; 3] = Some (r, im2)).
Proof.
  split; [vm_compute; reflexivity|].
  apply (reset_forgets_history tiny_mapping [7; 3] [Some "A1"; None]
           (set_receivedCounts tiny_mapping {["A" := 1]})).
  vm_compute. reflexivity.
Defined.

(** X9. One session never hands out the same piece twice. In a run of at
    most [INT_MAX] grants from zero received counts no concrete item is
    resolved at two different positions, and every resolved item is a
    location of the registry once its key is translated back with
    [FromGameKey] (stars are resolved to their game keys). *)
Theorem no_item_resolved_twice (counts : gmap string Z) (grants : list Z) results :
  let im0 := ResetItemCounters (set_receivedCounts m_itemMapping counts) in
  Z.of_nat (length grants) ≤ INT_MAX →
  fst <$> ResolveAll im0 grants = Some results →
  (∀ (j1 j2 : nat) t,
     results !! j1 = Some (Some t) → results !! j2 = Some (Some t) → j1 = j2)
  ∧ (∀ (j : nat) t, results !! j = Some (Some t) →
       FromGameKey m_itemMapping t ∈ all_location_names
       ∧ GetLocationId m_itemMapping (FromGameKey m_itemMapping t) ≠ -1).
Proof.
  intros im0 Hlen Hrun.
  destruct (ResolveAll_counts m_itemMapping item_prefix_injective sequences_fit_int
              grants ∅ (λ _, 0%nat)) as (rs & cnt' & Hrs & Hl & Hres).
  { intros id p _. unfold received. simpl. by rewrite lookup_empty. }
  { intros id. simpl. lia. }
  assert (Hrs' : fst <$> ResolveAll im0 grants = Some rs).
  { exact (f_equal (fmap fst) Hrs). }
  assert (rs = results) as <-.
  { exact (Some_inj _ _ (eq_trans (eq_sym Hrs') Hrun)). }
  split.
  - exact (ResolveAll_distinct m_itemMapping item_prefix_injective sequences_fit_int
             sequences_disjoint grants rs _ Hlen Hrs).
  - intros j t Hj.
    destruct (lookup_lt_is_Some_2 grants j) as [id Hg].
    { rewrite <- Hl. eapply lookup_lt_Some. exact Hj. }
    pose proof (Some_inj _ _ (eq_trans (eq_sym (Hres j id Hg)) Hj)) as Hn.
    clear Hj Hres Hrs Hrs' Hrun. unfold nth_of_item in Hn.
    destruct (m_apItemIdToPrefix m_itemMapping !! id) as [p|]; [|discriminate].
    destruct (m_tetrominoSequences m_itemMapping !! p) as [s|] eqn:Hs;
      [|exfalso; revert Hn; clear; simpl; by rewrite lookup_nil].
    pose proof (list_elem_of_lookup_2 _ _ _ Hn) as Hj. clear Hn.
    pose proof (sequences_are_locations p s Hs) as Hall.
    rewrite Forall_forall in Hall.
    destruct (Hall t Hj) as [[n Hn] Hin].
    split; [exact Hin|].
    unfold GetLocationId. rewrite Hn. simpl.
    destruct (location_names_numbered _ n Hn) as [_ Hr].
    unfold BASE_LOCATION_ID in Hr. lia.
Qed.

Lemma no_item_resolved_twice_witness :
  Z.of_nat (length [0x540014; 0x540000; 0x540014]) ≤ INT_MAX
  ∧ fst <$> ResolveAll (ResetItemCounters (set_receivedCounts m_itemMapping ∅))
              [0x540014; 0x540000; 0x540014]
    = Some [Some "**1"; Some "DJ1"; Some "**2"]
  ∧ (∀ (j1 j2 : nat) t,
       [Some "**1"; Some "DJ1"; Some "**2"] !! j1 = Some (Some t) →
       [Some "**1"; Some "DJ1"; Some "**2"] !! j2 = Some (Some t) → j1 = j2)
  ∧ (∀ (j : nat) t, [Some "**1"; Some "DJ1"; Some "**2"] !! j = Some (Some t) →
       FromGameKey m_itemMapping t ∈ all_location_names
       ∧ GetLocationId m_itemMapping (FromGameKey m_itemMapping t) ≠ -1).
Proof.
  split; [vm_compute; discriminate|]. split; [vm_compute; reflexivity|].
  apply (no_item_resolved_twice ∅ [0x540014; 0x540000; 0x540014]
           [Some "**1"; Some "DJ1"; Some "**2"]).
  - vm_compute. discriminate.
  - vm_compute. reflexivity.
Defined.

(** X10. Every location can be obtained, in exactly one way: the game key
    of each of the 144 location names is entry [n] of the sequence of some
    item id, and only of one pair [(id, n)]. *)
Theorem every_location_obtainable (t : string) :
  t ∈ all_location_names →
  ∃ (id : Z) (n : nat),
    nth_of_item m_itemMapping id n = Some (ToGameKey m_itemMapping t)
    ∧ ∀ (id' : Z) (n' : nat),
        nth_of_item m_itemMapping id' n' = Some (ToGameKey m_itemMapping t) →
        id' = id ∧ n' = n.
Proof.
  intros Hin.
  pose proof locations_are_obtainable as Hall. rewrite Forall_forall in Hall.
  specialize (Hall t Hin).
  apply Exists_exists in Hall as (id & _ & Hex).
  apply Exists_exists in Hex as (n & _ & Hn).
  exists id, n. split; [exact Hn|].
  intros id' n' Hn'.
  exact (nth_of_item_inj m_itemMapping item_prefix_injective sequences_disjoint
           id' id n' n _ Hn' Hn).
Qed.

Lemma every_location_obtainable_witness :
  "NT12" ∈ all_location_names
  ∧ ∃ (id : Z) (n : nat),
      nth_of_item m_itemMapping id n = Some (ToGameKey m_itemMapping "NT12")
      ∧ ∀ (id' : Z) (n' : nat),
          nth_of_item m_itemMapping id' n' = Some (ToGameKey m_itemMapping "NT12") →
          id' = id ∧ n' = n.
Proof.
  assert (Hin : "NT12" ∈ all_location_names).
  { apply (bool_decide_unpack _). vm_compute. exact I. }
  split; [exact Hin|].
  apply (every_location_obtainable "NT12"). exact Hin.
Defined.

(** ** InventorySync: flags, silent passes, grant and revoke *)

Lemma ensure_present_fold_writes (im : ItemMapping) (ids : list string) :
  ∀ acc : TetrominoMap * list StoreWrite,
    ∃ w', (foldl (ensure_present im) acc ids).2 = (acc.2 ++ w')%list
          ∧ (w' = [] → ∀ id, id ∈ ids → is_Some (acc.1 !! ToFString (ToGameKey im id))).
Proof.
  induction ids as [|id ids IH]; intros acc; cbn [foldl].
  { exists []. split; [by rewrite app_nil_r|]. intros _ id Hin. by apply elem_of_nil in Hin. }
  unfold ensure_present at 2.
  destruct (acc.1 !! ToFString (ToGameKey im id)) as [b|] eqn:Hb.
  - destruct (IH acc) as (w' & Hw & Hall). exists w'. split; [exact Hw|].
    intros Hnil id' [->|Hin]%elem_of_cons; [by exists b | by apply Hall].
  - destruct (IH (<[ToFString (ToGameKey im id) := false]> acc.1,
                  (acc.2 ++ [TMapAdd (ToFString (ToGameKey im id)) false])%list))
      as (w' & Hw & _).
    exists (TMapAdd (ToFString (ToGameKey im id)) false :: w'). split.
    + rewrite Hw. cbn [snd]. by rewrite <- app_assoc.
    + discriminate.
Qed.

Lemma ensure_present_fold_adds (im : ItemMapping) (ids : list string) :
  ∀ (acc : TetrominoMap * list StoreWrite) (w : StoreWrite),
    w ∈ (foldl (ensure_present im) acc ids).2 → w ∈ acc.2 ∨ ∃ k, w = TMapAdd k false.
Proof.
  induction ids as [|id ids IH]; intros acc w; cbn [foldl]; [by left|].
  intros Hin. apply IH in Hin as [Hin|Hadd]; [|by right].
  unfold ensure_present in Hin.
  destruct (acc.1 !! ToFString (ToGameKey im id)); [by left|]. cbn [snd] in Hin.
  apply elem_of_app in Hin as [Hin|Hin]; [by left|].
  apply list_elem_of_singleton in Hin. right. by eexists.
Qed.

Lemma phase2_silent_iff (st : ModState) (im : ItemMapping) (m : TetrominoMap) :
  (phase2 st im m).2 = []
  ↔ ∀ id, id ∈ GrantedItems st → is_Some (m !! ToFString (ToGameKey im id)).
Proof.
  unfold phase2. split.
  - intros Hnil.
    destruct (ensure_present_fold_writes im (elements (GrantedItems st)) (m, []))
      as (w' & Hw & Hall).
    rewrite Hnil in Hw. cbn in Hw. symmetry in Hw.
    intros id Hid. apply (Hall Hw). by apply elem_of_elements.
  - intros Hall. rewrite ensure_present_fold_noop; [reflexivity|].
    intros id Hid%elem_of_elements. by apply Hall.
Qed.

Lemma phase1_silent_iff (st : ModState) (im : ItemMapping) (m : TetrominoMap) :
  (phase1 st im m).2 = []
  ↔ ∀ k, is_Some (m !! k) → marked_for_removal st im (FromFString k) = false.
Proof.
  unfold phase1. cbn [snd]. split.
  - intros Hnil k Hk.
    destruct (marked_for_removal st im (FromFString k)) eqn:Hm; [|reflexivity].
    assert (Hin : FromFString k ∈ toRemoveGameKeys st im m).
    { apply elem_of_toRemoveGameKeys. split; [by exists k | exact Hm]. }
    destruct (toRemoveGameKeys st im m); [by apply elem_of_nil in Hin | discriminate Hnil].
  - intros Hall. rewrite (elem_of_nil_inv (toRemoveGameKeys st im m)); [reflexivity|].
    intros gk [(k & Hk & <-) Hm]%elem_of_toRemoveGameKeys.
    rewrite (Hall k Hk) in Hm. discriminate Hm.
Qed.

Lemma phase1_silent_map (st : ModState) (im : ItemMapping) (m : TetrominoMap) :
  (phase1 st im m).2 = [] → (phase1 st im m).1 = m.
Proof.
  unfold phase1. cbn [fst snd]. intros Hnil.
  destruct (toRemoveGameKeys st im m); [reflexivity | discriminate Hnil].
Qed.

Lemma phase3_silent_iff (st : ModState) (m : TetrominoMap) :
  (phase3 st m).2 = [] ↔ (ReusableTetrominos st = true → ∀ k, m !! k ≠ Some true).
Proof.
  unfold phase3. destruct (ReusableTetrominos st); cbn [snd].
  - split.
    + intros Hnil _ k Hk.
      assert (Hin : (k, true) ∈ filter (λ kv : FString * bool, kv.2 = true) (map_to_list m)).
      { apply list_elem_of_filter. split; [reflexivity | by apply elem_of_map_to_list]. }
      destruct (filter _ (map_to_list m)); [by apply elem_of_nil in Hin | discriminate Hnil].
    + intros Hall. rewrite filter_none; [reflexivity|].
      intros [k b] Hin%elem_of_map_to_list Hb. cbn in Hb. subst b.
      exact (Hall eq_refl k Hin).
  - split; [intros _ H; discriminate H | reflexivity].
Qed.

Lemma non_star_untranslated (id : string) :
  IsStar id = false →
  ToGameKey m_itemMapping id = id ∧ FromGameKey m_itemMapping id = id.
Proof.
  intros Hstar. unfold ToGameKey, FromGameKey.
  destruct (m_modIdToGameKey m_itemMapping !! id) as [gk|] eqn:Hm.
  { destruct (star_ids_translate id gk Hm) as [_ Hs]. congruence. }
  destruct (m_gameKeyToModId m_itemMapping !! id) as [s|] eqn:Hg.
  { destruct (game_keys_translate_back id s Hg) as [_ Hs]. congruence. }
  by split.
Qed.

Lemma game_key_of_other_is_star (id id' : string) :
  ToGameKey m_itemMapping id' = id → id' ≠ id → IsStar id = true.
Proof.
  unfold ToGameKey. intros Hk Hne.
  destruct (m_modIdToGameKey m_itemMapping !! id') as [gk|] eqn:Hm; simpl in Hk.
  - subst gk. destruct (star_ids_translate id' id Hm) as [Hback _].
    destruct (game_keys_translate_back id id' Hback) as [_ Hs]. exact Hs.
  - contradiction.
Qed.

Lemma marked_is_recognised (st : ModState) (im : ItemMapping) (gameKey : string) :
  marked_for_removal st im gameKey = true →
  0 ≤ GetLocationId im (FromGameKey im gameKey).
Proof.
  unfold marked_for_removal.
  destruct (decide (gameKey = String.EmptyString)); [discriminate|].
  destruct (Z.ltb_spec (GetLocationId im (FromGameKey im gameKey)) 0); [discriminate|].
  intros _. assumption.
Qed.

(** X11. The pass never marks a piece as used. After a pass that runs, an
    entry whose flag is [true] had the flag [true] before (and
    [ReusableTetrominos] is off); an entry that was not in the store before
    is there unused and is the game key of a granted id; with
    [ReusableTetrominos] on no flag is [true] afterwards. *)
Theorem pass_never_sets_used (st : ModState) (im : ItemMapping) (m0 : TetrominoMap) :
  CurrentProgress st = true → APSynced st = true →
  ∃ m', (EnforceCollectionState st im (Some m0)).1 = Some m'
    ∧ (∀ k, m' !! k = Some true → m0 !! k = Some true ∧ ReusableTetrominos st = false)
    ∧ (∀ k b, m0 !! k = None → m' !! k = Some b →
         b = false ∧ ∃ id, id ∈ GrantedItems st ∧ ToFString (ToGameKey im id) = k)
    ∧ (ReusableTetrominos st = true → ∀ k, m' !! k ≠ Some true).
Proof.
  intros Hp Hs. exists (final_map st im m0).
  rewrite EnforceCollectionState_runs by assumption. split; [reflexivity|].
  split; [|split].
  - intros k. rewrite final_map_lookup.
    destruct (decide (k ∈ removed_keys st im m0)), (m0 !! k) as [[|]|],
      (decide (k ∈ granted_keys st im)), (ReusableTetrominos st); cbn;
      intros H; try discriminate H; by split.
  - intros k b Hk. rewrite final_map_lookup, Hk.
    assert (Hnone : (if decide (k ∈ removed_keys st im m0) then None else None) = @None bool)
      by (by destruct (decide (k ∈ removed_keys st im m0))).
    rewrite Hnone.
    destruct (decide (k ∈ granted_keys st im)) as [Hin|_]; cbn; [|discriminate].
    intros [= <-]. split; [by destruct (ReusableTetrominos st)|].
    by apply elem_of_granted_keys.
  - intros Hr k. rewrite final_map_lookup, Hr.
    destruct (match _ with Some b => Some b | None => _ end) as [b|]; cbn; discriminate.
Qed.

Lemma pass_never_sets_used_witness :
  ∃ m', (EnforceCollectionState sigil_session m_itemMapping
           (Some {[ToFString "MT1" := true; ToFString "HL3" := false]})).1 = Some m'
    ∧ (∀ k, m' !! k = Some true →
         ({[ToFString "MT1" := true; ToFString "HL3" := false]} : TetrominoMap) !! k
         = Some true
         ∧ ReusableTetrominos sigil_session = false)
    ∧ (∀ k b, ({[ToFString "MT1" := true; ToFString "HL3" := false]} : TetrominoMap) !! k
              = None →
         m' !! k = Some b →
         b = false
         ∧ ∃ id, id ∈ GrantedItems sigil_session ∧ ToFString (ToGameKey m_itemMapping id) = k)
    ∧ (ReusableTetrominos sigil_session = true → ∀ k, m' !! k ≠ Some true).
Proof.
  apply (pass_never_sets_used sigil_session m_itemMapping
           {[ToFString "MT1" := true; ToFString "HL3" := false]});
    reflexivity.
Defined.

(** X12. When a pass writes nothing. A pass that runs performs no write
    (no remove, no add, no flag reset) exactly when no key of the store
    narrows to a key marked for removal, the wide form of the game key of
    every granted id is in the store, and, with [ReusableTetrominos] on, no
    flag is [true]; and a pass that writes nothing leaves the store as it
    was. *)
Theorem pass_silent_iff (st : ModState) (im : ItemMapping) (m0 : TetrominoMap) :
  CurrentProgress st = true → APSynced st = true →
  ((EnforceCollectionState st im (Some m0)).2 = []
   ↔ (∀ k, is_Some (m0 !! k) → marked_for_removal st im (FromFString k) = false)
     ∧ (∀ id, id ∈ GrantedItems st → is_Some (m0 !! ToFString (ToGameKey im id)))
     ∧ (ReusableTetrominos st = true → ∀ k, m0 !! k ≠ Some true))
  ∧ ((EnforceCollectionState st im (Some m0)).2 = [] →
     (EnforceCollectionState st im (Some m0)).1 = Some m0).
Proof.
  intros Hp Hs. rewrite EnforceCollectionState_runs by assumption. cbn [fst snd].
  unfold pass_writes, final_map.
  assert (Hsplit : ∀ (a b c : list StoreWrite),
            (a ++ b ++ c)%list = [] ↔ a = [] ∧ b = [] ∧ c = []).
  { intros a b c. split.
    - intros H. apply app_eq_nil in H as [-> H]. apply app_eq_nil in H as [-> ->]. done.
    - intros (-> & -> & ->). reflexivity. }
  rewrite Hsplit. split.
  - split.
    + intros (H1 & H2 & H3).
      pose proof (phase1_silent_map st im m0 H1) as Hm1. rewrite Hm1 in H2, H3.
      assert (Hm2 : (phase2 st im m0).1 = m0).
      { unfold phase2 in *. rewrite ensure_present_fold_noop; [reflexivity|].
        intros id Hid%elem_of_elements. cbn [fst].
        by apply (proj1 (phase2_silent_iff st im m0) H2). }
      rewrite Hm2 in H3.
      split; [by apply phase1_silent_iff|].
      split; [by apply phase2_silent_iff | by apply phase3_silent_iff].
    + intros (H1 & H2 & H3).
      apply phase1_silent_iff in H1. pose proof (phase1_silent_map st im m0 H1) as Hm1.
      rewrite Hm1. apply phase2_silent_iff in H2.
      assert (Hm2 : (phase2 st im m0).1 = m0).
      { unfold phase2 in *. rewrite ensure_present_fold_noop; [reflexivity|].
        intros id Hid%elem_of_elements. cbn [fst].
        by apply (proj1 (phase2_silent_iff st im m0) H2). }
      rewrite Hm2. apply phase3_silent_iff in H3. done.
  - intros (H1 & H2 & H3).
    pose proof (phase1_silent_map st im m0 H1) as Hm1. rewrite Hm1 in H2, H3 |- *.
    assert (Hm2 : (phase2 st im m0).1 = m0).
    { unfold phase2 in *. rewrite ensure_present_fold_noop; [reflexivity|].
      intros id Hid%elem_of_elements. cbn [fst].
      by apply (proj1 (phase2_silent_iff st im m0) H2). }
    rewrite Hm2 in H3 |- *.
    f_equal. rewrite phase3_noop; [reflexivity|].
    intros Hr k b Hk. destruct b; [|reflexivity].
    destruct (proj1 (phase3_silent_iff st m0) H3 Hr k Hk).
Qed.

(** A store that holds "MT1" only under a key that is not the wide form of
    "MT1": "MT1" is granted, no key is marked, and the pass is not silent,
    it adds the wide form of "MT1". *)
Lemma pass_silent_iff_witness :
  ((EnforceCollectionState sigil_session m_itemMapping
      (Some {[ [0x14D; 0x54; 0x31]%positive := true ]})).2 = []
   ↔ (∀ k, is_Some (({[ [0x14D; 0x54; 0x31]%positive := true ]} : TetrominoMap) !! k) →
        marked_for_removal sigil_session m_itemMapping (FromFString k) = false)
     ∧ (∀ id, id ∈ GrantedItems sigil_session →
          is_Some (({[ [0x14D; 0x54; 0x31]%positive := true ]} : TetrominoMap)
                   !! ToFString (ToGameKey m_itemMapping id)))
     ∧ (ReusableTetrominos sigil_session = true →
        ∀ k, ({[ [0x14D; 0x54; 0x31]%positive := true ]} : TetrominoMap) !! k ≠ Some true))
  ∧ (EnforceCollectionState sigil_session m_itemMapping
       (Some {[ [0x14D; 0x54; 0x31]%positive := true ]})).2
    = [TMapAdd (ToFString "MT1") false].
Proof.
  split; [|vm_compute; reflexivity].
  apply (pass_silent_iff sigil_session m_itemMapping
           {[ [0x14D; 0x54; 0x31]%positive := true ]}); reflexivity.
Defined.

(** X13. Grant, pass, revoke, pass. For an id that is not a star, that the
    registry recognises and whose category is managed, in a session none of
    whose granted ids holds a NUL character: after [GrantItem] and a pass
    the store holds the wide form of the id (unused if the pass had to add
    it); after [RevokeItem] and another pass the store no longer holds it.
    An entry under another key that narrows to the id is left where it is
    by both passes. *)
Theorem grant_pass_revoke_pass (st : ModState) (m0 : TetrominoMap) (id : string) :
  CurrentProgress st = true → APSynced st = true →
  IsStar id = false →
  0 ≤ GetLocationId m_itemMapping id →
  (IsPurpleSigil id = true → RandomisePurpleSigils st = true) →
  (∀ id', id' ∈ GrantedItems st → c_str id' = id') →
  ∃ m1 m2,
    (EnforceCollectionState (GrantItem st id) m_itemMapping (Some m0)).1 = Some m1
    ∧ is_Some (m1 !! ToFString id)
    ∧ (m0 !! ToFString id = None → m1 !! ToFString id = Some false)
    ∧ (EnforceCollectionState (RevokeItem (GrantItem st id) id) m_itemMapping (Some m1)).1
      = Some m2
    ∧ m2 !! ToFString id = None
    ∧ (∀ key, is_Some (m0 !! key) → FromFString key = id → key ≠ ToFString id →
         is_Some (m1 !! key) ∧ is_Some (m2 !! key)).
Proof.
  intros Hp Hs Hstar Hrec Hsig Hnul.
  destruct (non_star_untranslated id Hstar) as [Hto Hfrom].
  assert (Hid : c_str id = id).
  { apply recognised_no_nul. by rewrite Hfrom. }
  assert (Hnarrow : FromFString (ToFString id) = id).
  { by rewrite FromFString_ToFString. }
  set (st1 := GrantItem st id). set (st2 := RevokeItem st1 id).
  exists (final_map st1 m_itemMapping m0),
         (final_map st2 m_itemMapping (final_map st1 m_itemMapping m0)).
  rewrite !EnforceCollectionState_runs by assumption. cbn [fst].
  assert (Hin1 : id ∈ GrantedItems st1).
  { unfold st1. cbn [GrantItem set_GrantedItems GrantedItems].
    apply elem_of_union_l. apply elem_of_singleton. reflexivity. }
  assert (Hnot2 : id ∉ GrantedItems st2).
  { unfold st2. cbn [RevokeItem set_CheckedLocations set_GrantedItems GrantedItems].
    rewrite elem_of_difference, elem_of_singleton. tauto. }
  assert (Hsub2 : ∀ id', id' ∈ GrantedItems st2 → id' ∈ GrantedItems st ∧ id' ≠ id).
  { intros id'. unfold st2, st1.
    cbn [RevokeItem GrantItem set_CheckedLocations set_GrantedItems GrantedItems].
    rewrite elem_of_difference, elem_of_union, !elem_of_singleton. tauto. }
  assert (Hk1 : ToFString id ∈ granted_keys st1 m_itemMapping).
  { apply elem_of_granted_keys. exists id. split; [exact Hin1 | by rewrite Hto]. }
  assert (Hm1 : marked_for_removal st1 m_itemMapping id = false).
  { unfold marked_for_removal. rewrite Hfrom, Hstar.
    destruct (decide (id = String.EmptyString)); [reflexivity|].
    destruct (GetLocationId m_itemMapping id <? 0); [reflexivity|].
    destruct (negb (RandomisePurpleSigils st1) && IsPurpleSigil id); [reflexivity|].
    rewrite andb_false_r. apply bool_decide_eq_false. tauto. }
  assert (Hm2 : marked_for_removal st2 m_itemMapping id = true).
  { unfold marked_for_removal. rewrite Hfrom, Hstar.
    destruct (decide (id = String.EmptyString)) as [Hempty|_].
    { rewrite <- Hfrom, Hempty, empty_key_unrecognised in Hrec. lia. }
    destruct (Z.ltb_spec (GetLocationId m_itemMapping id) 0) as [Hneg|_]; [lia|].
    assert (Hguard : negb (RandomisePurpleSigils st2) && IsPurpleSigil id = false).
    { change (RandomisePurpleSigils st2) with (RandomisePurpleSigils st).
      destruct (IsPurpleSigil id);
        [rewrite (Hsig eq_refl); reflexivity | rewrite andb_false_r; reflexivity]. }
    rewrite Hguard, andb_false_r. apply bool_decide_eq_true. exact Hnot2. }
  assert (Hk2 : ToFString id ∉ granted_keys st2 m_itemMapping).
  { intros (id' & Hin & Hkey)%elem_of_granted_keys.
    destruct (Hsub2 id' Hin) as [Hin0 Hne].
    apply ToFString_inj in Hkey;
      [|apply ToGameKey_no_nul; by apply Hnul | exact Hid].
    pose proof (game_key_of_other_is_star id id' Hkey Hne). congruence. }
  (* nothing but the wide form of a marked key is removed *)
  assert (Hrem : ∀ s m key, key ∈ removed_keys s m_itemMapping m →
                   FromFString key = id → key = ToFString id
                   ∧ marked_for_removal s m_itemMapping id = true).
  { intros s m key (gk & Hmark & -> & Hc)%removed_key_marked Hkey.
    rewrite (recognised_no_nul gk (marked_is_recognised s m_itemMapping gk Hmark)) in Hc.
    rewrite Hc in Hkey. subst gk. by split. }
  assert (Hkeep1 : ToFString id ∉ removed_keys st1 m_itemMapping m0).
  { intros Hin. destruct (Hrem st1 m0 (ToFString id) Hin Hnarrow) as [_ Hmark]. congruence. }
  split; [reflexivity|]. split; [|split; [|split; [reflexivity|split]]].
  - rewrite final_map_lookup, (decide_False _ _ Hkeep1), (decide_True _ _ Hk1).
    destruct (m0 !! ToFString id); cbn; eexists; reflexivity.
  - intros Hnone.
    rewrite final_map_lookup, (decide_False _ _ Hkeep1), Hnone, (decide_True _ _ Hk1).
    cbn. destruct (ReusableTetrominos _); reflexivity.
  - rewrite final_map_lookup.
    rewrite decide_True, (decide_False _ _ Hk2); [reflexivity|].
    apply plain_key_removed; [apply plain_key_ToFString| |by rewrite Hnarrow].
    rewrite final_map_lookup, (decide_False _ _ Hkeep1), (decide_True _ _ Hk1).
    destruct (m0 !! ToFString id); cbn; eexists; reflexivity.
  - intros key [b Hb] Hkey Hne.
    assert (Hstay : ∀ s m, is_Some (m !! key) → is_Some (final_map s m_itemMapping m !! key)).
    { intros s m [b' Hb']. rewrite final_map_lookup, decide_False, Hb'.
      - cbn. by eexists.
      - intros Hin. destruct (Hrem s m key Hin Hkey) as [Heq _]. contradiction. }
    split; [apply Hstay; by eexists|]. apply Hstay, Hstay. by eexists.
Qed.

Lemma grant_pass_revoke_pass_witness :
  ∃ m1 m2,
    (EnforceCollectionState (GrantItem synced_state "DJ3") m_itemMapping
       (Some {[ [0x144; 0x4A; 0x33]%positive := true ]})).1 = Some m1
    ∧ is_Some (m1 !! ToFString "DJ3")
    ∧ (({[ [0x144; 0x4A; 0x33]%positive := true ]} : TetrominoMap) !! ToFString "DJ3" = None →
       m1 !! ToFString "DJ3" = Some false)
    ∧ (EnforceCollectionState (RevokeItem (GrantItem synced_state "DJ3") "DJ3") m_itemMapping
         (Some m1)).1 = Some m2
    ∧ m2 !! ToFString "DJ3" = None
    ∧ (∀ key, is_Some (({[ [0x144; 0x4A; 0x33]%positive := true ]} : TetrominoMap) !! key) →
         FromFString key = "DJ3" → key ≠ ToFString "DJ3" →
         is_Some (m1 !! key) ∧ is_Some (m2 !! key)).
Proof.
  apply (grant_pass_revoke_pass synced_state {[ [0x144; 0x4A; 0x33]%positive := true ]} "DJ3").
  - reflexivity.
  - reflexivity.
  - vm_compute. reflexivity.
  - vm_compute. discriminate.
  - vm_compute. discriminate.
  - intros id' Hid'. by apply not_elem_of_empty in Hid'.
Defined.

(** X14. Categories that are not randomised are left in the store. With
    [RandomisePurpleSigils] off a key that translates to a purple sigil, and
    with [RandomiseStars] off a key that translates to a star, is never
    removed by a pass, granted or not; its flag is kept, or reset to
    [false] when the pass runs with [ReusableTetrominos] on. This for every
    registry that recognises no key with a NUL character, as the
    constructed one. *)
Theorem unmanaged_categories_kept
    (st : ModState) (im : ItemMapping) (m0 : TetrominoMap) (k : FString) (used : bool) :
  (∀ gameKey, 0 ≤ GetLocationId im (FromGameKey im gameKey) → c_str gameKey = gameKey) →
  (RandomisePurpleSigils st = false ∧ IsPurpleSigil (FromGameKey im (FromFString k)) = true)
  ∨ (RandomiseStars st = false ∧ IsStar (FromGameKey im (FromFString k)) = true) →
  m0 !! k = Some used →
  ∃ m', (EnforceCollectionState st im (Some m0)).1 = Some m'
    ∧ m' !! k
      = Some (if CurrentProgress st && APSynced st && ReusableTetrominos st
              then false else used)
    ∧ TMapRemove k ∉ (EnforceCollectionState st im (Some m0)).2.
Proof.
  intros Hreg Hcat Hk.
  assert (Hm : marked_for_removal st im (FromFString k) = false).
  { unfold marked_for_removal.
    destruct (decide (FromFString k = String.EmptyString)); [reflexivity|].
    destruct (GetLocationId im (FromGameKey im (FromFString k)) <? 0); [reflexivity|].
    destruct Hcat as [[-> ->]|[-> Hstar]]; [reflexivity|].
    destruct (negb (RandomisePurpleSigils st)
              && IsPurpleSigil (FromGameKey im (FromFString k))); [reflexivity|].
    by rewrite Hstar. }
  assert (Hkeep : k ∉ removed_keys st im m0).
  { intros (gk & Hmark & -> & Hnarrow)%removed_key_marked.
    rewrite (Hreg gk (marked_is_recognised st im gk Hmark)) in Hnarrow.
    rewrite Hnarrow in Hm. congruence. }
  destruct (CurrentProgress st) eqn:Hp; [destruct (APSynced st) eqn:Hs|].
  - exists (final_map st im m0).
    rewrite EnforceCollectionState_runs by assumption. cbn [fst snd andb].
    split; [reflexivity|]. split.
    + rewrite final_map_lookup, (decide_False _ _ Hkeep), Hk. reflexivity.
    + unfold pass_writes. rewrite !elem_of_app. intros [Hin|[Hin|Hin]].
      * unfold phase1 in Hin. cbn [snd] in Hin.
        apply list_elem_of_fmap in Hin as (gk & [= ->] & Hin).
        apply Hkeep. unfold removed_keys. apply list_elem_of_fmap. by exists gk.
      * destruct (ensure_present_fold_adds im (elements (GrantedItems st))
                    ((phase1 st im m0).1, []) (TMapRemove k)) as [Hin'|Hadd].
        { exact Hin. }
        { by apply elem_of_nil in Hin'. }
        { destruct Hadd as (k' & Heq). discriminate Heq. }
      * unfold phase3 in Hin. destruct (ReusableTetrominos st); cbn [snd] in Hin.
        -- apply list_elem_of_fmap in Hin as (kv & Heq & _). discriminate Heq.
        -- by apply elem_of_nil in Hin.
  - exists m0. rewrite EnforceCollectionState_skips by auto. cbn [fst snd andb].
    split; [reflexivity|]. split; [exact Hk | apply not_elem_of_nil].
  - exists m0. rewrite EnforceCollectionState_skips by auto. cbn [fst snd andb].
    split; [reflexivity|]. split; [exact Hk | apply not_elem_of_nil].
Qed.

Lemma unmanaged_categories_kept_witness :
  ∃ m', (EnforceCollectionState synced_state m_itemMapping
           (Some {[ToFString "HL3" := true; ToFString "**4" := false]})).1 = Some m'
    ∧ m' !! ToFString "HL3"
      = Some (if CurrentProgress synced_state && APSynced synced_state
                 && ReusableTetrominos synced_state
              then false else true)
    ∧ TMapRemove (ToFString "HL3")
      ∉ (EnforceCollectionState synced_state m_itemMapping
           (Some {[ToFString "HL3" := true; ToFString "**4" := false]})).2.
Proof.
  apply (unmanaged_categories_kept synced_state m_itemMapping
           {[ToFString "HL3" := true; ToFString "**4" := false]} (ToFString "HL3") true).
  - exact recognised_no_nul.
  - left. split; vm_compute; reflexivity.
  - vm_compute. reflexivity.
Defined.

(** ** Death link: inbound outcomes, deferral, outbound *)

Lemma not_delivers_inv (w : WorldView) :
  pc_found w = true → pawn_found w = true → bIsDead w = false → ¬ delivers w →
  haveLocation w && mines_found w && teleport_ok w = false.
Proof.
  intros Hpc Hpawn Hdead Hnot.
  destruct (haveLocation w) eqn:Hl, (mines_found w) eqn:Hm, (teleport_ok w) eqn:Ht;
    try reflexivity.
  exfalso. apply Hnot. unfold delivers. auto 10.
Qed.

Lemma ProcessPendingDeathLink_cases (st : ModState) (w : WorldView) (hud : bool) :
  PendingDeathLinkReceive st = true →
  PendingDeathLinkReceive (ProcessPendingDeathLink st w hud).1 = false
  ∧ PendingDeathLinkSend (ProcessPendingDeathLink st w hud).1 = PendingDeathLinkSend st
  ∧ (pc_found w = false ∨ pawn_found w = false ∨ bIsDead w = true →
     ProcessPendingDeathLink st w hud = (set_PendingDeathLinkReceive st false, []))
  ∧ (delivers w →
     IsDeathLinkDeath (ProcessPendingDeathLink st w hud).1 = true
     ∧ PendingDeferredDeathLink (ProcessPendingDeathLink st w hud).1
       = PendingDeferredDeathLink st
     ∧ (ProcessPendingDeathLink st w hud).2
       = if hud
         then if decide (DeathLinkCause st = String.EmptyString)
              then [KilledYou (DeathLinkSource st)]
              else [CauseMessage (DeathLinkCause st)]
         else [])
  ∧ (pc_found w = true → pawn_found w = true → bIsDead w = false → ¬ delivers w →
     PendingDeferredDeathLink (ProcessPendingDeathLink st w hud).1 = true
     ∧ IsDeathLinkDeath (ProcessPendingDeathLink st w hud).1
       = (if haveLocation w && mines_found w then false else IsDeathLinkDeath st)
     ∧ (ProcessPendingDeathLink st w hud).2
       = if hud && negb (PendingDeferredDeathLink st) then [DeathIsComing] else []).
Proof.
  intros Hrecv. unfold ProcessPendingDeathLink. rewrite Hrecv. cbn [negb].
  split; [|split; [|split; [|split]]].
  - destruct (pc_found w), (pawn_found w), (bIsDead w), (haveLocation w), (mines_found w),
      (teleport_ok w); reflexivity.
  - destruct (pc_found w), (pawn_found w), (bIsDead w), (haveLocation w), (mines_found w),
      (teleport_ok w); reflexivity.
  - intros [H|[H|H]]; rewrite H.
    + reflexivity.
    + destruct (pc_found w); reflexivity.
    + destruct (pc_found w), (pawn_found w); reflexivity.
  - intros (Hpc & Hpawn & Hdead & Hloc & Hmine & Htp).
    rewrite Hpc, Hpawn, Hdead, Hloc, Hmine, Htp. cbn.
    split; [reflexivity|]. split; reflexivity.
  - intros Hpc Hpawn Hdead Hnot.
    pose proof (not_delivers_inv w Hpc Hpawn Hdead Hnot) as Hk.
    rewrite Hpc, Hpawn, Hdead. cbn [negb].
    destruct (haveLocation w), (mines_found w), (teleport_ok w); try discriminate Hk;
      cbn; (split; [reflexivity|]); split; reflexivity.
Qed.


Lemma ProcessDeathLinks_fields (s : ModState) (w : WorldView) (hud apClient : bool) :
  PendingDeathLinkReceive (ProcessDeathLinks s w hud apClient).1.1
  = PendingDeathLinkReceive
      (if DeathLinkEnabled s then (ProcessPendingDeathLink s w hud).1 else s)
  ∧ (ProcessDeathLinks s w hud apClient).1.2
    = (if DeathLinkEnabled s then (ProcessPendingDeathLink s w hud).2 else [])
  ∧ PendingDeferredDeathLink (ProcessDeathLinks s w hud apClient).1.1
    = PendingDeferredDeathLink
        (if DeathLinkEnabled s then (ProcessPendingDeathLink s w hud).1 else s)
  ∧ IsDeathLinkDeath (ProcessDeathLinks s w hud apClient).1.1
    = IsDeathLinkDeath
        (if DeathLinkEnabled s then (ProcessPendingDeathLink s w hud).1 else s).
Proof.
  unfold ProcessDeathLinks.
  destruct (DeathLinkEnabled s).
  - destruct (ProcessPendingDeathLink s w hud) as [s1 msgs]. cbn [fst snd].
    destruct (PendingDeathLinkSend s1); cbn; auto.
  - destruct (PendingDeathLinkSend s); cbn; auto.
Qed.

(** X15. What becomes of an inbound death link. A pending request is
    consumed by the call whatever happens, and the outbound flag is not
    touched. If the player is not found or already dead the request is
    dropped: nothing else changes and nothing is shown. If the world
    delivers (player alive, position read, a mine found, teleport done)
    the echo flag [IsDeathLinkDeath] is set, the deferral flag is left as
    it was and the kill message is shown. In every other case the death is
    deferred: [PendingDeferredDeathLink] is set, the echo flag is cleared
    if a teleport was attempted, and "Death is coming" is shown only if no
    deferral was pending already. *)
Theorem inbound_death_outcomes (st : ModState) (w : WorldView) (hud : bool) :
  PendingDeathLinkReceive st = true →
  PendingDeathLinkReceive (ProcessPendingDeathLink st w hud).1 = false
  ∧ PendingDeathLinkSend (ProcessPendingDeathLink st w hud).1 = PendingDeathLinkSend st
  ∧ (pc_found w = false ∨ pawn_found w = false ∨ bIsDead w = true →
     ProcessPendingDeathLink st w hud = (set_PendingDeathLinkReceive st false, []))
  ∧ (delivers w →
     IsDeathLinkDeath (ProcessPendingDeathLink st w hud).1 = true
     ∧ PendingDeferredDeathLink (ProcessPendingDeathLink st w hud).1
       = PendingDeferredDeathLink st
     ∧ (ProcessPendingDeathLink st w hud).2
       = if hud
         then if decide (DeathLinkCause st = String.EmptyString)
              then [KilledYou (DeathLinkSource st)]
              else [CauseMessage (DeathLinkCause st)]
         else [])
  ∧ (pc_found w = true → pawn_found w = true → bIsDead w = false → ¬ delivers w →
     PendingDeferredDeathLink (ProcessPendingDeathLink st w hud).1 = true
     ∧ IsDeathLinkDeath (ProcessPendingDeathLink st w hud).1
       = (if haveLocation w && mines_found w then false else IsDeathLinkDeath st)
     ∧ (ProcessPendingDeathLink st w hud).2
       = if hud && negb (PendingDeferredDeathLink st) then [DeathIsComing] else []).
Proof.
  intros Hrecv. unfold ProcessPendingDeathLink. rewrite Hrecv. cbn [negb].
  split; [|split; [|split; [|split]]].
  - destruct (pc_found w), (pawn_found w), (bIsDead w), (haveLocation w), (mines_found w),
      (teleport_ok w); reflexivity.
  - destruct (pc_found w), (pawn_found w), (bIsDead w), (haveLocation w), (mines_found w),
      (teleport_ok w); reflexivity.
  - intros [H|[H|H]]; rewrite H.
    + reflexivity.
    + destruct (pc_found w); reflexivity.
    + destruct (pc_found w), (pawn_found w); reflexivity.
  - intros (Hpc & Hpawn & Hdead & Hloc & Hmine & Htp).
    rewrite Hpc, Hpawn, Hdead, Hloc, Hmine, Htp. cbn.
    split; [reflexivity|]. split; reflexivity.
  - intros Hpc Hpawn Hdead Hnot.
    pose proof (not_delivers_inv w Hpc Hpawn Hdead Hnot) as Hk.
    rewrite Hpc, Hpawn, Hdead. cbn [negb].
    destruct (haveLocation w), (mines_found w), (teleport_ok w); try discriminate Hk;
      cbn; (split; [reflexivity|]); split; reflexivity.
Qed.

Lemma inbound_death_outcomes_witness :
  PendingDeathLinkReceive (ProcessPendingDeathLink inbound_session mine_world true).1 = false
  ∧ IsDeathLinkDeath (ProcessPendingDeathLink inbound_session mine_world true).1 = true.
Proof.
  destruct (inbound_death_outcomes inbound_session mine_world true eq_refl)
    as (Hrecv & _ & _ & Hdel & _).
  split; [exact Hrecv|].
  apply Hdel. vm_compute. repeat split; reflexivity.
Defined.

(** X16. A deferred death waits for the next level. With death link on and
    a deferral pending (no inbound request pending): while the level
    transition cooldown lasts, [HandleLevelTransitionCooldown] skips the
    frame and leaves the session state alone; if no cooldown was seen, it
    changes nothing and [ProcessDeathLinks] neither shows a message nor
    touches the deferral and echo flags, mines or not; on the first frame
    after a cooldown it turns the deferral into a pending request exactly
    once, and [ProcessDeathLinks] of that frame (the progress refresh in
    between may have set [CurrentProgress] to any value [cp]) consumes it:
    delivered if the world delivers, deferred again if the player is alive
    but cannot be killed, dropped for good if the player is not found or
    already dead. *)
Theorem deferred_death_waits_for_transition
    (mc : ModCore) (w : WorldView) (hud apClient cp : bool) :
  DeathLinkEnabled (m_state mc) = true →
  PendingDeferredDeathLink (m_state mc) = true →
  PendingDeathLinkReceive (m_state mc) = false →
  ((HandleLevelTransitionCooldown mc true).1 = true
   ∧ m_state (HandleLevelTransitionCooldown mc true).2 = m_state mc
   ∧ m_levelTransitionCooldownWasActive (HandleLevelTransitionCooldown mc true).2 = true)
  ∧ (m_levelTransitionCooldownWasActive mc = false →
     HandleLevelTransitionCooldown mc false = (false, mc)
     ∧ (ProcessDeathLinks (set_CurrentProgress (m_state mc) cp) w hud apClient).1.2 = []
     ∧ PendingDeferredDeathLink
         (ProcessDeathLinks (set_CurrentProgress (m_state mc) cp) w hud apClient).1.1 = true
     ∧ IsDeathLinkDeath
         (ProcessDeathLinks (set_CurrentProgress (m_state mc) cp) w hud apClient).1.1
       = IsDeathLinkDeath (m_state mc))
  ∧ (m_levelTransitionCooldownWasActive mc = true →
     (HandleLevelTransitionCooldown mc false).1 = false
     ∧ m_levelTransitionCooldownWasActive (HandleLevelTransitionCooldown mc false).2 = false
     ∧ PendingDeathLinkReceive (m_state (HandleLevelTransitionCooldown mc false).2) = true
     ∧ PendingDeferredDeathLink (m_state (HandleLevelTransitionCooldown mc false).2) = false
     ∧ (HandleLevelTransitionCooldown (HandleLevelTransitionCooldown mc false).2 false).2
       = (HandleLevelTransitionCooldown mc false).2
     ∧ ∀ st2,
         st2 = (ProcessDeathLinks
                  (set_CurrentProgress (m_state (HandleLevelTransitionCooldown mc false).2) cp)
                  w hud apClient).1.1 →
         PendingDeathLinkReceive st2 = false
         ∧ (delivers w →
            IsDeathLinkDeath st2 = true ∧ PendingDeferredDeathLink st2 = false)
         ∧ (pc_found w = true → pawn_found w = true → bIsDead w = false → ¬ delivers w →
            PendingDeferredDeathLink st2 = true)
         ∧ (pc_found w = false ∨ pawn_found w = false ∨ bIsDead w = true →
            PendingDeferredDeathLink st2 = false ∧ IsDeathLinkDeath st2
                                                   = IsDeathLinkDeath (m_state mc))).
Proof.
  intros Hen Hdef Hrecv. split; [|split].
  - unfold HandleLevelTransitionCooldown. cbn. auto.
  - intros Hwas. unfold HandleLevelTransitionCooldown. rewrite Hwas. cbn [negb].
    split; [reflexivity|].
    destruct (ProcessDeathLinks_fields (set_CurrentProgress (m_state mc) cp) w hud apClient)
      as (_ & Hf2 & Hf3 & Hf4).
    rewrite Hf2, Hf3, Hf4.
    change (DeathLinkEnabled (set_CurrentProgress (m_state mc) cp))
      with (DeathLinkEnabled (m_state mc)).
    rewrite Hen. unfold ProcessPendingDeathLink.
    change (PendingDeathLinkReceive (set_CurrentProgress (m_state mc) cp))
      with (PendingDeathLinkReceive (m_state mc)).
    rewrite Hrecv. cbn. auto.
  - intros Hwas. unfold HandleLevelTransitionCooldown. rewrite Hwas, Hdef, Hen. cbn.
    split; [reflexivity|]. split; [reflexivity|]. split; [reflexivity|].
    split; [reflexivity|]. split; [reflexivity|].
    intros st2 ->.
    set (s := set_CurrentProgress
                (set_PendingDeathLinkReceive
                   (set_PendingDeferredDeathLink (m_state mc) false) true) cp).
    destruct (ProcessDeathLinks_fields s w hud apClient) as (Hf1 & _ & Hf3 & Hf4).
    rewrite Hf1, Hf3, Hf4.
    assert (Hens : DeathLinkEnabled s = true) by exact Hen.
    rewrite Hens.
    destruct (ProcessPendingDeathLink_cases s w hud eq_refl)
      as (Hc1 & _ & Hdrop & Hdel & Hdefer).
    split; [exact Hc1|]. split; [|split].
    + intros Hw. destruct (Hdel Hw) as (Hd1 & Hd2 & _). split; [exact Hd1|].
      rewrite Hd2. reflexivity.
    + intros Hpc Hpawn Hdead Hnot.
      destruct (Hdefer Hpc Hpawn Hdead Hnot) as (Hd1 & _). exact Hd1.
    + intros Hw. rewrite (Hdrop Hw). cbn. auto.
Qed.

Lemma deferred_death_waits_for_transition_witness :
  (HandleLevelTransitionCooldown deferred_core true).1 = true
  ∧ PendingDeathLinkReceive (m_state (HandleLevelTransitionCooldown deferred_core false).2)
    = true
  ∧ PendingDeferredDeathLink (m_state (HandleLevelTransitionCooldown deferred_core false).2)
    = false.
Proof.
  destruct (deferred_death_waits_for_transition deferred_core mine_world true true true
              eq_refl eq_refl eq_refl) as ((Hskip & _) & _ & Hafter).
  destruct (Hafter eq_refl) as (_ & _ & Hrecv & Hdef & _).
  split; [exact Hskip|]. split; [exact Hrecv | exact Hdef].
Defined.

(** X17. A local death is sent once. With death link on and the echo flag
    clear, the death hook queues a send; the next [ProcessDeathLinks] sends
    exactly one death link if the client is connected (none if it is not:
    the death is then lost) and clears the queue, so the call after it
    sends nothing; several deaths observed before that call are sent as
    one. *)
Theorem local_death_sent_once (st : ModState) (w w' : WorldView) (hud apClient apClient' : bool) :
  DeathLinkEnabled st = true → IsDeathLinkDeath st = false →
  PendingDeathLinkSend (SetDeath_hook st) = true
  ∧ (ProcessDeathLinks (SetDeath_hook st) w hud apClient).2
    = (if apClient then ["Died in The Talos Principle"] else [])
  ∧ PendingDeathLinkSend (ProcessDeathLinks (SetDeath_hook st) w hud apClient).1.1 = false
  ∧ (ProcessDeathLinks (ProcessDeathLinks (SetDeath_hook st) w hud apClient).1.1
       w' hud apClient').2 = []
  ∧ (ProcessDeathLinks (SetDeath_hook (SetDeath_hook st)) w hud apClient).2
    = (if apClient then ["Died in The Talos Principle"] else []).
Proof.
  intros Hen Hflag.
  assert (Hhook : SetDeath_hook st = set_PendingDeathLinkSend st true).
  { unfold SetDeath_hook. rewrite Hen, Hflag. reflexivity. }
  assert (Hhook2 : SetDeath_hook (SetDeath_hook st) = set_PendingDeathLinkSend st true).
  { rewrite Hhook. unfold SetDeath_hook. cbn. rewrite Hen, Hflag. cbn.
    destruct st; reflexivity. }
  rewrite Hhook2, Hhook.
  assert (Hsend : ∀ s ww h, PendingDeathLinkSend (ProcessPendingDeathLink s ww h).1
                            = PendingDeathLinkSend s).
  { intros s ww h. unfold ProcessPendingDeathLink.
    destruct (PendingDeathLinkReceive s), (pc_found ww), (pawn_found ww), (bIsDead ww),
      (haveLocation ww), (mines_found ww), (teleport_ok ww); reflexivity. }
  assert (Hena : ∀ s ww h, DeathLinkEnabled (ProcessPendingDeathLink s ww h).1
                           = DeathLinkEnabled s).
  { intros s ww h. unfold ProcessPendingDeathLink.
    destruct (PendingDeathLinkReceive s), (pc_found ww), (pawn_found ww), (bIsDead ww),
      (haveLocation ww), (mines_found ww), (teleport_ok ww); reflexivity. }
  assert (Hrun : ∀ s ww h c, DeathLinkEnabled s = true → PendingDeathLinkSend s = true →
            (ProcessDeathLinks s ww h c).2
            = (if c then ["Died in The Talos Principle"] else [])
            ∧ PendingDeathLinkSend (ProcessDeathLinks s ww h c).1.1 = false
            ∧ DeathLinkEnabled (ProcessDeathLinks s ww h c).1.1 = true).
  { intros s ww h c He Hs. unfold ProcessDeathLinks. rewrite He.
    pose proof (Hsend s ww h) as H1. pose proof (Hena s ww h) as H2.
    destruct (ProcessPendingDeathLink s ww h) as [s1 msgs]. cbn [fst] in H1, H2.
    rewrite H1, Hs. cbn [fst snd]. rewrite H2, He, andb_true_r.
    split; [reflexivity|]. split; [reflexivity|]. cbn. exact (eq_trans H2 He). }
  assert (Hidle : ∀ s ww h c, PendingDeathLinkSend s = false →
            (ProcessDeathLinks s ww h c).2 = []).
  { intros s ww h c Hs. unfold ProcessDeathLinks.
    destruct (DeathLinkEnabled s).
    - pose proof (Hsend s ww h) as H1.
      destruct (ProcessPendingDeathLink s ww h) as [s1 msgs]. cbn [fst] in H1.
      rewrite H1, Hs. reflexivity.
    - rewrite Hs. reflexivity. }
  destruct (Hrun (set_PendingDeathLinkSend st true) w hud apClient Hen eq_refl)
    as (H1 & H2 & _).
  split; [reflexivity|]. split; [exact H1|]. split; [exact H2|].
  split; [|exact H1]. apply Hidle. exact H2.
Qed.

Lemma local_death_sent_once_witness :
  PendingDeathLinkSend (SetDeath_hook alive_link_session) = true
  ∧ (ProcessDeathLinks (SetDeath_hook alive_link_session) mine_world true true).2
    = ["Died in The Talos Principle"].
Proof.
  destruct (local_death_sent_once alive_link_session mine_world mine_world true true true
              eq_refl eq_refl) as (H1 & H2 & _).
  split; [exact H1 | exact H2].
Defined.

(** ** TickScheduler: the 200 ms gate *)

Lemma ShouldTick_later (per_ms now : Z) (s : TickScheduler) :
  0 < per_ms → m_lastTick s ≠ 0 → m_lastTick s ≤ now →
  ShouldTick per_ms now s
  = if decide (m_lastTick s + TICK_INTERVAL_MS * per_ms ≤ now)
    then (true, mkTickScheduler (m_frame s) now)
    else (false, s).
Proof.
  intros Hper Hlast Hle. unfold ShouldTick, duration_cast_ms, TICK_INTERVAL_MS.
  rewrite decide_False by exact Hlast.
  rewrite Z.quot_div_nonneg by lia.
  pose proof (Z.div_mod (now - m_lastTick s) per_ms ltac:(lia)) as Hdm.
  pose proof (Z.mod_pos_bound (now - m_lastTick s) per_ms Hper) as Hmod.
  destruct (Z.leb_spec 200 ((now - m_lastTick s) `div` per_ms)) as [Hq|Hq].
  - rewrite decide_True by nia. reflexivity.
  - rewrite decide_False by nia. reflexivity.
Qed.

Lemma gated_frames_later (per_ms : Z) (nows : list Z) :
  0 < per_ms →
  ∀ s : TickScheduler,
    0 < m_lastTick s →
    Forall (λ t, m_lastTick s ≤ t) nows →
    StronglySorted Z.le nows →
    Forall (λ f, m_lastTick s + TICK_INTERVAL_MS * per_ms ≤ f) (gated_frames per_ms s nows).1
    ∧ (∀ (i : nat) a b, (gated_frames per_ms s nows).1 !! i = Some a →
         (gated_frames per_ms s nows).1 !! S i = Some b →
         a + TICK_INTERVAL_MS * per_ms ≤ b)
    ∧ (∀ t, t ∈ nows →
         t < m_lastTick s + TICK_INTERVAL_MS * per_ms
         ∨ ∃ f, f ∈ (gated_frames per_ms s nows).1
                ∧ f ≤ t < f + TICK_INTERVAL_MS * per_ms)
    ∧ (∀ f, f ∈ (gated_frames per_ms s nows).1 → f ∈ nows).
Proof.
  intros Hper. induction nows as [|now rest IH]; intros s Hpos Hge Hsorted.
  { simpl. split; [constructor|]. split; [intros i a b H; by rewrite lookup_nil in H|].
    split; intros t Ht; by apply elem_of_nil in Ht. }
  apply Forall_cons in Hge as [Hnow Hge].
  apply StronglySorted_inv in Hsorted as [Hsorted Hrest].
  cbn [gated_frames].
  rewrite (ShouldTick_later per_ms now (Advance s) Hper) by (cbn; lia).
  change (m_lastTick (Advance s)) with (m_lastTick s).
  assert (HG : 0 < TICK_INTERVAL_MS * per_ms) by (unfold TICK_INTERVAL_MS; lia).
  destruct (decide (m_lastTick s + TICK_INTERVAL_MS * per_ms ≤ now)) as [Hfire|Hwait];
    cbn [fst snd].
  - destruct (IH (mkTickScheduler (m_frame (Advance s)) now)) as (Ha & Hb & Hc & Hd).
    { cbn. lia. }
    { cbn. exact Hrest. }
    { exact Hsorted. }
    cbn [m_lastTick] in Ha, Hc.
    set (rs := gated_frames per_ms (mkTickScheduler (m_frame (Advance s)) now) rest) in *.
    split; [|split; [|split]].
    + constructor; [exact Hfire|].
      eapply Forall_impl; [exact Ha|]. cbn. intros f Hf. lia.
    + intros [|i] a b Hi Hsi; cbn in Hi, Hsi.
      * injection Hi as <-. rewrite Forall_forall in Ha.
        apply Ha. eapply list_elem_of_lookup_2. exact Hsi.
      * exact (Hb i a b Hi Hsi).
    + intros t [->|Ht]%elem_of_cons.
      * right. exists now. split; [apply list_elem_of_here | lia].
      * right. destruct (Hc t Ht) as [Hlt|(f & Hf & Hr)].
        -- exists now. split; [apply list_elem_of_here|].
           rewrite Forall_forall in Hrest. specialize (Hrest t Ht). lia.
        -- exists f. split; [by apply list_elem_of_further | exact Hr].
    + intros f [->|Hf]%elem_of_cons; [apply list_elem_of_here|].
      apply list_elem_of_further. by apply Hd.
  - destruct (IH (Advance s)) as (Ha & Hb & Hc & Hd).
    { exact Hpos. }
    { exact Hge. }
    { exact Hsorted. }
    change (m_lastTick (Advance s)) with (m_lastTick s) in Ha, Hc.
    split; [exact Ha|]. split; [exact Hb|]. split.
    + intros t [->|Ht]%elem_of_cons; [left; lia | by apply Hc].
    + intros f Hf. apply list_elem_of_further. by apply Hd.
Qed.

Lemma gated_frames_count (per_ms : Z) (nows : list Z) :
  ∀ s : TickScheduler,
    FrameCount (gated_frames per_ms s nows).2
    = if nows is [] then m_frame s
      else (m_frame s + Z.of_nat (length nows)) `mod` 2 ^ 64.
Proof.
  induction nows as [|now rest IH]; intros s; [reflexivity|].
  cbn [gated_frames snd]. rewrite IH.
  assert (Hf : m_frame (ShouldTick per_ms now (Advance s)).2 = (m_frame s + 1) `mod` 2 ^ 64).
  { unfold ShouldTick. destruct (decide _); [reflexivity|]. destruct (_ <=? _); reflexivity. }
  rewrite Hf. destruct rest as [|now' rest'].
  - reflexivity.
  - rewrite Zplus_mod_idemp_l. f_equal. cbn [length]. lia.
Qed.

(** X18. The gate of the main loop. On a clock that has left its epoch
    and never runs backwards, frame after frame: the first frame passes the
    gate; two frames that pass one after the other are at least
    [TICK_INTERVAL_MS] apart; no frame is held back longer than that (every
    frame lies less than [TICK_INTERVAL_MS] after a frame that passed, or is
    one); and the frame counter counts every frame, passed or not. *)
Theorem tick_gate (per_ms : Z) (nows : list Z) :
  0 < per_ms →
  Forall (λ t, 0 < t) nows →
  StronglySorted Z.le nows →
  head (gated_frames per_ms TickScheduler_new nows).1 = head nows
  ∧ (∀ (i : nat) a b,
       (gated_frames per_ms TickScheduler_new nows).1 !! i = Some a →
       (gated_frames per_ms TickScheduler_new nows).1 !! S i = Some b →
       a + TICK_INTERVAL_MS * per_ms ≤ b)
  ∧ (∀ t, t ∈ nows →
       ∃ f, f ∈ (gated_frames per_ms TickScheduler_new nows).1
            ∧ f ≤ t < f + TICK_INTERVAL_MS * per_ms)
  ∧ (∀ f, f ∈ (gated_frames per_ms TickScheduler_new nows).1 → f ∈ nows)
  ∧ FrameCount (gated_frames per_ms TickScheduler_new nows).2
    = Z.of_nat (length nows) `mod` 2 ^ 64.
Proof.
  intros Hper Hpos Hsorted.
  destruct nows as [|now rest].
  { cbn. split; [reflexivity|]. split; [intros i a b H; by rewrite lookup_nil in H|].
    split; [intros t Ht; by apply elem_of_nil in Ht|].
    split; [intros t Ht; by apply elem_of_nil in Ht | reflexivity]. }
  split; [|split; [|split; [|split]]]; try (rewrite gated_frames_count; reflexivity).
  all: apply Forall_cons in Hpos as [Hnow Hpos].
  all: apply StronglySorted_inv in Hsorted as [Hsorted Hrest].
  all: cbn [gated_frames]; unfold ShouldTick at 1 2.
  all: change (m_lastTick (Advance TickScheduler_new)) with 0.
  all: rewrite decide_True by reflexivity; cbn [fst snd].
  all: destruct (gated_frames_later per_ms rest Hper
                   (mkTickScheduler (m_frame (Advance TickScheduler_new)) now))
         as (Ha & Hb & Hc & Hd); [exact Hnow | exact Hrest | exact Hsorted |].
  all: cbn [m_lastTick] in Ha, Hc.
  - reflexivity.
  - intros [|i] a b Hi Hsi; cbn in Hi, Hsi.
    + injection Hi as <-. rewrite Forall_forall in Ha.
      apply Ha. eapply list_elem_of_lookup_2. exact Hsi.
    + exact (Hb i a b Hi Hsi).
  - assert (HG : 0 < TICK_INTERVAL_MS * per_ms) by (unfold TICK_INTERVAL_MS; lia).
    intros t [->|Ht]%elem_of_cons.
    + exists now. split; [apply list_elem_of_here | lia].
    + destruct (Hc t Ht) as [Hlt|(f & Hf & Hr)].
      * exists now. split; [apply list_elem_of_here|].
        rewrite Forall_forall in Hrest. specialize (Hrest t Ht). lia.
      * exists f. split; [by apply list_elem_of_further | exact Hr].
  - intros f [->|Hf]%elem_of_cons; [apply list_elem_of_here|].
    apply list_elem_of_further. by apply Hd.
Qed.

Lemma tick_gate_witness :
  gated_frames 1000000 TickScheduler_new
    [5000000; 105000000; 205000000; 230000000; 404999999; 405000000]
  = ([5000000; 205000000; 405000000], mkTickScheduler 6 405000000)
  ∧ (∀ (i : nat) a b,
       (gated_frames 1000000 TickScheduler_new
          [5000000; 105000000; 205000000; 230000000; 404999999; 405000000]).1 !! i = Some a →
       (gated_frames 1000000 TickScheduler_new
          [5000000; 105000000; 205000000; 230000000; 404999999; 405000000]).1 !! S i = Some b →
       a + TICK_INTERVAL_MS * 1000000 ≤ b).
Proof.
  split; [vm_compute; reflexivity|].
  apply (tick_gate 1000000 [5000000; 105000000; 205000000; 230000000; 404999999; 405000000]).
  - lia.
  - repeat constructor.
  - repeat (constructor; [|repeat constructor; lia]). constructor.
Defined.

(** ** Goal detection *)

Lemma FireGoal_fires (h : GoalDetectionHandler) (goalName : string) :
  m_goalCompleted h = false →
  m_goalCompleted (FireGoal h goalName) = true
  ∧ m_completedGoalName (FireGoal h goalName) = goalName
  ∧ m_previousGameCompleted (FireGoal h goalName) = m_previousGameCompleted h.
Proof. intros Hnot. unfold FireGoal. rewrite Hnot. auto. Qed.

Lemma poll_player_spec (h : GoalDetectionHandler) (p : MediaPlayer) :
  m_goalCompleted h = false →
  m_previousGameCompleted (poll_player h p).1 = m_previousGameCompleted h
  ∧ m_pollReadyTime (poll_player h p).1 = m_pollReadyTime h
  ∧ m_pollingActive (poll_player h p).1 = m_pollingActive h
  ∧ ((poll_player h p).2 = false → m_goalCompleted (poll_player h p).1 = false)
  ∧ ((poll_player h p).2 = true →
     m_goalCompleted (poll_player h p).1 = true
     ∧ m_completedGoalName (poll_player h p).1 = "Ascension"
     ∧ ∃ url, is_secondary p = true ∧ first_url p = Some url
              ∧ contains "Ending_Ascension" url = true).
Proof.
  intros Hnot. unfold poll_player.
  destruct (is_secondary p) eqn:Hsec; cbn [negb fst snd];
    [|repeat split; try discriminate; intros _; exact Hnot].
  destruct (first_url p) as [url|] eqn:Hurl; cbn [fst snd];
    [|repeat split; try discriminate; intros _; exact Hnot].
  destruct (decide (url = m_lastPolledUrl h)) as [Heq|Hne]; cbn [fst snd];
    [repeat split; try discriminate; intros _; exact Hnot|].
  destruct (contains "Ending_Ascension" url) eqn:Hend; cbn [fst snd].
  - unfold FireGoal. cbn. rewrite Hnot. cbn.
    repeat split; try discriminate. exists url. auto.
  - cbn. repeat split; try discriminate. intros _. exact Hnot.
Qed.

(** The poll of the media players: it returns early exactly when it fires
    "Ascension", for a secondary player whose first usable URL names the
    ending; otherwise only [m_lastPolledUrl] may change. *)
Lemma poll_players_spec (players : list MediaPlayer) :
  ∀ h : GoalDetectionHandler,
    m_goalCompleted h = false →
    m_previousGameCompleted (poll_players h players).1 = m_previousGameCompleted h
    ∧ m_pollReadyTime (poll_players h players).1 = m_pollReadyTime h
    ∧ m_pollingActive (poll_players h players).1 = m_pollingActive h
    ∧ ((poll_players h players).2 = false →
       m_goalCompleted (poll_players h players).1 = false)
    ∧ ((poll_players h players).2 = true →
       m_goalCompleted (poll_players h players).1 = true
       ∧ m_completedGoalName (poll_players h players).1 = "Ascension"
       ∧ ∃ p url, p ∈ players ∧ is_secondary p = true ∧ first_url p = Some url
                  ∧ contains "Ending_Ascension" url = true).
Proof.
  induction players as [|p rest IH]; intros h Hnot.
  { cbn. split; [reflexivity|]. split; [reflexivity|]. split; [reflexivity|].
    split; [intros _; exact Hnot | discriminate]. }
  cbn [poll_players].
  destruct (poll_player_spec h p Hnot) as (H1 & H2 & H3 & H4 & H5).
  destruct (poll_player h p) as [h1 fired]. cbn [fst snd] in *.
  destruct fired.
  - cbn [fst snd]. split; [exact H1|]. split; [exact H2|]. split; [exact H3|].
    split; [discriminate|]. intros _.
    destruct (H5 eq_refl) as (H6 & H7 & url & Hp).
    split; [exact H6|]. split; [exact H7|]. exists p, url.
    split; [apply list_elem_of_here | exact Hp].
  - destruct (IH h1 (H4 eq_refl)) as (G1 & G2 & G3 & G4 & G5).
    rewrite G1, G2, G3. split; [exact H1|]. split; [exact H2|]. split; [exact H3|].
    split; [exact G4|]. intros Hf.
    destruct (G5 Hf) as (H6 & H7 & p' & url & Hin & Hp).
    split; [exact H6|]. split; [exact H7|]. exists p', url.
    split; [by apply list_elem_of_further | exact Hp].
Qed.

Lemma HasEnoughSigils_spec (st : ModState) :
  Z.of_nat (size (GrantedItems st)) ≤ INT_MAX →
  HasEnoughSigils st = true ↔ (90 ≤ size (GrantedItems st))%nat.
Proof.
  intros Hfit. unfold HasEnoughSigils, GetGrantedSigilCount, TRANSCENDENCE_SIGIL_REQUIREMENT.
  rewrite static_cast_int_small by (unfold INT_MIN, INT_MAX in *; lia).
  rewrite Z.leb_le. lia.
Qed.

Lemma CheckGoals_fires (h : GoalDetectionHandler) (st : ModState) (v : GoalView) :
  m_goalCompleted h = false →
  m_goalCompleted (CheckGoals h st v) = true →
  (m_completedGoalName (CheckGoals h st v) = "Ascension"
   ∧ ∃ players p url, media_players v = Some players ∧ p ∈ players
        ∧ is_secondary p = true ∧ first_url p = Some url
        ∧ contains "Ending_Ascension" url = true)
  ∨ (m_completedGoalName (CheckGoals h st v) = "Transcendence"
     ∧ transcendence_sequence v = true ∧ HasEnoughSigils st = true)
  ∨ (m_completedGoalName (CheckGoals h st v) = "Unknown (polling fallback)"
     ∧ IsGameCompleted v = Some true ∧ m_previousGameCompleted h = false).
Proof.
  intros Hnot. unfold CheckGoals. rewrite Hnot.
  destruct (poll_players_spec (default [] (media_players v)) h Hnot)
    as (Hprev & _ & _ & Hquiet & Hfire).
  destruct (poll_players h (default [] (media_players v))) as [h1 fired].
  cbn [fst snd] in *. destruct fired.
  - intros _. left. destruct (Hfire eq_refl) as (_ & Hname & p & url & Hin & Hp).
    split; [exact Hname|].
    destruct (media_players v) as [players|]; [|by apply elem_of_nil in Hin].
    exists players, p, url. split; [reflexivity|]. split; [exact Hin | exact Hp].
  - specialize (Hquiet eq_refl).
    destruct (transcendence_sequence v) eqn:Hseq, (HasEnoughSigils st) eqn:Hen; cbn [andb].
    1: { intros _. right. left.
         destruct (FireGoal_fires h1 "Transcendence" Hquiet) as (_ & Hname & _). auto. }
    all: destruct (IsGameCompleted v) as [completed|];
      [|intros Hc; rewrite Hquiet in Hc; discriminate Hc].
    all: destruct completed, (m_previousGameCompleted h1) eqn:Hp1; cbn [andb negb];
      try (cbn; intros Hc; rewrite Hquiet in Hc; discriminate Hc).
    all: intros _; right; right.
    all: destruct (FireGoal_fires h1 "Unknown (polling fallback)" Hquiet) as (_ & Hname & _).
    all: split; [exact Hname|]; split; [reflexivity|]; by rewrite <- Hprev.
Qed.

(** X19. The goal is reported at most once. Over any run of frames,
    whatever the world shows, whatever the session state becomes in
    between and however often the handler is reset: [SendGoalComplete] is
    sent at most once and the HUD is notified at most once; if the goal was
    sent before the run nothing is reported; and whenever something is
    reported [m_goalSent] is set afterwards. *)
Theorem goal_reported_at_most_once (mc : ModCore) (frames : list GoalFrame) :
  (length (filter (λ o, o = SendGoalComplete) (goal_frames mc frames).2) ≤ 1)%nat
  ∧ (length (filter (λ o, o ≠ SendGoalComplete) (goal_frames mc frames).2) ≤ 1)%nat
  ∧ (m_goalSent mc = true → (goal_frames mc frames).2 = [])
  ∧ ((goal_frames mc frames).2 ≠ [] → m_goalSent (goal_frames mc frames).1 = true).
Proof.
  assert (Hframe : ∀ mc f,
            (goal_frame mc f).2 = [] ∧ m_goalSent (goal_frame mc f).1 = m_goalSent mc
            ∨ m_goalSent mc = false ∧ m_goalSent (goal_frame mc f).1 = true
              ∧ (goal_frame mc f).2
                = ((if frame_hud f
                    then [NotifySimple
                            ("Goal Complete: "
                             +:+ m_completedGoalName
                                   (m_goalDetectionHandler (goal_frame mc f).1))]
                    else [])
                   ++ (if frame_apClient f then [SendGoalComplete] else []))%list).
  { intros mc0 f. unfold goal_frame, CheckGoalCompletion, TickGoalDetection.
    cbn [m_goalDetectionHandler m_goalSent m_state].
    destruct (m_goalCompleted _ && negb (m_goalSent mc0)) eqn:Hc; cbn [fst snd].
    - right. apply andb_true_iff in Hc as [_ Hs]. apply negb_true_iff in Hs.
      cbn. auto.
    - left. cbn. auto. }
  assert (Hsent : ∀ frames mc, m_goalSent mc = true →
            (goal_frames mc frames).2 = [] ∧ m_goalSent (goal_frames mc frames).1 = true).
  { clear frames mc. induction frames as [|f rest IH]; intros mc0 Hs; [cbn; auto|].
    cbn [goal_frames fst snd].
    destruct (Hframe mc0 f) as [[Ho Hs']|[Hs' _]]; [|congruence].
    rewrite Ho. apply IH. by rewrite Hs'. }
  assert (Hmono : ∀ frames mc, (goal_frames mc frames).2 ≠ [] →
            m_goalSent (goal_frames mc frames).1 = true).
  { clear frames mc. induction frames as [|f rest IH]; intros mc0; [cbn; congruence|].
    cbn [goal_frames fst snd].
    destruct (Hframe mc0 f) as [[Ho Hs']|(_ & Hs' & _)].
    - rewrite Ho. cbn [app]. apply IH.
    - intros _. by apply Hsent. }
  split; [|split; [|split]].
  - revert mc. induction frames as [|f rest IH]; intros mc0; [cbn; lia|].
    cbn [goal_frames fst snd].
    destruct (Hframe mc0 f) as [[Ho Hs']|(_ & Hs' & Ho)].
    + rewrite Ho. cbn [app]. apply IH.
    + rewrite (proj1 (Hsent rest _ Hs')), app_nil_r, Ho.
      destruct (frame_hud f), (frame_apClient f); vm_compute; lia.
  - revert mc. induction frames as [|f rest IH]; intros mc0; [cbn; lia|].
    cbn [goal_frames fst snd].
    destruct (Hframe mc0 f) as [[Ho Hs']|(_ & Hs' & Ho)].
    + rewrite Ho. cbn [app]. apply IH.
    + rewrite (proj1 (Hsent rest _ Hs')), app_nil_r, Ho.
      destruct (frame_hud f), (frame_apClient f); vm_compute; lia.
  - intros Hs. exact (proj1 (Hsent frames mc Hs)).
  - apply Hmono.
Qed.

(** X20. Nothing is detected during the warm-up. After [Init] at time
    [t0], as long as the clock reads less than [POLL_DELAY_MS] later, no
    frame completes the goal or reports anything, whatever the world shows
    (an ending movie, the ending sequence with all sigils granted, a
    completed game), also if the handler is reset in between. *)
Theorem goal_warmup_silent (per_ms t0 : Z) (mc : ModCore) (frames : list GoalFrame) :
  m_goalCompleted (m_goalDetectionHandler mc) = false →
  m_pollingActive (m_goalDetectionHandler mc) = false →
  Forall (λ f, goal_now (frame_view f) < t0 + POLL_DELAY_MS * per_ms) frames →
  (goal_frames
     (mkModCore (m_state mc) (GoalDetectionHandler_Init per_ms t0 (m_goalDetectionHandler mc))
        (m_goalSent mc) (m_levelTransitionCooldownWasActive mc)) frames).2 = []
  ∧ m_goalCompleted
      (m_goalDetectionHandler
         (goal_frames
            (mkModCore (m_state mc)
               (GoalDetectionHandler_Init per_ms t0 (m_goalDetectionHandler mc))
               (m_goalSent mc) (m_levelTransitionCooldownWasActive mc)) frames).1) = false.
Proof.
  intros Hnot Hidle Hearly.
  set (mc0 := mkModCore _ _ _ _).
  assert (Hinv : m_goalCompleted (m_goalDetectionHandler mc0) = false
                 ∧ m_pollingActive (m_goalDetectionHandler mc0) = false
                 ∧ m_pollReadyTime (m_goalDetectionHandler mc0) = t0 + POLL_DELAY_MS * per_ms).
  { unfold mc0. cbn. auto. }
  clearbody mc0. clear Hnot Hidle mc.
  revert mc0 Hinv. induction Hearly as [|f rest Hf Hrest IH]; intros mc0 (H1 & H2 & H3).
  { cbn. auto. }
  cbn [goal_frames fst snd].
  assert (Hstep : (goal_frame mc0 f).2 = []
                  ∧ m_goalCompleted (m_goalDetectionHandler (goal_frame mc0 f).1) = false
                  ∧ m_pollingActive (m_goalDetectionHandler (goal_frame mc0 f).1) = false
                  ∧ m_pollReadyTime (m_goalDetectionHandler (goal_frame mc0 f).1)
                    = t0 + POLL_DELAY_MS * per_ms).
  { unfold goal_frame, TickGoalDetection, CheckGoalCompletion, GoalDetectionHandler_Tick.
    cbn [m_goalDetectionHandler m_goalSent m_state m_levelTransitionCooldownWasActive].
    destruct (frame_reset f).
    - cbn [ResetGoalState m_goalCompleted m_pollingActive m_pollReadyTime].
      rewrite H3. destruct (Z.ltb_spec (goal_now (frame_view f)) (t0 + POLL_DELAY_MS * per_ms))
        as [_|Hge]; [|lia].
      cbn. auto.
    - rewrite H1, H2, H3.
      destruct (Z.ltb_spec (goal_now (frame_view f)) (t0 + POLL_DELAY_MS * per_ms))
        as [_|Hge]; [|lia].
      rewrite H1. cbn. auto. }
  destruct Hstep as (Ho & Hinv').
  destruct (IH (goal_frame mc0 f).1 Hinv') as [Ho' Hc']. rewrite Ho, Ho'. auto.
Qed.

Lemma goal_warmup_silent_witness :
  (goal_frames
     (mkModCore (m_state fresh_core)
        (GoalDetectionHandler_Init 1000000 7 (m_goalDetectionHandler fresh_core))
        (m_goalSent fresh_core) (m_levelTransitionCooldownWasActive fresh_core))
     [ending_frame 19000000000]).2 = []
  ∧ (goal_frames fresh_core [ending_frame 19000000000]).2
    = [NotifySimple "Goal Complete: Ascension"; SendGoalComplete].
Proof.
  split; [|vm_compute; reflexivity].
  apply (goal_warmup_silent 1000000 7 fresh_core [ending_frame 19000000000]).
  - reflexivity.
  - reflexivity.
  - repeat constructor.
Defined.

(** X21. Why a goal fires. When a [Tick] completes the goal, polling was
    active or the warm-up was over, and one of three things was seen:
    a secondary media player whose first non-empty URL property names
    "Ending_Ascension" (goal "Ascension"); the Transcendence sequence in
    memory with at least 90 granted items (goal "Transcendence"); or
    [IsGameCompleted] returning [true] after the previous poll had not
    seen it [true] (the fallback goal). *)
Theorem goal_fires_only_when (h : GoalDetectionHandler) (st : ModState) (v : GoalView) :
  m_goalCompleted h = false →
  m_goalCompleted (GoalDetectionHandler_Tick h st v) = true →
  Z.of_nat (size (GrantedItems st)) ≤ INT_MAX →
  (m_pollingActive h = true ∨ m_pollReadyTime h ≤ goal_now v)
  ∧ ((m_completedGoalName (GoalDetectionHandler_Tick h st v) = "Ascension"
      ∧ ∃ players p url, media_players v = Some players ∧ p ∈ players
           ∧ is_secondary p = true ∧ first_url p = Some url
           ∧ contains "Ending_Ascension" url = true)
     ∨ (m_completedGoalName (GoalDetectionHandler_Tick h st v) = "Transcendence"
        ∧ transcendence_sequence v = true ∧ (90 ≤ size (GrantedItems st))%nat)
     ∨ (m_completedGoalName (GoalDetectionHandler_Tick h st v) = "Unknown (polling fallback)"
        ∧ IsGameCompleted v = Some true ∧ m_previousGameCompleted h = false)).
Proof.
  intros Hnot Hdone Hfit. unfold GoalDetectionHandler_Tick in *. rewrite Hnot in *.
  assert (Hcases : ∀ h', m_goalCompleted h' = false →
            m_previousGameCompleted h' = m_previousGameCompleted h →
            m_goalCompleted (CheckGoals h' st v) = true →
            (m_completedGoalName (CheckGoals h' st v) = "Ascension"
             ∧ ∃ players p url, media_players v = Some players ∧ p ∈ players
                  ∧ is_secondary p = true ∧ first_url p = Some url
                  ∧ contains "Ending_Ascension" url = true)
            ∨ (m_completedGoalName (CheckGoals h' st v) = "Transcendence"
               ∧ transcendence_sequence v = true ∧ (90 ≤ size (GrantedItems st))%nat)
            ∨ (m_completedGoalName (CheckGoals h' st v) = "Unknown (polling fallback)"
               ∧ IsGameCompleted v = Some true ∧ m_previousGameCompleted h = false)).
  { intros h' Hn Hp Hd.
    destruct (CheckGoals_fires h' st v Hn Hd) as [H|[(H1 & H2 & H3)|(H1 & H2 & H3)]].
    - left. exact H.
    - right. left. split; [exact H1|]. split; [exact H2|].
      by apply HasEnoughSigils_spec.
    - right. right. split; [exact H1|]. split; [exact H2|]. by rewrite <- Hp. }
  destruct (m_pollingActive h) eqn:Hact.
  - split; [by left|]. by apply Hcases.
  - destruct (Z.ltb_spec (goal_now v) (m_pollReadyTime h)) as [Hlt|Hge].
    + rewrite Hnot in Hdone. discriminate Hdone.
    + split; [by right|]. by apply Hcases.
Qed.

Lemma goal_fires_only_when_witness :
  m_completedGoalName
    (GoalDetectionHandler_Tick GoalDetectionHandler_new synced_state
       (frame_view (ending_frame 5))) = "Ascension".
Proof.
  destruct (goal_fires_only_when GoalDetectionHandler_new synced_state
              (frame_view (ending_frame 5)))
    as (_ & [(Hname & _)|[(Hname & _)|(Hname & _)]]).
  - reflexivity.
  - vm_compute. reflexivity.
  - vm_compute. discriminate.
  - exact Hname.
  - vm_compute in Hname. discriminate Hname.
  - vm_compute in Hname. discriminate Hname.
Defined.

(** X22. The two endings are detected. Once polling is active (or the
    warm-up is over) and no goal is completed: if every media player before
    [p] is not a secondary player or shows no URL, and the secondary player
    [p] shows a URL that names "Ending_Ascension" and differs from the last
    polled one, the tick completes "Ascension", also when the Transcendence
    sequence is in memory; and if there are no media players, the sequence
    is in memory and 90 or more items are granted, it completes
    "Transcendence". With fewer than 90 granted items and nothing else to
    see, the sequence alone completes nothing. *)
Theorem endings_detected (h : GoalDetectionHandler) (st : ModState) (v : GoalView) :
  m_goalCompleted h = false →
  m_pollingActive h = true ∨ m_pollReadyTime h ≤ goal_now v →
  Z.of_nat (size (GrantedItems st)) ≤ INT_MAX →
  (∀ before p after url,
     media_players v = Some (before ++ p :: after)%list →
     Forall (λ q, is_secondary q = false ∨ first_url q = None) before →
     is_secondary p = true → first_url p = Some url →
     url ≠ m_lastPolledUrl h → contains "Ending_Ascension" url = true →
     m_goalCompleted (GoalDetectionHandler_Tick h st v) = true
     ∧ m_completedGoalName (GoalDetectionHandler_Tick h st v) = "Ascension")
  ∧ (default [] (media_players v) = [] → transcendence_sequence v = true →
     (90 ≤ size (GrantedItems st))%nat →
     m_goalCompleted (GoalDetectionHandler_Tick h st v) = true
     ∧ m_completedGoalName (GoalDetectionHandler_Tick h st v) = "Transcendence")
  ∧ (default [] (media_players v) = [] → IsGameCompleted v ≠ Some true →
     (size (GrantedItems st) < 90)%nat →
     m_goalCompleted (GoalDetectionHandler_Tick h st v) = false).
Proof.
  intros Hnot Hready Hfit.
  assert (Htick : ∃ h', GoalDetectionHandler_Tick h st v = CheckGoals h' st v
                        ∧ m_goalCompleted h' = false
                        ∧ m_lastPolledUrl h' = m_lastPolledUrl h).
  { unfold GoalDetectionHandler_Tick. rewrite Hnot.
    destruct (m_pollingActive h) eqn:Hact; [by exists h|].
    destruct Hready as [Hr|Hr]; [discriminate Hr|].
    destruct (Z.ltb_spec (goal_now v) (m_pollReadyTime h)) as [Hlt|_]; [lia|].
    exists (set_pollingActive h true). auto. }
  destruct Htick as (h' & -> & Hnot' & Hlast).
  split; [|split].
  - intros before p after url Hplayers Hbefore Hsec Hurl Hne Hend.
    unfold CheckGoals. rewrite Hnot', Hplayers. cbn [from_option id].
    assert (Hpoll : poll_players h' (before ++ p :: after)
                    = (FireGoal (set_lastPolledUrl h' url) "Ascension", true)).
    { clear Hplayers. induction Hbefore as [|q before Hq Hbefore IH]; cbn [app poll_players].
      - unfold poll_player. rewrite Hsec, Hurl. cbn [negb].
        rewrite decide_False by (by rewrite Hlast). rewrite Hend. reflexivity.
      - assert (Hskip : poll_player h' q = (h', false)).
        { unfold poll_player. destruct Hq as [->| ->]; [reflexivity|].
          by destruct (is_secondary q). }
        rewrite Hskip. exact IH. }
    rewrite Hpoll. cbn [fst snd].
    destruct (FireGoal_fires (set_lastPolledUrl h' url) "Ascension" Hnot') as (H1 & H2 & _).
    auto.
  - intros Hnone Hseq Hmany. unfold CheckGoals. rewrite Hnot', Hnone. cbn [poll_players fst snd].
    rewrite Hseq, (proj2 (HasEnoughSigils_spec st Hfit) Hmany). cbn [andb].
    destruct (FireGoal_fires h' "Transcendence" Hnot') as (H1 & H2 & _). auto.
  - intros Hnone Hgame Hfew. unfold CheckGoals. rewrite Hnot', Hnone. cbn [poll_players fst snd].
    assert (Hen : HasEnoughSigils st = false).
    { destruct (HasEnoughSigils st) eqn:Hen; [|reflexivity].
      apply (HasEnoughSigils_spec st Hfit) in Hen. lia. }
    rewrite Hen, andb_false_r.
    destruct (IsGameCompleted v) as [[|]|]; [congruence| |exact Hnot'].
    cbn. exact Hnot'.
Qed.

Lemma endings_detected_witness :
  m_goalCompleted
    (GoalDetectionHandler_Tick GoalDetectionHandler_new synced_state
       (frame_view (ending_frame 5))) = true
  ∧ m_completedGoalName
      (GoalDetectionHandler_Tick GoalDetectionHandler_new synced_state
         (frame_view (ending_frame 5))) = "Ascension".
Proof.
  destruct (endings_detected GoalDetectionHandler_new synced_state
              (frame_view (ending_frame 5))) as (Hasc & _).
  - reflexivity.
  - right. vm_compute. discriminate.
  - vm_compute. discriminate.
  - apply (Hasc [] ending_player [] "/Movies/Ending_Ascension.bk2").
    + reflexivity.
    + constructor.
    + vm_compute. reflexivity.
    + vm_compute. reflexivity.
    + discriminate.
    + vm_compute. reflexivity.
Defined.

(** ** The Lua tables of [item_mapping.lua] against the C++ registry *)

#[global] Opaque LuaItemMapping.M.

Lemma lua_names_numbered :
  map_Forall (λ name id,
     LuaItemMapping.ItemNameToId LuaItemMapping.M !! name = Some id
     ∧ LuaItemMapping.LocationIdToName LuaItemMapping.M !! id = Some name
     ∧ LuaItemMapping.ItemIdToName LuaItemMapping.M !! id = Some name)
    (LuaItemMapping.LocationNameToId LuaItemMapping.M).
Proof. apply (bool_decide_unpack _). vm_compute. exact I. Qed.

Lemma lua_ids_named :
  map_Forall (λ id name,
     LuaItemMapping.LocationNameToId LuaItemMapping.M !! name = Some id)
    (LuaItemMapping.LocationIdToName LuaItemMapping.M).
Proof. apply (bool_decide_unpack _). vm_compute. exact I. Qed.

Lemma lua_ids_against_registry :
  Forall (λ name,
     LuaItemMapping.GetLocationId name
     = Some (if GetLocationId m_itemMapping name <? BASE_LOCATION_ID + 43
             then GetLocationId m_itemMapping name
             else GetLocationId m_itemMapping name - 1))
    LuaItemMapping.ALL_TETROMINOES
  ∧ Forall (λ name, LuaItemMapping.GetLocationId name = None)
      ("NT2" :: ALL_PURPLE_SIGILS ++ ALL_STARS)%list.
Proof. split; apply (bool_decide_unpack _); vm_compute; exact I. Qed.

(** X23. The Lua tables and the C++ registry. The Lua module numbers its
    89 tetrominoes and then its 30 stars consecutively from 0x540000, item
    id and location id being the same number, and its name and id tables
    are each other's inverse; its sorted id lists are the 119 consecutive
    ids. The C++ list of tetrominoes is the Lua list with "NT2" inserted at
    position 43, so the two agree on the location id of a tetromino up to
    0x540000 + 42 and differ by one from there on; "NT2", the purple sigils
    and the stars' C++ names have no id in the Lua tables. *)
Theorem lua_tables_and_registry :
  (LuaItemMapping.GetLocationId <$> LuaItemMapping.ALL_TETROMINOES
   = (λ i : nat, Some (LuaItemMapping.BASE_LOCATION_ID + Z.of_nat i)) <$> seq 0 89)
  ∧ (LuaItemMapping.GetLocationId <$> LuaItemMapping.ALL_STARS.*2
     = (λ i : nat, Some (LuaItemMapping.BASE_LOCATION_ID + 89 + Z.of_nat i)) <$> seq 0 30)
  ∧ (∀ name id, LuaItemMapping.GetLocationId name = Some id →
       LuaItemMapping.GetItemId name = Some id
       ∧ LuaItemMapping.GetLocationName id = Some name
       ∧ LuaItemMapping.GetItemName id = Some name)
  ∧ (∀ id name, LuaItemMapping.GetLocationName id = Some name →
       LuaItemMapping.GetLocationId name = Some id)
  ∧ LuaItemMapping.GetAllLocationIds
    = (λ i : nat, LuaItemMapping.BASE_LOCATION_ID + Z.of_nat i) <$> seq 0 119
  ∧ LuaItemMapping.GetAllItemIds
    = (λ i : nat, LuaItemMapping.BASE_ITEM_ID + Z.of_nat i) <$> seq 0 119
  ∧ ALL_TETROMINOES
    = (take 43 LuaItemMapping.ALL_TETROMINOES
       ++ "NT2" :: drop 43 LuaItemMapping.ALL_TETROMINOES)%list
  ∧ (∀ name, name ∈ LuaItemMapping.ALL_TETROMINOES →
       LuaItemMapping.GetLocationId name
       = Some (if GetLocationId m_itemMapping name <? BASE_LOCATION_ID + 43
               then GetLocationId m_itemMapping name
               else GetLocationId m_itemMapping name - 1))
  ∧ (∀ name, name = "NT2" ∨ name ∈ ALL_PURPLE_SIGILS ∨ name ∈ ALL_STARS →
       0 ≤ GetLocationId m_itemMapping name
       ∧ LuaItemMapping.GetLocationId name = None).
Proof.
  split; [vm_compute; reflexivity|]. split; [vm_compute; reflexivity|].
  split; [|split; [|split; [|split; [|split; [|split]]]]].
  - intros name id Hn. exact (lua_names_numbered name id Hn).
  - intros id name Hi. exact (lua_ids_named id name Hi).
  - vm_compute. reflexivity.
  - vm_compute. reflexivity.
  - vm_compute. reflexivity.
  - intros name Hin. destruct lua_ids_against_registry as [Hall _].
    rewrite Forall_forall in Hall. exact (Hall name Hin).
  - intros name Hin. split.
    + assert (Hrec : Forall (λ n, 0 ≤ GetLocationId m_itemMapping n)
                       ("NT2" :: ALL_PURPLE_SIGILS ++ ALL_STARS)%list).
      { apply (bool_decide_unpack _). vm_compute. exact I. }
      rewrite Forall_forall in Hrec. apply Hrec.
      rewrite elem_of_cons, elem_of_app. exact Hin.
    + destruct lua_ids_against_registry as [_ Hnone].
      rewrite Forall_forall in Hnone. apply Hnone.
      rewrite elem_of_cons, elem_of_app. exact Hin.
Qed.

(** ** The polling loop and the level transition cooldown *)

Lemma lua_integer_small (z : Z) : - 2 ^ 63 ≤ z < 2 ^ 63 → lua_integer z = z.
Proof. intros Hz. unfold lua_integer. rewrite Z.mod_small by lia. lia. Qed.

Lemma polling_tick_cases (n c : Z) (t : PollTick) :
  0 ≤ c < 2 ^ 63 →
  polling_tick (n, c) t
  = if decide (0 < c)
    then ((lua_integer (n + 1), c - 1),
          APClient_Poll :: (if decide (c = 1) then [LogCooldownExpired] else []))
    else ((lua_integer (n + 1), 0),
          (APClient_Poll
           :: (if poll_progress_valid t then [] else [Progress_FindProgressObject])
           ++ (if poll_progress_valid t || poll_found t
               then [Collection_EnforceCollectionState; Scanner_ScanTetrominoItems]
               else []))%list).
Proof.
  intros Hc. unfold polling_tick. cbn [fst snd].
  destruct (Z.ltb_spec 0 c) as [Hpos|Hzero].
  - rewrite (decide_True (P := 0 < c)) by exact Hpos.
    rewrite (lua_integer_small (c - 1)) by lia.
    destruct (Z.eqb_spec (c - 1) 0) as [Heq|Hne].
    + rewrite decide_True by lia. reflexivity.
    + rewrite decide_False by lia. reflexivity.
  - rewrite (decide_False (P := 0 < c)) by lia. replace c with 0 by lia. reflexivity.
Qed.

(** While fewer polling runs than the counter says have run, and no hook
    sets the counter anew, the session is silent. *)
Lemma script_run_paused (evs : list ScriptEvent) :
  ∀ s : ScriptState,
    Forall (λ ev, is_hook ev = false) evs →
    Z.of_nat (polling_runs evs) < State_LevelTransitionCooldown s < 2 ^ 63 →
    State_LevelTransitionCooldown (script_run s evs).1
    = State_LevelTransitionCooldown s - Z.of_nat (polling_runs evs)
    ∧ (script_run s evs).2.1 = replicate (polling_runs evs) APClient_Poll
    ∧ (script_run s evs).2.2 = []
    ∧ VisibilityApplied (loop_state (script_run s evs).1) = VisibilityApplied (loop_state s).
Proof.
  induction evs as [|ev later IH]; intros s Hhooks Hc.
  { cbn. split; [unfold polling_runs; cbn; lia | auto]. }
  apply Forall_cons in Hhooks as [Hev Hhooks].
  cbn [script_run fst snd].
  destruct ev as [|tetrominoId|t|col pv items|tmap]; [discriminate Hev| | | |].
  - (* the pickup callback *)
    destruct (IH (script_event s (OnTetrominoCollected tetrominoId)).1 Hhooks)
      as (H1 & H2 & H3 & H4); [exact Hc|].
    rewrite H1, H2, H3, H4. auto.
  - (* a polling run *)
    assert (Hn : polling_runs (PollingRun t :: later) = S (polling_runs later)).
    { unfold polling_runs. rewrite filter_cons_True by reflexivity. reflexivity. }
    rewrite Hn in Hc |- *.
    cbn [script_event fst snd].
    rewrite (polling_tick_cases _ _ t) by lia.
    rewrite (decide_True (P := 0 < State_LevelTransitionCooldown s)) by lia.
    rewrite (decide_False (P := State_LevelTransitionCooldown s = 1)) by lia.
    cbn [fst snd].
    destruct (IH (mkScriptState (lua_integer (script_LoopCount s + 1))
                    (State_LevelTransitionCooldown s - 1)
                    (global_VisibilityApplied s) (loop_state s)) Hhooks)
      as (H1 & H2 & H3 & H4); [cbn; lia|].
    rewrite H1, H2, H3, H4. cbn. split; [lia | auto].
  - (* a visibility run *)
    assert (Hskip : script_event s (VisibilityRun col pv items) = (s, ([], []))).
    { cbn [script_event]. unfold visibility_tick. cbn [LevelTransitionCooldown].
      destruct (Z.ltb_spec 0 (State_LevelTransitionCooldown s)) as [_|Hle]; [|lia].
      unfold skip. cbn [fst snd]. by destruct s. }
    rewrite Hskip. cbn [fst snd].
    destruct (IH s Hhooks) as (H1 & H2 & H3 & H4); [exact Hc|].
    rewrite H1, H2, H3, H4. auto.
  - (* a write to the store *)
    destruct (IH (script_event s (StoreWritten tmap)).1 Hhooks)
      as (H1 & H2 & H3 & H4); [exact Hc|].
    rewrite H1, H2, H3, H4. auto.
Qed.

(** X24. A level transition pauses both loops. From the moment a hook has
    run, while the polling loop has run fewer than 50 times and no hook has
    run again, whatever else runs in between: the polling loop does nothing
    but poll the client (no progress lookup, no enforcement, no scan), the
    visibility loop makes no presentation call and leaves its table alone,
    and the counter has gone down by one per polling run. The fiftieth
    polling run polls, brings the counter to zero and logs the expiry; the
    one after it runs the body again. *)
Theorem transition_pauses_loops (s : ScriptState) (evs : list ScriptEvent) :
  Forall (λ ev, is_hook ev = false) evs →
  (polling_runs evs < 50)%nat →
  State_LevelTransitionCooldown (script_run s (TransitionHook :: evs)).1
  = 50 - Z.of_nat (polling_runs evs)
  ∧ (script_run s (TransitionHook :: evs)).2.1 = replicate (polling_runs evs) APClient_Poll
  ∧ (script_run s (TransitionHook :: evs)).2.2 = []
  ∧ VisibilityApplied (loop_state (script_run s (TransitionHook :: evs)).1)
    = VisibilityApplied (loop_state s)
  ∧ (polling_runs evs = 49%nat →
     ∀ t t',
       (script_event (script_run s (TransitionHook :: evs)).1 (PollingRun t)).2.1
       = [APClient_Poll; LogCooldownExpired]
       ∧ State_LevelTransitionCooldown
           (script_event (script_run s (TransitionHook :: evs)).1 (PollingRun t)).1 = 0
       ∧ (script_event
            (script_event (script_run s (TransitionHook :: evs)).1 (PollingRun t)).1
            (PollingRun t')).2.1
         = (APClient_Poll
            :: (if poll_progress_valid t' then [] else [Progress_FindProgressObject])
            ++ (if poll_progress_valid t' || poll_found t'
                then [Collection_EnforceCollectionState; Scanner_ScanTetrominoItems]
                else []))%list).
Proof.
  intros Hhooks Hruns.
  cbn [script_run script_event fst snd app].
  destruct (script_run_paused evs
              (mkScriptState (script_LoopCount s) 50 (Some ∅) (loop_state s)) Hhooks)
    as (H1 & H2 & H3 & H4); [cbn; lia|].
  cbn [State_LevelTransitionCooldown loop_state] in H1, H4.
  split; [exact H1|]. split; [exact H2|]. split; [exact H3|]. split; [exact H4|].
  intros H49 t t'. cbn [script_event fst snd].
  set (r := script_run _ evs) in *.
  rewrite (polling_tick_cases _ _ t) by lia.
  rewrite (decide_True (P := 0 < State_LevelTransitionCooldown r.1)) by lia.
  rewrite (decide_True (P := State_LevelTransitionCooldown r.1 = 1)) by lia.
  cbn [fst snd State_LevelTransitionCooldown script_LoopCount].
  split; [reflexivity|]. split; [lia|].
  rewrite (polling_tick_cases _ _ t') by lia.
  rewrite (decide_False (P := 0 < State_LevelTransitionCooldown r.1 - 1)) by lia.
  reflexivity.
Qed.

Lemma transition_pauses_loops_witness :
  (script_run script_start
     (TransitionHook
      :: replicate 30 (VisibilityRun sample_collection true (found_items sample_tick))
      ++ replicate 49 (PollingRun (mkPollTick true false)))).2
  = (replicate
       (polling_runs
          (replicate 30 (VisibilityRun sample_collection true (found_items sample_tick))
           ++ replicate 49 (PollingRun (mkPollTick true false))))
       APClient_Poll, []).
Proof.
  destruct (transition_pauses_loops script_start
              (replicate 30 (VisibilityRun sample_collection true (found_items sample_tick))
               ++ replicate 49 (PollingRun (mkPollTick true false))))
    as (_ & Hpolls & Hcalls & _).
  - apply (bool_decide_unpack _). vm_compute. exact I.
  - vm_compute. lia.
  - rewrite <- Hpolls, <- Hcalls. by destruct (script_run _ _) as [? [? ?]].
Defined.

(** ** The loop's table across level transitions *)

(** What [debounced] says of a step, said of a session. *)
Lemma script_run_debounced (col : Collection) (id : string) (evs : list ScriptEvent) :
  ∀ s : ScriptState,
    Forall (classified_as col id) evs →
    (settled col (loop_state s) id →
     calls_for id (script_run s evs).2.2 = 0%nat
     ∧ settled col (loop_state (script_run s evs).1) id)
    ∧ (calls_for id (script_run s evs).2.2 ≤ 1)%nat
    ∧ ((1 ≤ calls_for id (script_run s evs).2.2)%nat →
       settled col (loop_state (script_run s evs).1) id).
Proof.
  induction evs as [|ev later IH]; intros s Hcol.
  { cbn. split; [auto|]. split; [lia|]. unfold calls_for. cbn. lia. }
  apply Forall_cons in Hcol as [Hev Hcol].
  cbn [script_run fst snd]. rewrite calls_for_app.
  assert (Hstep :
    (settled col (loop_state s) id →
     calls_for id (script_event s ev).2.2 = 0%nat
     ∧ settled col (loop_state (script_event s ev).1) id)
    ∧ (calls_for id (script_event s ev).2.2 ≤ 1)%nat
    ∧ ((1 ≤ calls_for id (script_event s ev).2.2)%nat →
       settled col (loop_state (script_event s ev).1) id)).
  { destruct ev as [|tetrominoId|t|col' pv items|tmap]; cbn [script_event fst snd loop_state].
    - rewrite calls_for_nil. split; [auto|]. split; lia.
    - rewrite calls_for_nil. split; [auto|]. split; lia.
    - rewrite calls_for_nil. split; [auto|]. split; lia.
    - cbn in Hev. apply (debounced_classified col col'); [exact Hev|].
      apply debounced_visibility_tick.
    - rewrite calls_for_nil. unfold settled. cbn [VisibilityApplied].
      split; [auto|]. split; lia. }
  destruct Hstep as (Hf1 & Hf2 & Hf3).
  destruct (IH (script_event s ev).1 Hcol) as (Hg1 & Hg2 & Hg3).
  split; [|split].
  - intros Hs. destruct (Hf1 Hs) as [-> Hs1]. destruct (Hg1 Hs1) as [-> Hs2]. auto.
  - destruct (decide (1 ≤ calls_for id (script_event s ev).2.2)%nat) as [Hone|Hnone].
    + destruct (Hg1 (Hf3 Hone)) as [-> _]. lia.
    + lia.
  - intros Hsum.
    destruct (decide (1 ≤ calls_for id (script_event s ev).2.2)%nat) as [Hone|Hnone].
    + by destruct (Hg1 (Hf3 Hone)).
    + apply Hg3. lia.
Qed.

Lemma visibility_item_keeps (col : Collection) (pv : bool) (item : TetrominoItem)
    (st : LoopState) (id : string) :
  is_Some (VisibilityApplied st !! id) →
  is_Some (VisibilityApplied (visibility_item col pv item st).2 !! id).
Proof.
  intros Hin. unfold visibility_item.
  destruct (item_valid item); cbn [negb snd]; [|exact Hin].
  destruct (item_id item) as [id'|]; cbn [snd]; [|exact Hin].
  assert (Hins : ∀ p, is_Some (<[id' := p]> (VisibilityApplied st) !! id)).
  { intros p. destruct (decide (id' = id)) as [->|Hne].
    - rewrite lookup_insert_eq. eauto.
    - rewrite lookup_insert_ne by exact Hne. exact Hin. }
  destruct (ShouldBeCollectable col id').
  - destruct (decide (VisibilityApplied st !! id' = Some visible));
      cbn [snd VisibilityApplied]; [exact Hin | apply Hins].
  - destruct (IsLocationChecked col id' && negb (IsGranted col id')); cbn [snd]; [|exact Hin].
    destruct (decide (VisibilityApplied st !! id' = Some hidden));
      cbn [snd VisibilityApplied]; [exact Hin | apply Hins].
Qed.

Lemma visibility_items_keep (col : Collection) (pv : bool) (items : list TetrominoItem)
    (id : string) :
  ∀ st : LoopState,
    is_Some (VisibilityApplied st !! id) →
    is_Some (VisibilityApplied (visibility_items col pv items st).2 !! id).
Proof.
  induction items as [|item rest IH]; intros st Hin; [exact Hin|].
  cbn [visibility_items]. unfold and_then. cbn [snd].
  apply IH. apply visibility_item_keeps. exact Hin.
Qed.

Lemma script_event_keeps (s : ScriptState) (ev : ScriptEvent) (id : string) :
  is_Some (VisibilityApplied (loop_state s) !! id) →
  is_Some (VisibilityApplied (loop_state (script_event s ev).1) !! id).
Proof.
  intros Hin.
  destruct ev as [|tetrominoId|t|col pv items|tmap]; cbn [script_event fst loop_state];
    try exact Hin.
  unfold visibility_tick. destruct (0 <? _); [exact Hin|].
  apply visibility_items_keep. exact Hin.
Qed.

Lemma script_run_global (evs : list ScriptEvent) :
  ∀ s : ScriptState,
    (global_VisibilityApplied s = None ∨ global_VisibilityApplied s = Some ∅) →
    global_VisibilityApplied (script_run s evs).1
    = if bool_decide (Exists (λ ev, is_hook ev = true) evs) then Some ∅
      else global_VisibilityApplied s.
Proof.
  induction evs as [|ev later IH]; intros s Hs.
  { cbn [script_run fst]. rewrite bool_decide_eq_false_2; [reflexivity|].
    intros H. by apply Exists_nil in H. }
  cbn [script_run fst].
  assert (Hstep : global_VisibilityApplied (script_event s ev).1
                  = if is_hook ev then Some ∅ else global_VisibilityApplied s).
  { destruct ev; cbn [script_event fst global_VisibilityApplied is_hook]; try reflexivity.
    destruct Hs as [->| ->]; cbn; [reflexivity|]. by rewrite delete_empty. }
  rewrite IH.
  - rewrite Hstep. destruct (is_hook ev) eqn:Hev.
    + rewrite (bool_decide_eq_true_2 (Exists _ (ev :: later)))
        by (apply Exists_cons_hd; exact Hev).
      by destruct (bool_decide _).
    + destruct (decide (Exists (λ ev, is_hook ev = true) later)) as [Hex|Hnex].
      * rewrite (bool_decide_eq_true_2 _ Hex).
        rewrite bool_decide_eq_true_2 by (apply Exists_cons_tl; exact Hex). reflexivity.
      * rewrite (bool_decide_eq_false_2 _ Hnex).
        rewrite bool_decide_eq_false_2; [reflexivity|].
        intros [Hhd|Htl]%Exists_cons; [congruence | contradiction].
  - rewrite Hstep. destruct (is_hook ev); auto.
Qed.

(** X25. The table of the visibility loop lives through level
    transitions. The hooks and the pickup callback assign to the global
    variable [VisibilityApplied], the loop reads and writes the local one
    declared below them: so over a whole session, with any number of hooks,
    pickups, polling runs and writes to the store in between, an id is
    presented at most once as long as its own classification stays the same
    (that of the other ids may change from run to run), an id that is
    settled is never presented again, no entry ever leaves the loop's table,
    and the global table is empty from the first hook on (and nil
    before). *)
Theorem visibility_table_outlives_transitions
    (col : Collection) (id : string) (s : ScriptState) (evs : list ScriptEvent) :
  Forall (classified_as col id) evs →
  global_VisibilityApplied s = None →
  (calls_for id (script_run s evs).2.2 ≤ 1)%nat
  ∧ (settled col (loop_state s) id →
     calls_for id (script_run s evs).2.2 = 0%nat
     ∧ settled col (loop_state (script_run s evs).1) id)
  ∧ (is_Some (VisibilityApplied (loop_state s) !! id) →
     is_Some (VisibilityApplied (loop_state (script_run s evs).1) !! id))
  ∧ global_VisibilityApplied (script_run s evs).1
    = if bool_decide (Exists (λ ev, is_hook ev = true) evs) then Some ∅ else None.
Proof.
  intros Hcol Hglobal.
  destruct (script_run_debounced col id evs s Hcol) as (Hquiet & Hone & _).
  split; [exact Hone|]. split; [exact Hquiet|]. split.
  - clear Hcol Hglobal Hquiet Hone. revert s.
    induction evs as [|ev later IH]; intros s Hin; [exact Hin|].
    cbn [script_run fst]. apply IH. apply script_event_keeps. exact Hin.
  - rewrite script_run_global by (left; exact Hglobal). rewrite Hglobal. reflexivity.
Qed.

Lemma visibility_table_outlives_transitions_witness :
  (script_run script_start transition_session).2.2
  = [SetTetrominoVisible (mkTetrominoItem 1 true (Some "DJ1"));
     SetTetrominoHidden (mkTetrominoItem 2 true (Some "DJ2"))]
  ∧ (calls_for "DJ1" (script_run script_start transition_session).2.2 ≤ 1)%nat
  ∧ global_VisibilityApplied (script_run script_start transition_session).1
    = if bool_decide (Exists (λ ev, is_hook ev = true) transition_session)
      then Some ∅ else None.
Proof.
  split; [vm_compute; reflexivity|].
  destruct (visibility_table_outlives_transitions sample_collection "DJ1" script_start
              transition_session)
    as (Hone & _ & _ & Hglobal).
  - unfold transition_session.
    apply Forall_cons; split; [reflexivity|]. apply Forall_cons; split; [exact I|].
    apply Forall_app; split; [apply Forall_replicate; exact I|].
    apply Forall_cons; split; [vm_compute; reflexivity | constructor].
  - reflexivity.
  - split; [exact Hone | exact Hglobal].
Defined.

(** ** The scrolling notification log *)

Lemma drop_oldest_spec {A : Type} (t : list A) :
  LuaHud.drop_oldest t = drop (length t - LuaHud.MAX_VISIBLE) t.
Proof.
  induction t as [|a t IH]; [reflexivity|].
  cbn [LuaHud.drop_oldest].
  destruct (Nat.ltb_spec LuaHud.MAX_VISIBLE (length (a :: t))) as [Hlt|Hle].
  - rewrite IH. cbn [length] in *.
    replace (S (length t) - LuaHud.MAX_VISIBLE)%nat
      with (S (length t - LuaHud.MAX_VISIBLE)) by lia.
    reflexivity.
  - replace (length (a :: t) - LuaHud.MAX_VISIBLE)%nat with 0%nat by lia. reflexivity.
Qed.

Lemma drop_oldest_length {A : Type} (t : list A) :
  (length (LuaHud.drop_oldest t) ≤ LuaHud.MAX_VISIBLE)%nat.
Proof. rewrite drop_oldest_spec, length_drop. lia. Qed.

Lemma drop_oldest_fmap {A B : Type} (f : A → B) (t : list A) :
  f <$> LuaHud.drop_oldest t = LuaHud.drop_oldest (f <$> t).
Proof. by rewrite !drop_oldest_spec, fmap_drop, length_fmap. Qed.

Lemma drop_oldest_app {A : Type} (t r : list A) :
  LuaHud.drop_oldest (LuaHud.drop_oldest t ++ r) = LuaHud.drop_oldest (t ++ r).
Proof.
  rewrite !drop_oldest_spec, !length_app, length_drop.
  destruct (decide (length t ≤ LuaHud.MAX_VISIBLE)%nat) as [Hle|Hgt].
  - replace (length t - LuaHud.MAX_VISIBLE)%nat with 0%nat by lia.
    cbn [drop]. f_equal. lia.
  - set (k := (length t - LuaHud.MAX_VISIBLE)%nat).
    replace (length t + length r - LuaHud.MAX_VISIBLE)%nat with (k + length r)%nat by lia.
    replace (length t - k + length r - LuaHud.MAX_VISIBLE)%nat with (length r) by lia.
    rewrite <- (take_drop k t) at 2. rewrite <- app_assoc.
    rewrite drop_app_add' by (rewrite length_take; lia).
    reflexivity.
Qed.

Lemma elem_of_clean_segments (segments : list LuaHud.Segment) text color :
  (text, color) ∈ LuaHud.clean_segments segments
  ↔ ∃ seg, seg ∈ segments ∧ LuaHud.seg_text seg = Some text ∧ text ≠ String.EmptyString
           ∧ color = default LuaHud.WHITE (LuaHud.seg_color seg).
Proof.
  unfold LuaHud.clean_segments. rewrite list_elem_of_omap. split.
  - intros (seg & Hin & Hseg). exists seg. split; [exact Hin|].
    destruct (LuaHud.seg_text seg) as [t|]; [|discriminate].
    destruct (decide (t = String.EmptyString)); [discriminate|].
    injection Hseg as -> ->. auto.
  - intros (seg & Hin & Ht & Hne & ->). exists seg. split; [exact Hin|].
    rewrite Ht. rewrite decide_False by exact Hne. reflexivity.
Qed.

Section HudLogFacts.
Variable number : Type.
Variable number_add : number → number → number.
Variable number_ge : number → number → bool.

Lemma add_pending_frame (queue : list (LuaHud.Notification number)) :
  ∀ (h : LuaHud.HudLog number) (oks : list bool),
    LuaHud.pendingQueue number (LuaHud.add_pending number number_add h queue oks)
    = LuaHud.pendingQueue number h
    ∧ LuaHud.timeAccum number (LuaHud.add_pending number number_add h queue oks)
      = LuaHud.timeAccum number h
    ∧ LuaHud.enabled number (LuaHud.add_pending number number_add h queue oks)
      = LuaHud.enabled number h
    ∧ ((length (LuaHud.entries number h) ≤ LuaHud.MAX_VISIBLE)%nat →
       (length (LuaHud.entries number (LuaHud.add_pending number number_add h queue oks))
        ≤ LuaHud.MAX_VISIBLE)%nat).
Proof.
  induction queue as [|n later IH]; intros h oks; [cbn; auto|].
  cbn [LuaHud.add_pending].
  destruct (IH (LuaHud.AddEntry number number_add h n (default true (head oks))) (tail oks))
    as (H1 & H2 & H3 & H4).
  rewrite H1, H2, H3.
  unfold LuaHud.AddEntry. destruct (default true (head oks)); cbn.
  - split; [reflexivity|]. split; [reflexivity|]. split; [reflexivity|].
    intros _. apply H4. unfold LuaHud.AddEntry. cbn. apply drop_oldest_length.
  - split; [reflexivity|]. split; [reflexivity|]. split; [reflexivity|].
    intros Hle. apply H4. unfold LuaHud.AddEntry. cbn. exact Hle.
Qed.

Lemma add_pending_lines (queue : list (LuaHud.Notification number)) :
  ∀ (h : LuaHud.HudLog number) (oks : list bool),
    Forall (λ b, b = true) oks →
    (length (LuaHud.entries number h) ≤ LuaHud.MAX_VISIBLE)%nat →
    hud_line <$> LuaHud.entries number (LuaHud.add_pending number number_add h queue oks)
    = LuaHud.drop_oldest
        ((hud_line <$> LuaHud.entries number h)
         ++ (hud_new_line number_add (LuaHud.timeAccum number h) <$> queue))%list.
Proof.
  induction queue as [|n later IH]; intros h oks Hoks Hle.
  { cbn [LuaHud.add_pending fmap list_fmap]. rewrite app_nil_r, drop_oldest_spec.
    rewrite length_fmap. replace (_ - _)%nat with 0%nat by lia. reflexivity. }
  cbn [LuaHud.add_pending].
  assert (Hok : default true (head oks) = true).
  { destruct Hoks as [|b oks' Hb _]; [reflexivity | exact Hb]. }
  rewrite Hok.
  rewrite IH.
  - unfold LuaHud.AddEntry. cbn [LuaHud.entries LuaHud.timeAccum].
    rewrite drop_oldest_fmap, fmap_app, drop_oldest_app, <- app_assoc. reflexivity.
  - destruct Hoks as [|b oks' _ Hrest]; [constructor | exact Hrest].
  - unfold LuaHud.AddEntry. cbn. apply drop_oldest_length.
Qed.

End HudLogFacts.

(** X26. The queue of pending notifications. [Notify] touches nothing but
    the queue (the lines, the clock, the switch and the counter are as
    before), which never grows beyond [MAX_VISIBLE]. Segments whose text
    is not a non-empty string are dropped, a missing color becomes white;
    disabled, or with no segment left, the call changes nothing; otherwise
    the notification is appended, with the default duration if none is
    given, and the oldest pending ones are dropped so that the newest
    [MAX_VISIBLE] remain, in arrival order. *)
Theorem hud_notify_queue (number : Type) (DEFAULT_DURATION : number)
    (h : LuaHud.HudLog number) (segments : option (list LuaHud.Segment))
    (duration : option number) :
  (length (LuaHud.pendingQueue number h) ≤ LuaHud.MAX_VISIBLE)%nat →
  (length (LuaHud.pendingQueue number (LuaHud.Notify number DEFAULT_DURATION h segments duration))
   ≤ LuaHud.MAX_VISIBLE)%nat
  ∧ LuaHud.entries number (LuaHud.Notify number DEFAULT_DURATION h segments duration)
    = LuaHud.entries number h
  ∧ LuaHud.timeAccum number (LuaHud.Notify number DEFAULT_DURATION h segments duration)
    = LuaHud.timeAccum number h
  ∧ LuaHud.enabled number (LuaHud.Notify number DEFAULT_DURATION h segments duration)
    = LuaHud.enabled number h
  ∧ LuaHud.entryCounter number (LuaHud.Notify number DEFAULT_DURATION h segments duration)
    = LuaHud.entryCounter number h
  ∧ (LuaHud.enabled number h = false ∨ LuaHud.clean_segments (default [] segments) = [] →
     LuaHud.Notify number DEFAULT_DURATION h segments duration = h)
  ∧ (LuaHud.enabled number h = true →
     LuaHud.clean_segments (default [] segments) ≠ [] →
     LuaHud.pendingQueue number (LuaHud.Notify number DEFAULT_DURATION h segments duration)
     = drop (length (LuaHud.pendingQueue number h) + 1 - LuaHud.MAX_VISIBLE)
         (LuaHud.pendingQueue number h
          ++ [LuaHud.mkNotification number (LuaHud.clean_segments (default [] segments))
                (default DEFAULT_DURATION duration)])%list)
  ∧ (∀ text color,
       (text, color) ∈ LuaHud.clean_segments (default [] segments)
       ↔ ∃ seg, seg ∈ default [] segments ∧ LuaHud.seg_text seg = Some text
                ∧ text ≠ String.EmptyString
                ∧ color = default LuaHud.WHITE (LuaHud.seg_color seg)).
Proof.
  intros Hle.
  assert (Hcases :
    (LuaHud.enabled number h = false ∨ LuaHud.clean_segments (default [] segments) = [])
    ∧ LuaHud.Notify number DEFAULT_DURATION h segments duration = h
    ∨ LuaHud.enabled number h = true
      ∧ LuaHud.clean_segments (default [] segments) ≠ []
      ∧ LuaHud.Notify number DEFAULT_DURATION h segments duration
        = LuaHud.mkHudLog number (LuaHud.enabled number h)
            (LuaHud.drop_oldest
               (LuaHud.pendingQueue number h
                ++ [LuaHud.mkNotification number
                      (LuaHud.clean_segments (default [] segments))
                      (default DEFAULT_DURATION duration)])%list)
            (LuaHud.entries number h) (LuaHud.entryCounter number h)
            (LuaHud.timeAccum number h)).
  { unfold LuaHud.Notify. destruct (LuaHud.enabled number h); cbn [negb]; [|left; auto].
    destruct segments as [[|seg segs]|]; cbn [default from_option id];
      [left; auto| |left; auto].
    destruct (LuaHud.clean_segments (seg :: segs)) as [|c clean] eqn:Hclean;
      [left; auto|].
    right. split; [reflexivity|]. split; [discriminate | reflexivity]. }
  split; [|split; [|split; [|split; [|split; [|split; [|split]]]]]].
  - destruct Hcases as [[_ ->]|(_ & _ & ->)]; [exact Hle|].
    cbn. apply drop_oldest_length.
  - destruct Hcases as [[_ ->]|(_ & _ & ->)]; reflexivity.
  - destruct Hcases as [[_ ->]|(_ & _ & ->)]; reflexivity.
  - destruct Hcases as [[_ ->]|(_ & _ & ->)]; reflexivity.
  - destruct Hcases as [[_ ->]|(_ & _ & ->)]; reflexivity.
  - intros Hoff. destruct Hcases as [[_ Heq]|(Hen & Hne & _)]; [exact Heq|].
    destruct Hoff as [Hoff|Hoff]; [congruence | contradiction].
  - intros Hen Hne. destruct Hcases as [[[Hoff|Hoff] _]|(_ & _ & ->)];
      [congruence | contradiction |].
    cbn. rewrite drop_oldest_spec, length_app. reflexivity.
  - intros text color. apply elem_of_clean_segments.
Qed.

Lemma hud_notify_queue_witness :
  LuaHud.pendingQueue Z
    (LuaHud.Notify Z 6 (LuaHud.mkHudLog Z true [] [] 0 0)
       (Some [LuaHud.mkSegment (Some "Alice") (Some LuaHud.PLAYER);
              LuaHud.mkSegment (Some String.EmptyString) None;
              LuaHud.mkSegment (Some " sent you a key") None]) None)
  = drop (length (LuaHud.pendingQueue Z (LuaHud.mkHudLog Z true [] [] 0 0)) + 1
          - LuaHud.MAX_VISIBLE)
      (LuaHud.pendingQueue Z (LuaHud.mkHudLog Z true [] [] 0 0)
       ++ [LuaHud.mkNotification Z
             (LuaHud.clean_segments
                (default []
                   (Some [LuaHud.mkSegment (Some "Alice") (Some LuaHud.PLAYER);
                          LuaHud.mkSegment (Some String.EmptyString) None;
                          LuaHud.mkSegment (Some " sent you a key") None])))
             (default 6 None)])%list.
Proof.
  destruct (hud_notify_queue Z 6 (LuaHud.mkHudLog Z true [] [] 0 0)
              (Some [LuaHud.mkSegment (Some "Alice") (Some LuaHud.PLAYER);
                     LuaHud.mkSegment (Some String.EmptyString) None;
                     LuaHud.mkSegment (Some " sent you a key") None]) None)
    as (_ & _ & _ & _ & _ & _ & Hq & _).
  - vm_compute. lia.
  - apply Hq; [reflexivity | vm_compute; discriminate].
Defined.

(** X27. The log on screen. A drain with the widget ready empties the
    pending queue, shows at most [MAX_VISIBLE] lines, none of them expired,
    and does not move the clock; when every HorizontalBox can be made, the
    lines shown are the newest [MAX_VISIBLE] of the old lines followed by
    the pending notifications (each expiring its duration after now), in
    that order, without those that have expired. *)
Theorem hud_log_drain (number : Type) (number_add : number → number → number)
    (number_ge : number → number → bool) (h : LuaHud.HudLog number) (oks : list bool) :
  (length (LuaHud.entries number h) ≤ LuaHud.MAX_VISIBLE)%nat →
  LuaHud.pendingQueue number (LuaHud.DrainPending_ready number number_add number_ge h oks) = []
  ∧ (length (LuaHud.entries number
               (LuaHud.DrainPending_ready number number_add number_ge h oks))
     ≤ LuaHud.MAX_VISIBLE)%nat
  ∧ (∀ e, e ∈ LuaHud.entries number
                (LuaHud.DrainPending_ready number number_add number_ge h oks) →
       number_ge (LuaHud.timeAccum number h) (LuaHud.expireTime number e) = false)
  ∧ LuaHud.timeAccum number (LuaHud.DrainPending_ready number number_add number_ge h oks)
    = LuaHud.timeAccum number h
  ∧ (Forall (λ b, b = true) oks →
     hud_line <$> LuaHud.entries number
                       (LuaHud.DrainPending_ready number number_add number_ge h oks)
     = filter (λ l, number_ge (LuaHud.timeAccum number h) l.2 = false)
         (LuaHud.drop_oldest
            ((hud_line <$> LuaHud.entries number h)
             ++ (hud_new_line number_add (LuaHud.timeAccum number h)
                   <$> LuaHud.pendingQueue number h))%list)).
Proof.
  intros Hle. unfold LuaHud.DrainPending_ready.
  set (h0 := LuaHud.mkHudLog number (LuaHud.enabled number h) []
               (LuaHud.entries number h) (LuaHud.entryCounter number h)
               (LuaHud.timeAccum number h)).
  destruct (add_pending_frame number number_add (LuaHud.pendingQueue number h) h0 oks)
    as (Hq & Ht & _ & Hlen).
  specialize (Hlen Hle).
  unfold LuaHud.ExpireTick.
  cbn [LuaHud.pendingQueue LuaHud.entries LuaHud.timeAccum].
  rewrite Hq, Ht. cbn [LuaHud.pendingQueue LuaHud.timeAccum h0].
  split; [reflexivity|]. split; [|split; [|split]].
  - etrans; [apply length_filter | exact Hlen].
  - intros e [He _]%list_elem_of_filter. exact He.
  - reflexivity.
  - intros Hoks.
    pose proof (add_pending_lines number number_add (LuaHud.pendingQueue number h) h0 oks
                  Hoks Hle) as Hlines.
    cbn [LuaHud.entries LuaHud.timeAccum h0] in Hlines. rewrite <- Hlines.
    set (es := LuaHud.entries number _). clearbody es.
    induction es as [|e es IH]; [reflexivity|].
    cbn [fmap list_fmap].
    destruct (number_ge (LuaHud.timeAccum number h) (LuaHud.expireTime number e)) eqn:Hexp.
    + rewrite filter_cons_False by (rewrite Hexp; discriminate).
      rewrite filter_cons_False by (cbn; rewrite Hexp; discriminate). exact IH.
    + rewrite filter_cons_True by exact Hexp.
      rewrite filter_cons_True by (cbn; exact Hexp).
      cbn [fmap list_fmap]. f_equal. exact IH.
Qed.

Lemma hud_log_drain_witness :
  LuaHud.pendingQueue Z
    (LuaHud.DrainPending_ready Z Z.add Z.geb
       (LuaHud.mkHudLog Z true [LuaHud.mkNotification Z [("hello", LuaHud.WHITE)] 6]
          [LuaHud.mkHudEntry Z 1 [("old", LuaHud.WHITE)] 3] 1 5) []) = []
  ∧ hud_line <$> LuaHud.entries Z
      (LuaHud.DrainPending_ready Z Z.add Z.geb
         (LuaHud.mkHudLog Z true [LuaHud.mkNotification Z [("hello", LuaHud.WHITE)] 6]
            [LuaHud.mkHudEntry Z 1 [("old", LuaHud.WHITE)] 3] 1 5) [])
    = [([("hello", LuaHud.WHITE)], 11)].
Proof.
  destruct (hud_log_drain Z Z.add Z.geb
              (LuaHud.mkHudLog Z true [LuaHud.mkNotification Z [("hello", LuaHud.WHITE)] 6]
                 [LuaHud.mkHudEntry Z 1 [("old", LuaHud.WHITE)] 3] 1 5) [])
    as (Hq & _ & _ & _ & Hlines).
  - vm_compute. lia.
  - split; [exact Hq|]. rewrite (Hlines ltac:(constructor)). vm_compute. reflexivity.
Defined.

(** ** Pickup detection *)

Lemma track_unreported (info : TrackedInfo) (x : Sighting) :
  reported info = false →
  track (Some info) x
  = if edge (wasAnimating info, wasHidden info) x
    then match onCollected x (info_id info) with
         | Raises => (Some info, [info_id info], Raises)
         | Returns =>
             (Some (mkTrackedInfo (info_id info) (isAnimating x) (isHidden x) true),
              [info_id info], Returns)
         end
    else (Some (mkTrackedInfo (info_id info) (isAnimating x) (isHidden x) false),
          [], Returns).
Proof.
  destruct info as [id wa wh r]. cbn [reported info_id wasAnimating wasHidden].
  intros ->. unfold track, edge.
  cbn [fst snd negb orb reported info_id wasAnimating wasHidden].
  destruct (onCollected x id);
    destruct (isAnimating x) as [[|]|], wa as [[|]|], (isHidden x) as [[|]|],
      wh as [[|]|], (item_id (sighted x)) as [id'|], (collectable x); reflexivity.
Qed.

Lemma track_reported (info : TrackedInfo) (x : Sighting) :
  reported info = true →
  track (Some info) x
  = (Some (mkTrackedInfo (info_id info) (isAnimating x) (isHidden x) (negb (at_rest x))),
     [], Returns).
Proof.
  intros Hr. unfold track, at_rest. rewrite Hr. cbn [negb orb andb].
  rewrite !andb_false_r. cbn [orb app andb].
  by destruct (_ && _ && _ && _).
Qed.

(** A body that returns has written the entry; a body that left none had
    none. *)
Lemma track_returns_entry (entry : option TrackedInfo) (x : Sighting) :
  (track entry x).2 = Returns → is_Some (track entry x).1.1.
Proof.
  unfold track. destruct entry as [info|].
  - destruct (_ && bool_decide (onCollected x (info_id info) = Raises));
      [discriminate|].
    destruct (_ && bool_decide (onCollected x (info_id info) = Raises));
      [discriminate|]. cbn. eauto.
  - destruct (bool_decide (isAnimating x = Some true)); [|cbn; eauto].
    destruct (onCollected x (item_id (sighted x))); [cbn; eauto | discriminate].
Qed.

Lemma track_no_entry (entry : option TrackedInfo) (x : Sighting) :
  (track entry x).1.1 = None → entry = None.
Proof.
  unfold track. destruct entry as [info|]; [|reflexivity].
  destruct (_ && bool_decide (onCollected x (info_id info) = Raises));
    [discriminate|].
  destruct (_ && bool_decide (onCollected x (info_id info) = Raises)); discriminate.
Qed.

Lemma track_history_app (xs ys : list Sighting) :
  ∀ entry : option TrackedInfo,
    track_history entry (xs ++ ys)
    = ((track_history (track_history entry xs).1 ys).1,
       ((track_history entry xs).2 ++ (track_history (track_history entry xs).1 ys).2)%list).
Proof.
  induction xs as [|x later IH]; intros entry.
  - cbn. by destruct (track_history entry ys).
  - cbn [app track_history fst snd]. rewrite IH. cbn [fst snd]. by rewrite app_assoc.
Qed.

Lemma last_flags_cons (flags : option bool * option bool) (x : Sighting)
    (xs : list Sighting) :
  last_flags flags (x :: xs) = last_flags (isAnimating x, isHidden x) xs.
Proof. unfold last_flags. rewrite last_cons. by destruct (last xs). Qed.

(** Without an edge an unreported actor stays unreported, silently. *)
Lemma track_history_no_edge (xs : list Sighting) :
  ∀ info : TrackedInfo,
    reported info = false →
    has_edge (wasAnimating info, wasHidden info) xs = false →
    ∃ info',
      track_history (Some info) xs = (Some info', [])
      ∧ reported info' = false
      ∧ info_id info' = info_id info
      ∧ (wasAnimating info', wasHidden info')
        = last_flags (wasAnimating info, wasHidden info) xs.
Proof.
  induction xs as [|x later IH]; intros info Hr Hedge.
  { exists info. auto. }
  cbn [has_edge] in Hedge. apply orb_false_elim in Hedge as [Hx Hlater].
  cbn [track_history]. rewrite (track_unreported info x Hr), Hx. cbn [fst snd].
  destruct (IH (mkTrackedInfo (info_id info) (isAnimating x) (isHidden x) false))
    as (info' & Hrun & Hr' & Hid & Hflags); [reflexivity | exact Hlater |].
  exists info'. rewrite Hrun, last_flags_cons. cbn [fst snd app]. auto.
Qed.

(** A reported actor is not reported again before it is seen at rest. *)
Lemma track_history_reported (xs : list Sighting) :
  ∀ info : TrackedInfo,
    reported info = true →
    Forall (λ y, at_rest y = false) xs →
    ∃ info',
      track_history (Some info) xs = (Some info', [])
      ∧ reported info' = true
      ∧ info_id info' = info_id info.
Proof.
  induction xs as [|x later IH]; intros info Hr Hrest.
  { exists info. auto. }
  apply Forall_cons in Hrest as [Hx Hrest].
  cbn [track_history]. rewrite (track_reported info x Hr), Hx. cbn [fst snd negb].
  destruct (IH (mkTrackedInfo (info_id info) (isAnimating x) (isHidden x) true))
    as (info' & Hrun & Hr' & Hid); [reflexivity | exact Hrest |].
  exists info'. rewrite Hrun. auto.
Qed.

(** A body whose call raises is repeated by every scan that sees the actor
    the same way: the entry is as it was. *)
Lemma track_history_raising (entry : option TrackedInfo) (x : Sighting)
    (arg : option string) :
  track entry x = (entry, [arg], Raises) →
  ∀ n, track_history entry (replicate n x) = (entry, replicate n arg).
Proof.
  intros Hx. induction n as [|n IH]; [reflexivity|].
  cbn [replicate track_history]. rewrite Hx. cbn [fst snd]. rewrite IH. reflexivity.
Qed.

(** X28. A pickup is reported once, when the callback returns. For a
    tracked actor not yet reported: as long as neither flag goes from false
    to true the scans make no call for it; at the first scan where one does
    (even both), exactly one call of [onCollected] is made, with the id the
    actor was registered under. If that call returns, then however long the
    actor is seen afterwards, animating or hidden or uncollectable, no
    further call is made, and after a sighting at rest (with an id,
    collectable, neither animating nor hidden) the actor is reported again
    at the next edge. If that call raises (as [OnTetrominoCollected] does
    for an actor registered without an id), the entry is left as it was and
    every scan that sees the actor the same way makes the call again. A new
    actor that is animating when first seen is reported at once, in the
    same way; if its call raises, no entry is written for it. *)
Theorem pickup_reported_once
    (info : TrackedInfo) (before : list Sighting) (x : Sighting) (after : list Sighting) :
  reported info = false →
  has_edge (wasAnimating info, wasHidden info) before = false →
  edge (last_flags (wasAnimating info, wasHidden info) before) x = true →
  Forall (λ y, at_rest y = false) after →
  (track_history (Some info) before).2 = []
  ∧ (onCollected x (info_id info) = Returns →
     (track_history (Some info) (before ++ [x])).2 = [info_id info]
     ∧ (track_history (Some info) (before ++ x :: after)).2 = [info_id info]
     ∧ (∀ rest again,
          at_rest rest = true → edge (isAnimating rest, isHidden rest) again = true →
          (track_history (Some info) (before ++ x :: after ++ [rest; again])).2
          = [info_id info; info_id info]))
  ∧ (onCollected x (info_id info) = Raises →
     ∀ n, track_history (Some info) (before ++ replicate n x)
          = ((track_history (Some info) before).1, replicate n (info_id info)))
  ∧ (∀ new, isAnimating new = Some true →
       (onCollected new (item_id (sighted new)) = Returns →
        (track_history None (new :: after)).2 = [item_id (sighted new)])
       ∧ (onCollected new (item_id (sighted new)) = Raises →
          ∀ n, track_history None (replicate n new)
               = (None, replicate n (item_id (sighted new))))).
Proof.
  intros Hr Hquiet Hedge Hafter.
  destruct (track_history_no_edge before info Hr Hquiet)
    as (info1 & Hrun1 & Hr1 & Hid1 & Hflags1).
  split; [by rewrite Hrun1|]. split; [|split].
  - intros Hret.
    assert (Hx : track (Some info1) x
                 = (Some (mkTrackedInfo (info_id info) (isAnimating x) (isHidden x) true),
                    [info_id info], Returns)).
    { rewrite (track_unreported info1 x Hr1), Hflags1, Hedge, Hid1, Hret. reflexivity. }
    destruct (track_history_reported after
                (mkTrackedInfo (info_id info) (isAnimating x) (isHidden x) true))
      as (info2 & Hrun2 & Hr2 & Hid2); [reflexivity | exact Hafter |].
    cbn [info_id] in Hid2.
    split; [|split].
    + rewrite track_history_app, Hrun1. cbn [fst snd track_history]. rewrite Hx. reflexivity.
    + rewrite track_history_app, Hrun1. cbn [fst snd track_history]. rewrite Hx.
      cbn [fst snd]. rewrite Hrun2. reflexivity.
    + intros rest again Hrest Hagain.
      rewrite track_history_app, Hrun1. cbn [fst snd track_history]. rewrite Hx.
      cbn [fst snd]. rewrite track_history_app, Hrun2. cbn [fst snd track_history app].
      rewrite (track_reported info2 rest Hr2), Hrest. cbn [fst snd negb app].
      rewrite track_unreported by reflexivity.
      cbn [wasAnimating wasHidden info_id]. rewrite Hagain, Hid2.
      by destruct (onCollected again (info_id info)).
  - intros Hraise n.
    assert (Hx : track (Some info1) x = (Some info1, [info_id info], Raises)).
    { rewrite (track_unreported info1 x Hr1), Hflags1, Hedge, Hid1, Hraise. reflexivity. }
    rewrite track_history_app, Hrun1. cbn [fst snd app].
    rewrite (track_history_raising (Some info1) x (info_id info) Hx). reflexivity.
  - intros new Hnew. split.
    + intros Hret. cbn [track_history].
      assert (Hreg : track None new
                     = (Some (mkTrackedInfo (item_id (sighted new)) (Some true)
                                (isHidden new) true),
                        [item_id (sighted new)], Returns)).
      { unfold track. rewrite Hnew, Hret. reflexivity. }
      rewrite Hreg. cbn [fst snd].
      destruct (track_history_reported after
                  (mkTrackedInfo (item_id (sighted new)) (Some true) (isHidden new) true))
        as (info3 & Hrun3 & _); [reflexivity | exact Hafter |].
      rewrite Hrun3. reflexivity.
    + intros Hraise. apply track_history_raising.
      unfold track. rewrite Hnew, Hraise. reflexivity.
Qed.

Lemma pickup_reported_once_witness :
  (track_history (Some (mkTrackedInfo (Some "DJ3") (Some false) (Some false) false))
     ([seen 1 (Some "DJ3") (Some false) (Some false) true;
       seen 1 (Some "DJ3") (Some false) (Some false) true]
      ++ seen 1 (Some "DJ3") (Some true) (Some true) true
      :: [seen 1 (Some "DJ3") (Some true) (Some true) false;
          seen 1 (Some "DJ3") (Some false) (Some true) false;
          seen 1 (Some "DJ3") (Some true) (Some true) false])).2
  = [info_id (mkTrackedInfo (Some "DJ3") (Some false) (Some false) false)].
Proof.
  destruct (pickup_reported_once
              (mkTrackedInfo (Some "DJ3") (Some false) (Some false) false)
              [seen 1 (Some "DJ3") (Some false) (Some false) true;
               seen 1 (Some "DJ3") (Some false) (Some false) true]
              (seen 1 (Some "DJ3") (Some true) (Some true) true)
              [seen 1 (Some "DJ3") (Some true) (Some true) false;
               seen 1 (Some "DJ3") (Some false) (Some true) false;
               seen 1 (Some "DJ3") (Some true) (Some true) false])
    as (_ & Hreturns & _).
  - reflexivity.
  - vm_compute. reflexivity.
  - vm_compute. reflexivity.
  - repeat constructor.
  - destruct (Hreturns eq_refl) as (_ & Honce & _). exact Honce.
Defined.

(** An actor registered without an id, on which the hidden flag goes from
    false to true: [OnTetrominoCollected] raises on the nil id, the entry
    keeps its flags, and each of three scans makes the call again. *)
Lemma nil_id_reported_at_every_scan :
  track_history (Some (mkTrackedInfo None (Some false) (Some false) false))
    (replicate 3 (seen 1 None (Some false) (Some true) true))
  = (Some (mkTrackedInfo None (Some false) (Some false) false), [None; None; None]).
Proof. vm_compute. reflexivity. Qed.

(** After a call that raised, the loop is over. *)
Lemma scan_raised (items : list Sighting) :
  ∀ acc : ScanState, acc.2 = Raises → foldl scan_item acc items = acc.
Proof.
  induction items as [|x rest IH]; intros acc Hacc; [reflexivity|].
  cbn [foldl].
  assert (Hstep : scan_item acc x = acc) by (unfold scan_item; by rewrite Hacc).
  rewrite Hstep. by apply IH.
Qed.

(** One iteration on a valid actor while the scan is running. *)
Lemma scan_item_valid (acc : ScanState) (x : Sighting) :
  acc.2 = Returns → item_valid (sighted x) = true →
  (scan_item acc x).1.1 !! item_address (sighted x)
  = (track (acc.1.1 !! item_address (sighted x)) x).1.1
  ∧ (∀ a, a ≠ item_address (sighted x) → (scan_item acc x).1.1 !! a = acc.1.1 !! a)
  ∧ (scan_item acc x).1.2
    = (acc.1.2 ++ (track (acc.1.1 !! item_address (sighted x)) x).1.2)%list
  ∧ (scan_item acc x).2 = (track (acc.1.1 !! item_address (sighted x)) x).2.
Proof.
  intros Hacc Hvalid. unfold scan_item. rewrite Hacc, Hvalid. cbn [fst snd].
  destruct (track (acc.1.1 !! item_address (sighted x)) x).1.1 as [info'|] eqn:Hentry.
  - split; [apply lookup_insert_eq|]. split; [|by split].
    intros a Ha. apply lookup_insert_ne. congruence.
  - split; [by apply track_no_entry in Hentry|]. by split.
Qed.

(** The loop over the actors found, none of whose calls raises, on any
    table and calls so far. *)
Lemma scan_fold (items : list Sighting) :
  ∀ acc : ScanState,
    acc.2 = Returns →
    NoDup (found_addresses items) →
    (∀ x, x ∈ items → item_valid (sighted x) = true →
       (track (acc.1.1 !! item_address (sighted x)) x).2 = Returns) →
    (foldl scan_item acc items).2 = Returns
    ∧ (∀ x, x ∈ items → item_valid (sighted x) = true →
         (foldl scan_item acc items).1.1 !! item_address (sighted x)
         = (track (acc.1.1 !! item_address (sighted x)) x).1.1)
    ∧ (∀ a, a ∉ found_addresses items →
         (foldl scan_item acc items).1.1 !! a = acc.1.1 !! a)
    ∧ (foldl scan_item acc items).1.2
      = (acc.1.2
         ++ concat ((λ x, (track (acc.1.1 !! item_address (sighted x)) x).1.2)
                      <$> filter (λ x, item_valid (sighted x) = true) items))%list.
Proof.
  induction items as [|x rest IH]; intros acc Hacc Hdup Hret.
  { cbn. split; [exact Hacc|]. split; [intros x Hx; by apply elem_of_nil in Hx|].
    split; [reflexivity | by rewrite app_nil_r]. }
  cbn [foldl]. unfold found_addresses in *.
  destruct (item_valid (sighted x)) eqn:Hvalid.
  - rewrite filter_cons_True in Hdup |- * by exact Hvalid.
    cbn [fmap list_fmap] in Hdup |- *.
    apply NoDup_cons in Hdup as [Hfresh Hdup].
    destruct (scan_item_valid acc x Hacc Hvalid) as (Hx & Hrest & Hcallsx & Hendx).
    rewrite (Hret x (list_elem_of_here _ _) Hvalid) in Hendx.
    assert (Hother : ∀ y, y ∈ rest → item_valid (sighted y) = true →
                          (scan_item acc x).1.1 !! item_address (sighted y)
                          = acc.1.1 !! item_address (sighted y)).
    { intros y Hy Hv. apply Hrest.
      intros Heq. apply Hfresh. rewrite <- Heq.
      apply (list_elem_of_fmap_2 (λ x, item_address (sighted x))).
      apply list_elem_of_filter. split; [exact Hv | exact Hy]. }
    destruct (IH (scan_item acc x) Hendx Hdup) as (Hend & Hin & Hout & Hcalls).
    { intros y Hy Hv. rewrite (Hother y Hy Hv). apply Hret; [|exact Hv].
      by apply list_elem_of_further. }
    split; [exact Hend|]. split; [|split].
    + intros y [->|Hy]%elem_of_cons Hv.
      * rewrite (Hout _ Hfresh). exact Hx.
      * rewrite (Hin y Hy Hv), (Hother y Hy Hv). reflexivity.
    + intros a Ha. apply not_elem_of_cons in Ha as [Hne Ha].
      rewrite (Hout a Ha). by apply Hrest.
    + rewrite Hcalls, Hcallsx. cbn [concat]. rewrite <- app_assoc.
      f_equal. f_equal.
      f_equal. apply Forall_fmap_ext_1. apply Forall_forall.
      intros y [Hv Hy]%list_elem_of_filter. rewrite (Hother y Hy Hv). reflexivity.
  - rewrite filter_cons_False in Hdup |- * by (rewrite Hvalid; discriminate).
    assert (Hstep : scan_item acc x = acc).
    { unfold scan_item. rewrite Hacc, Hvalid. reflexivity. }
    rewrite Hstep. clear Hstep.
    destruct (IH acc Hacc Hdup) as (Hend & Hin & Hout & Hcalls).
    { intros y Hy Hv. apply Hret; [by apply list_elem_of_further | exact Hv]. }
    split; [exact Hend|]. split; [|split; [exact Hout | exact Hcalls]].
    intros y [->|Hy]%elem_of_cons Hv; [congruence | exact (Hin y Hy Hv)].
Qed.

Lemma found_addresses_app (xs ys : list Sighting) :
  found_addresses (xs ++ ys)%list = (found_addresses xs ++ found_addresses ys)%list.
Proof. unfold found_addresses. by rewrite filter_app, fmap_app. Qed.

(** X29. One scan, actor by actor. When the valid actors found have
    distinct addresses, the scan treats each of them by its own entry
    alone. If no call of [onCollected] raises, the scan returns, the entry
    of a valid actor afterwards is what the loop body makes of its entry
    before, the calls of [onCollected] are those of the valid actors in the
    order found, and the entry of every address not found is removed, so
    that an actor which comes back is registered anew. If the call made
    for an actor raises, the scan ends there with that error: the actors
    before it and that actor are treated as said, the actors after it are
    not looked at, and no entry is removed. When [FindAllOf] returns nil
    the table is left as it is. *)
Theorem scan_tracks_each_actor
    (TrackedItems : gmap nat TrackedInfo) (items : list Sighting) :
  NoDup (found_addresses items) →
  ((∀ x, x ∈ items → item_valid (sighted x) = true →
      (track (TrackedItems !! item_address (sighted x)) x).2 = Returns) →
   (ScanTetrominoItems TrackedItems (Some items)).2 = Returns
   ∧ (∀ x, x ∈ items → item_valid (sighted x) = true →
        (ScanTetrominoItems TrackedItems (Some items)).1.1 !! item_address (sighted x)
        = (track (TrackedItems !! item_address (sighted x)) x).1.1
        ∧ is_Some (track (TrackedItems !! item_address (sighted x)) x).1.1)
   ∧ (∀ a, a ∉ found_addresses items →
        (ScanTetrominoItems TrackedItems (Some items)).1.1 !! a = None)
   ∧ (ScanTetrominoItems TrackedItems (Some items)).1.2
     = concat ((λ x, (track (TrackedItems !! item_address (sighted x)) x).1.2)
                 <$> filter (λ x, item_valid (sighted x) = true) items))
  ∧ (∀ pre x post,
       items = (pre ++ x :: post)%list →
       item_valid (sighted x) = true →
       (∀ y, y ∈ pre → item_valid (sighted y) = true →
          (track (TrackedItems !! item_address (sighted y)) y).2 = Returns) →
       (track (TrackedItems !! item_address (sighted x)) x).2 = Raises →
       (ScanTetrominoItems TrackedItems (Some items)).2 = Raises
       ∧ (∀ y, y ∈ (pre ++ [x])%list → item_valid (sighted y) = true →
            (ScanTetrominoItems TrackedItems (Some items)).1.1 !! item_address (sighted y)
            = (track (TrackedItems !! item_address (sighted y)) y).1.1)
       ∧ (∀ a, a ∉ found_addresses (pre ++ [x])%list →
            (ScanTetrominoItems TrackedItems (Some items)).1.1 !! a = TrackedItems !! a)
       ∧ (ScanTetrominoItems TrackedItems (Some items)).1.2
         = concat ((λ y, (track (TrackedItems !! item_address (sighted y)) y).1.2)
                     <$> filter (λ y, item_valid (sighted y) = true) (pre ++ [x])%list))
  ∧ ScanTetrominoItems TrackedItems None = (TrackedItems, [], Returns).
Proof.
  intros Hdup. split; [|split; [|reflexivity]].
  - intros Hret.
    destruct (scan_fold items (TrackedItems, [], Returns) eq_refl Hdup Hret)
      as (Hend & Hin & Hout & Hcalls).
    cbn [fst snd app] in Hin, Hout, Hcalls.
    cbn [ScanTetrominoItems]. rewrite Hend. cbn [fst snd].
    split; [reflexivity|]. split; [|split; [|exact Hcalls]].
    + intros x Hx Hv.
      destruct (track_returns_entry _ x (Hret x Hx Hv)) as [info' Hentry].
      split; [|by eexists]. rewrite Hentry.
      apply map_lookup_filter_Some. split; [by rewrite (Hin x Hx Hv)|].
      cbn [fst]. unfold found_addresses.
      apply (list_elem_of_fmap_2 (λ x, item_address (sighted x))).
      apply list_elem_of_filter. split; [exact Hv | exact Hx].
    + intros a Ha. apply map_lookup_filter_None. right. intros info _ Hfound.
      exact (Ha Hfound).
  - intros pre x post -> Hvalid Hret Hraise.
    rewrite found_addresses_app in Hdup. apply NoDup_app in Hdup as (Hdup & Hapart & _).
    destruct (scan_fold pre (TrackedItems, [], Returns) eq_refl Hdup Hret)
      as (Hend & Hin & Hout & Hcalls).
    cbn [fst snd app] in Hin, Hout, Hcalls.
    assert (Hfresh : item_address (sighted x) ∉ found_addresses pre).
    { intros Hfound. apply (Hapart _ Hfound). unfold found_addresses.
      rewrite filter_cons_True by exact Hvalid. apply list_elem_of_here. }
    set (accp := foldl scan_item (TrackedItems, [], Returns) pre) in *.
    destruct (scan_item_valid accp x Hend Hvalid) as (Hx & Hrest & Hcallsx & Hendx).
    rewrite (Hout _ Hfresh) in Hx, Hcallsx, Hendx. rewrite Hraise in Hendx.
    assert (Hrun : foldl scan_item (TrackedItems, [], Returns) (pre ++ x :: post)
                   = scan_item accp x).
    { rewrite foldl_app. cbn [foldl]. fold accp. by apply scan_raised. }
    cbn [ScanTetrominoItems]. rewrite Hrun, Hendx.
    split; [exact Hendx|]. split; [|split].
    + intros y [Hy|Hy]%elem_of_app Hv.
      * rewrite Hrest, (Hin y Hy Hv); [reflexivity|].
        intros Heq. apply Hfresh. rewrite <- Heq.
        apply (list_elem_of_fmap_2 (λ x, item_address (sighted x))).
        apply list_elem_of_filter. split; [exact Hv | exact Hy].
      * apply list_elem_of_singleton in Hy. subst y. exact Hx.
    + intros a Ha. rewrite found_addresses_app in Ha.
      apply not_elem_of_app in Ha as [Hpre Hxa].
      rewrite Hrest, (Hout a Hpre); [reflexivity|].
      intros ->. apply Hxa. unfold found_addresses.
      rewrite filter_cons_True by exact Hvalid. apply list_elem_of_here.
    + rewrite Hcallsx, Hcalls, filter_app, fmap_app, concat_app.
      rewrite (filter_cons_True _ x []) by exact Hvalid.
      cbn. by rewrite app_nil_r.
Qed.

Lemma scan_tracks_each_actor_witness :
  (ScanTetrominoItems {[ 1%nat := mkTrackedInfo (Some "DJ3") (Some false) (Some false) false;
                         9%nat := mkTrackedInfo (Some "MT1") (Some false) (Some false) false ]}
     (Some [seen 1 (Some "DJ3") (Some true) (Some false) true;
            mkSighting (mkTetrominoItem 2 false None) None None false (λ _, Raises);
            seen 3 (Some "DZ1") (Some true) (Some false) true])).1.2
  = [Some "DJ3"; Some "DZ1"]
  ∧ (ScanTetrominoItems {[ 1%nat := mkTrackedInfo (Some "DJ3") (Some false) (Some false) false;
                           9%nat := mkTrackedInfo (Some "MT1") (Some false) (Some false) false ]}
       (Some [seen 1 (Some "DJ3") (Some true) (Some false) true;
              mkSighting (mkTetrominoItem 2 false None) None None false (λ _, Raises);
              seen 3 (Some "DZ1") (Some true) (Some false) true])).1.1
    !! 9%nat = None.
Proof.
  destruct (scan_tracks_each_actor
              {[ 1%nat := mkTrackedInfo (Some "DJ3") (Some false) (Some false) false;
                 9%nat := mkTrackedInfo (Some "MT1") (Some false) (Some false) false ]}
              [seen 1 (Some "DJ3") (Some true) (Some false) true;
               mkSighting (mkTetrominoItem 2 false None) None None false (λ _, Raises);
               seen 3 (Some "DZ1") (Some true) (Some false) true])
    as (Hreturns & _).
  - apply (bool_decide_unpack _). vm_compute. exact I.
  - destruct Hreturns as (_ & _ & Hgone & Hcalls).
    + intros x Hx Hv.
      apply elem_of_cons in Hx as [->|Hx]; [vm_compute; reflexivity|].
      apply elem_of_cons in Hx as [->|Hx]; [discriminate Hv|].
      apply list_elem_of_singleton in Hx. subst x. vm_compute. reflexivity.
    + split.
      * rewrite Hcalls. vm_compute. reflexivity.
      * apply Hgone. apply (bool_decide_unpack _). vm_compute. exact I.
Defined.

(** A scan that finds an animating actor without an id before it has an
    entry: [OnTetrominoCollected] raises on the nil id, no entry is
    written for the actor, the actor found after it is not tracked, and
    the entry of the address 9, which was not found, is still there. *)
Lemma nil_id_cuts_scan :
  ScanTetrominoItems {[ 9%nat := mkTrackedInfo (Some "MT1") (Some false) (Some false) false ]}
    (Some [seen 1 None (Some true) (Some false) true;
           seen 3 (Some "DZ1") (Some false) (Some false) true])
  = ({[ 9%nat := mkTrackedInfo (Some "MT1") (Some false) (Some false) false ]},
     [None], Raises).
Proof. vm_compute. reflexivity. Qed.

(** ** Tetromino ids in Lua *)

Lemma format_d_nonempty (n : Z) :
  ∃ c rest, TetrominoUtils.format_d n = String.String c rest.
Proof.
  unfold TetrominoUtils.format_d, pretty, pretty_Z.
  destruct n as [|p|p].
  - by exists "0"%char, String.EmptyString.
  - unfold pretty, pretty_positive, pretty, pretty_N.
    rewrite decide_False by done.
    destruct (pretty_N_go_head (N.pos p) String.EmptyString) as (d & rest & _ & ->); [lia|].
    eauto.
  - by eexists _, _.
Qed.

Lemma substring_all (s : string) : String.substring 0 (String.length s) s = s.
Proof. induction s as [|c s IH]; [reflexivity|]. cbn. by rewrite IH. Qed.

Lemma TypeToLetter_inv (t : Z) (letter : string) :
  TetrominoUtils.TypeToLetter t = Some letter →
  (∃ c, letter = String.String c String.EmptyString)
  ∧ TetrominoUtils.LetterToType letter = Some t.
Proof.
  unfold TetrominoUtils.TypeToLetter.
  destruct t as [|p|p]; try discriminate.
  repeat (destruct p as [p|p|]; try discriminate).
  all: intros [= <-]; split; [eauto | reflexivity].
Qed.

Lemma ShapeToLetter_inv (s : Z) (letter : string) :
  TetrominoUtils.ShapeToLetter s = Some letter →
  (∃ c, letter = String.String c String.EmptyString)
  ∧ TetrominoUtils.LetterToShape letter = Some s.
Proof.
  unfold TetrominoUtils.ShapeToLetter.
  destruct s as [|p|p]; try discriminate.
  repeat (destruct p as [p|p|]; try discriminate).
  all: intros [= <-]; split; [eauto | reflexivity].
Qed.

Lemma ParseTetrominoId_letters (number : Type) (tonumber : string → option number)
    (ct cs : ascii) (numStr : string) :
  numStr ≠ String.EmptyString →
  TetrominoUtils.ParseTetrominoId number tonumber
    (Some (String.String ct (String.String cs numStr)))
  = match TetrominoUtils.LetterToType (String.String ct String.EmptyString),
          TetrominoUtils.LetterToShape (String.String cs String.EmptyString),
          tonumber numStr with
    | Some typeVal, Some shapeVal, Some numVal => Some (typeVal, shapeVal, numVal)
    | _, _, _ => None
    end.
Proof.
  intros Hne. destruct numStr as [|c rest]; [done|].
  unfold TetrominoUtils.ParseTetrominoId.
  cbn [String.length Nat.ltb Nat.leb Nat.sub String.substring].
  rewrite substring_all. reflexivity.
Qed.

(** X30. Formatting and parsing an id in Lua. For a type and a shape of
    the tables, [ParseTetrominoId] gives back the type and the shape of what
    [FormatTetrominoId] writes, with the number [tonumber] reads from the
    decimal digits. An id written for a type that is not in the table begins
    with "T" and does not parse at all; an id written for a shape that is not
    in the table has "S" as its second letter and parses as the shape S (16),
    its number being read from the digits of the shape followed by those of
    the number. *)
Theorem tetromino_id_round_trip
    (number : Type) (tonumber : string → option number)
    (typeVal shapeVal numVal : Z) (x : number) :
  tonumber (TetrominoUtils.format_d numVal) = Some x →
  (∀ typeLetter shapeLetter,
     TetrominoUtils.TypeToLetter typeVal = Some typeLetter →
     TetrominoUtils.ShapeToLetter shapeVal = Some shapeLetter →
     TetrominoUtils.FormatTetrominoId (Some typeVal) (Some shapeVal) (Some numVal)
     = typeLetter +:+ shapeLetter +:+ TetrominoUtils.format_d numVal
     ∧ TetrominoUtils.ParseTetrominoId number tonumber
         (Some (TetrominoUtils.FormatTetrominoId (Some typeVal) (Some shapeVal) (Some numVal)))
       = Some (typeVal, shapeVal, x))
  ∧ (TetrominoUtils.TypeToLetter typeVal = None →
     TetrominoUtils.ParseTetrominoId number tonumber
       (Some (TetrominoUtils.FormatTetrominoId (Some typeVal) (Some shapeVal) (Some numVal)))
     = None)
  ∧ (∀ typeLetter y,
       TetrominoUtils.TypeToLetter typeVal = Some typeLetter →
       TetrominoUtils.ShapeToLetter shapeVal = None →
       tonumber (TetrominoUtils.format_d shapeVal +:+ TetrominoUtils.format_d numVal) = Some y →
       TetrominoUtils.ParseTetrominoId number tonumber
         (Some (TetrominoUtils.FormatTetrominoId (Some typeVal) (Some shapeVal) (Some numVal)))
       = Some (typeVal, 16, y)).
Proof.
  intros Hx.
  assert (Hne : ∀ n, TetrominoUtils.format_d n ≠ String.EmptyString).
  { intros n. destruct (format_d_nonempty n) as (c & rest & ->). discriminate. }
  split; [|split].
  - intros typeLetter shapeLetter Ht Hs.
    unfold TetrominoUtils.FormatTetrominoId. cbn [default from_option id].
    rewrite Ht, Hs. cbn [from_option id]. split; [reflexivity|].
    destruct (TypeToLetter_inv _ _ Ht) as [[ct ->] Htl].
    destruct (ShapeToLetter_inv _ _ Hs) as [[cs ->] Hsl].
    match goal with
    | |- TetrominoUtils.ParseTetrominoId _ _ (Some ?s) = _ =>
        change s with (String.String ct (String.String cs (TetrominoUtils.format_d numVal)))
    end.
    rewrite ParseTetrominoId_letters by apply Hne.
    rewrite Htl, Hsl, Hx. reflexivity.
  - intros Ht.
    unfold TetrominoUtils.FormatTetrominoId. cbn [default from_option id].
    rewrite Ht. cbn [from_option id].
    destruct (format_d_nonempty typeVal) as (c1 & rest1 & ->).
    set (tail := from_option id _ _ +:+ _).
    assert (Htail : tail ≠ String.EmptyString).
    { unfold tail. destruct (TetrominoUtils.ShapeToLetter shapeVal) as [sl|] eqn:Hs.
      - destruct (ShapeToLetter_inv _ _ Hs) as [[cs ->] _]. discriminate.
      - discriminate. }
    match goal with
    | |- TetrominoUtils.ParseTetrominoId _ _ (Some ?s) = _ =>
        change s with (String.String "T" (String.String c1 (rest1 +:+ tail)))
    end.
    rewrite ParseTetrominoId_letters; [reflexivity|].
    destruct rest1; [exact Htail | discriminate].
  - intros typeLetter y Ht Hs Hy.
    unfold TetrominoUtils.FormatTetrominoId. cbn [default from_option id].
    rewrite Ht, Hs. cbn [from_option id].
    destruct (TypeToLetter_inv _ _ Ht) as [[ct ->] Htl].
    match goal with
    | |- TetrominoUtils.ParseTetrominoId _ _ (Some ?s) = _ =>
        change s with (String.String ct (String.String "S"
                         (TetrominoUtils.format_d shapeVal +:+ TetrominoUtils.format_d numVal)))
    end.
    rewrite ParseTetrominoId_letters.
    + rewrite Htl, Hy. reflexivity.
    + destruct (format_d_nonempty shapeVal) as (c & rest & ->). discriminate.
Qed.

Lemma tetromino_id_round_trip_witness :
  TetrominoUtils.FormatTetrominoId (Some 1) (Some 2) (Some 3)
  = "D" +:+ "J" +:+ TetrominoUtils.format_d 3
  ∧ TetrominoUtils.ParseTetrominoId Z stoi
      (Some (TetrominoUtils.FormatTetrominoId (Some 1) (Some 2) (Some 3)))
    = Some (1, 2, 3).
Proof.
  destruct (tetromino_id_round_trip Z stoi 1 2 3 3) as (Hknown & _ & _).
  - vm_compute. reflexivity.
  - apply (Hknown "D" "J"); reflexivity.
Defined.
